(** * AI-Invoice-OCR: the queue service for asynchronous file processing

    A shallow embedding of the asynchronous job engine of the backend:
    the status store [processingStatus], the worker of [processingQueue],
    the deferred trigger [processQueuedFile], the retry and fallback calls
    to the OCR webhook and the reconciliation of the webhook's answer into
    the shape the rest of the backend reads.

    JavaScript values are a small inductive type, exceptions are an error
    sum, and the effects of one run (store writes, file reads, HTTP posts,
    the progress timer) go through a state-and-exception monad whose state
    keeps a chronological log of what the run did. *)

From Stdlib Require Import ZArith List Lia Ascii String.
From stdpp Require Import base tactics option list strings gmap pretty.

#[local] Set Warnings "-register-all".

Local Open Scope Z_scope.
Local Open Scope string_scope.

(** ** JavaScript values *)

(** What [response.data] of axios can hold: a parsed JSON text (a body that
    is not JSON is handed over as a string). Numbers are kept as integers:
    the service only ever tests a number for truthiness. *)
Inductive json : Type :=
| JNull
| JBool (b : bool)
| JNum (n : Z)
| JStr (s : string)
| JArr (elems : list json)
| JObj (members : list (string * json)).

(** Values on the heap. An array is an object too and can receive named
    properties next to its elements ([output.items = []] on an [output]
    that is an array); a parsed JSON array has none. Objects keep their
    properties in insertion order. *)
Inductive value : Type :=
| VUndef
| VNull
| VBool (b : bool)
| VNum (n : Z)
| VStr (s : string)
| VArr (elems : list value) (props : list (string * value))
| VObj (props : list (string * value)).

Fixpoint of_json (j : json) : value :=
  match j with
  | JNull => VNull
  | JBool b => VBool b
  | JNum n => VNum n
  | JStr s => VStr s
  | JArr l => VArr (List.map of_json l) []
  | JObj ms => VObj (List.map (fun m => (fst m, of_json (snd m))) ms)
  end.

(** Exceptions, by constructor name, each with its [message]. *)
Inductive exn : Type :=
| Error (message : string)
| TypeError (message : string)
| ReferenceError (message : string).

Definition message (e : exn) : string :=
  match e with
  | Error m | TypeError m | ReferenceError m => m
  end.

(** The error monad of synchronous code. *)
Definition bindE {A B : Type} (m : exn + A) (k : A -> exn + B) : exn + B :=
  match m with
  | inl e => inl e
  | inr a => k a
  end.

Notation "x <- m ;; k" := (bindE m (fun x => k))
  (at level 100, m at next level, right associativity).

(** [!!v] *)
Definition truthy (v : value) : bool :=
  match v with
  | VUndef | VNull => false
  | VBool b => b
  | VNum n => negb (Z.eqb n 0)
  | VStr s => match s with EmptyString => false | String _ _ => true end
  | VArr _ _ | VObj _ => true
  end.

(** [Array.isArray(v)] *)
Definition isArray (v : value) : bool :=
  match v with
  | VArr _ _ => true
  | _ => false
  end.

(** [typeof v === 'object'] *)
Definition typeof_object (v : value) : bool :=
  match v with
  | VNull | VArr _ _ | VObj _ => true
  | _ => false
  end.

Fixpoint own (ps : list (string * value)) (k : string) : option value :=
  match ps with
  | [] => None
  | (k', v) :: rest => if String.eqb k k' then Some v else own rest k
  end.

(** Defining a property: an existing one keeps its place, a new one goes
    last. *)
Fixpoint upd (ps : list (string * value)) (k : string) (x : value)
  : list (string * value) :=
  match ps with
  | [] => [(k, x)]
  | (k', v) :: rest =>
      if String.eqb k k' then (k', x) :: rest else (k', v) :: upd rest k x
  end.

(** [v.k] for the property names the service reads ([output], [items] and
    the four invoice fields): none of them is inherited from a built-in
    prototype, so primitives and plain arrays answer [undefined], and
    [null] and [undefined] throw. *)
Definition get (v : value) (k : string) : exn + value :=
  match v with
  | VUndef =>
      inl (TypeError
             ("Cannot read properties of undefined (reading '" ++ k ++ "')"))
  | VNull =>
      inl (TypeError ("Cannot read properties of null (reading '" ++ k ++ "')"))
  | VArr _ ps | VObj ps => inr (default VUndef (own ps k))
  | VBool _ | VNum _ | VStr _ => inr VUndef
  end.

(** [v.k = x]. The module is not in strict mode: an assignment to a
    property of a primitive is dropped without an error. *)
Definition assign (v : value) (k : string) (x : value) : exn + value :=
  match v with
  | VUndef =>
      inl (TypeError
             ("Cannot set properties of undefined (setting '" ++ k ++ "')"))
  | VNull =>
      inl (TypeError ("Cannot set properties of null (setting '" ++ k ++ "')"))
  | VObj ps => inr (VObj (upd ps k x))
  | VArr es ps => inr (VArr es (upd ps k x))
  | VBool _ | VNum _ | VStr _ => inr v
  end.

(** [{...v}]: the own enumerable properties, the elements of an array
    under their indices. *)
Definition spread (v : value) : list (string * value) :=
  match v with
  | VObj ps => ps
  | VArr es ps => imap (fun i e => (pretty i, e)) es ++ ps
  | _ => []
  end.

(** ** The clock *)

(** [s.split('T')[0]] *)
Fixpoint before_T (s : string) : string :=
  match s with
  | EmptyString => EmptyString
  | String c rest =>
      if Ascii.eqb c "T" then EmptyString else String c (before_T rest)
  end.

Section Normalizer.

(** [new Date(t).toISOString()], from the runtime. *)
Variable toISOString : Z -> string.

Definition confident (v : value) (c : bool) : value :=
  VObj [("value", v); ("is_confident", VBool c)].

(** [`INV-${Date.now()}`] *)
Definition inv_now (t : Z) : value := VStr ("INV-" ++ pretty t).

(** [new Date().toISOString().split('T')[0]] *)
Definition today (t : Z) : value := VStr (before_T (toISOString t)).

(** ** Response normalizer *)

(** [ocrData.find(item => item.output)] *)
Fixpoint find_output (array : list value) : exn + value :=
  match array with
  | [] => inr VUndef
  | item :: rest =>
      o <- get item "output" ;;
      if truthy o then inr item else find_output rest
  end.

Fixpoint findPropertyInArray (array : list value) (propertyName : string)
  : exn + value :=
  match array with
  | [] => inr VNull
  | item :: rest =>
      p <- get item propertyName ;;
      if truthy p then inr p
      else
        o <- get item "output" ;;
        if truthy o then
          q <- get o propertyName ;;
          if truthy q then inr q else findPropertyInArray rest propertyName
        else findPropertyInArray rest propertyName
  end.

(** The two copies of the normalizer. [findPropertyInArray] is declared
    inside the worker's [try] block: the worker sees it, the body of
    [processQueuedFile] does not. *)
Inductive site : Type := Worker | Trigger.

Definition call_findPropertyInArray (s : site) (array : list value)
    (propertyName : string) : exn + value :=
  match s with
  | Worker => findPropertyInArray array propertyName
  | Trigger => inl (ReferenceError "findPropertyInArray is not defined")
  end.

(** [a || b] *)
Definition or_else (a b : value) : value := if truthy a then a else b.

(** The branch "Merge all array items into one object with output
    property", with the look at the third element that follows it. *)
Definition merge_items (s : site) (t : Z) (ocrData : list value)
  : exn + value :=
  nr <- call_findPropertyInArray s ocrData "nomor_referensi" ;;
  ns <- call_findPropertyInArray s ocrData "nama_supplier" ;;
  tf <- call_findPropertyInArray s ocrData "tanggal_faktur" ;;
  jt <- call_findPropertyInArray s ocrData "tgl_jatuh_tempo" ;;
  let output :=
    [("nomor_referensi", or_else nr (confident (inv_now t) false));
     ("nama_supplier", or_else ns (confident (VStr "Unknown Supplier") false));
     ("tanggal_faktur", or_else tf (confident (today t) false));
     ("tgl_jatuh_tempo", or_else jt (confident (VStr "") false));
     ("items", VArr [] [])] in
  let third := nth 2 ocrData VUndef in
  if truthy third then
    o <- get third "output" ;;
    if truthy o then
      its <- get o "items" ;;
      if isArray its then inr (VObj [("output", VObj (upd output "items" its))])
      else inr (VObj [("output", VObj output)])
    else inr (VObj [("output", VObj output)])
  else inr (VObj [("output", VObj output)]).

Definition select_base (s : site) (t : Z) (ocrData : value) : exn + value :=
  match ocrData with
  | VArr items _ =>
      outputItem <- find_output items ;;
      if truthy outputItem then inr outputItem else merge_items s t items
  | _ => inr ocrData
  end.

(** "Ensure output property exists" *)
Definition ensure_output (processedOcrData : value) : exn + value :=
  o <- get processedOcrData "output" ;;
  if truthy o then inr processedOcrData
  else
    let copied :=
      if typeof_object processedOcrData then spread processedOcrData else [] in
    inr (VObj [("output", VObj (upd copied "items" (VArr [] [])))]).

(** [processedOcrData.output.k = x]: the object under [output] is changed
    in place, so the base is rebuilt around it. *)
Definition set_in_output (processedOcrData : value) (k : string) (x : value)
  : exn + value :=
  o <- get processedOcrData "output" ;;
  o' <- assign o k x ;;
  assign processedOcrData "output" o'.

(** [if (!processedOcrData.output.k) processedOcrData.output.k = x] *)
Definition ensure_field (processedOcrData : value) (k : string) (x : value)
  : exn + value :=
  o <- get processedOcrData "output" ;;
  f <- get o k ;;
  if truthy f then inr processedOcrData else set_in_output processedOcrData k x.

(** "Ensure items array exists and is an array" *)
Definition ensure_items (processedOcrData : value) : exn + value :=
  o <- get processedOcrData "output" ;;
  its <- get o "items" ;;
  if isArray its then inr processedOcrData
  else set_in_output processedOcrData "items" (VArr [] []).

(** "Ensure essential properties exist in output" *)
Definition backfill (t : Z) (processedOcrData : value) : exn + value :=
  p1 <- ensure_field processedOcrData "nomor_referensi"
               (confident (inv_now t) true) ;;
  p2 <- ensure_field p1 "nama_supplier"
               (confident (VStr "Unknown Supplier") false) ;;
  p3 <- ensure_field p2 "tanggal_faktur" (confident (today t) false) ;;
  ensure_items p3.

(** From [ocrData] of a successful call to the [processedOcrData] put into
    the result. The clock is read at one instant [t]: the code between the
    two reads never waits. *)
Definition normalize (s : site) (t : Z) (ocrData : value) : exn + value :=
  base <- select_base s t ocrData ;;
  wrapped <- ensure_output base ;;
  backfill t wrapped.

End Normalizer.

(** ** Status store *)

(** The record [updateStatus] writes. *)
Record status_record : Type := {
  rec_id : string;
  rec_status : string;
  rec_result : value;
  rec_progress : Z;
  rec_fileInfo : value;
  rec_updatedAt : string
}.

(** The record [queueBuffer] writes: the upload is held in memory. *)
Record queued_record : Type := {
  q_id : string;
  q_originalFilename : string;
  q_status : string;
  q_mimetype : string;
  q_queuedAt : string;
  q_buffer : list Byte.byte;
  q_dataSize : Z;
  q_results : value;
  q_error : value
}.

(** What [processingStatus] maps a job id to: the two writers of the map
    build objects of different shapes. *)
Inductive entry : Type :=
| Updated (r : status_record)
| Buffered (q : queued_record).

(** What [getFileStatus] hands out: a stored object, or the literal
    [{ id, status: 'not_found', progress: 0 }]. *)
Inductive status_reply : Type :=
| Stored (e : entry)
| Literal (id : string) (status : string) (progress : Z).


Definition reply_status (r : status_reply) : string :=
  match r with
  | Stored (Updated u) => rec_status u
  | Stored (Buffered q) => q_status q
  | Literal _ s _ => s
  end.


(** [getFileStatus(fileId)]: stored objects are truthy, so [||] only falls
    through for an id the map does not hold. *)
Definition getFileStatus (processingStatus : gmap string entry)
    (fileId : string) : status_reply :=
  match processingStatus !! fileId with
  | Some e => Stored e
  | None => Literal fileId "not_found" 0
  end.

(** [getAllStatuses()] *)
Definition getAllStatuses (processingStatus : gmap string entry) : list entry :=
  snd <$> map_to_list processingStatus.

(** ** Configuration and the world outside *)

Definition MAX_RETRIES : nat := 2.

Record config : Type := {
  OCR_API_ENDPOINT : string;
  FALLBACK_OCR_API_ENDPOINT : string;
  IS_DEV_MODE : bool;               (* NODE_ENV === 'development' *)
  mock_requested : bool             (* process.env.USE_MOCK_DATA === 'true' *)
}.

Definition USE_MOCK_DATA (c : config) : bool :=
  IS_DEV_MODE c && mock_requested c.

(** The answer to one [axios.post]: how many periods of the progress timer
    go by while the request is awaited, then a rejection with its message
    or the parsed body. *)
Record response : Type := {
  elapsed : nat;
  settled : string + json
}.

Record host : Type := {
  toISOString : Z -> string;
  (** endpoint and number of the request within the run *)
  http : string -> nat -> response;
  (** [path.join(__dirname, '../../uploads/temp')] and [path.join] *)
  tempDir : string;
  path_join : string -> string -> string;
  (** [fs.mkdirSync] or [fs.writeFileSync] throwing *)
  write_fault : option string;
  (** [formData.delete('file')] throwing. [FormData] is the class of the
      form-data package the module requires; that class has no [delete]
      method, so with the package as it is the call throws a TypeError:
      [Some] of its message. [None] stands for a form object that can drop
      a field. *)
  reset_fault : option string;
  (** timer periods that go by after the run has settled *)
  idle : nat
}.

(** ** One run *)

Inductive event : Type :=
| StoreSet (fileId : string) (e : entry)
| CreateReadStream (path : string)
| Post (endpoint : string)
| Notify (fileId filename : string) (error : option exn) (retryCount : nat)
| WriteFile (path : string)
| Unlink (path : string).

(** The state one run works on: the shared map, the run's locals
    ([progress], whether [progressInterval] is armed), the clock, the
    number of requests sent, and the log of effects, newest first. *)
Record state : Type := {
  processingStatus : gmap string entry;
  log : list event;
  clock : Z;
  progress : Z;
  progressInterval : bool;
  requests : nat
}.

Definition with_log (f : list event -> list event) (s : state) : state :=
  {| processingStatus := processingStatus s; log := f (log s); clock := clock s;
     progress := progress s; progressInterval := progressInterval s;
     requests := requests s |}.

Definition with_store (f : gmap string entry -> gmap string entry) (s : state)
  : state :=
  {| processingStatus := f (processingStatus s); log := log s; clock := clock s;
     progress := progress s; progressInterval := progressInterval s;
     requests := requests s |}.

Definition with_clock (t : Z) (s : state) : state :=
  {| processingStatus := processingStatus s; log := log s; clock := t;
     progress := progress s; progressInterval := progressInterval s;
     requests := requests s |}.

Definition with_progress (p : Z) (s : state) : state :=
  {| processingStatus := processingStatus s; log := log s; clock := clock s;
     progress := p; progressInterval := progressInterval s;
     requests := requests s |}.

Definition with_interval (b : bool) (s : state) : state :=
  {| processingStatus := processingStatus s; log := log s; clock := clock s;
     progress := progress s; progressInterval := b; requests := requests s |}.

Definition with_requests (n : nat) (s : state) : state :=
  {| processingStatus := processingStatus s; log := log s; clock := clock s;
     progress := progress s; progressInterval := progressInterval s;
     requests := n |}.

(** A run starts with [let progress = 0] and no timer. *)
Definition start (store : gmap string entry) (t : Z) : state :=
  {| processingStatus := store; log := []; clock := t; progress := 0;
     progressInterval := false; requests := 0 |}.

(** State and exceptions: a throw keeps the effects made so far. *)
Definition M (A : Type) : Type := state -> (exn + A) * state.

Definition ret {A : Type} (a : A) : M A := fun s => (inr a, s).

Definition throw {A : Type} (e : exn) : M A := fun s => (inl e, s).

Definition lift {A : Type} (r : exn + A) : M A := fun s => (r, s).

Definition bind {A B : Type} (m : M A) (k : A -> M B) : M B :=
  fun s =>
    match m s with
    | (inl e, s') => (inl e, s')
    | (inr a, s') => k a s'
    end.

Definition try_catch {A : Type} (m : M A) (handler : exn -> M A) : M A :=
  fun s =>
    match m s with
    | (inl e, s') => handler e s'
    | (inr a, s') => (inr a, s')
    end.

Notation "x <~ m ;; k" := (bind m (fun x => k))
  (at level 100, m at next level, right associativity).
Notation "m ;;; k" := (bind m (fun _ => k))
  (at level 100, right associativity).

Definition emit (e : event) : M unit :=
  fun s => (inr tt, with_log (cons e) s).

Definition now : M Z := fun s => (inr (clock s), s).

(** How a run ends for its caller: [cb(null, r)] or [resolve(r)], against
    [cb(err)] or [reject(err)]. *)
Inductive outcome : Type :=
| Resolved (result : value)
| Rejected (error : exn).

(** ** The mock result *)

Definition sure (v : value) : value := confident v true.
Definition unsure (v : value) : value := confident v false.

Definition createMockResult (processedAt : string) (fileId filename : string)
  : value :=
  VObj
    [("id", VStr fileId);
     ("filename", VStr filename);
     ("processedAt", VStr processedAt);
     ("ocrData",
      VObj
        [("nomor_referensi", sure (VStr "SSP318905"));
         ("nama_supplier", sure (VStr "PT SUKSES SEJATI PERKASA"));
         ("tgl_jatuh_tempo",
          VObj [("value", VStr "05-03-2025"); ("epoch", VNum 1741150800);
                ("is_confident", VBool true)]);
         ("tanggal_faktur",
          VObj [("value", VStr "26-02-2025"); ("epoch", VNum 1740546000);
                ("is_confident", VBool true)]);
         ("tipe_dokumen", sure (VStr "Faktur"));
         ("tipe_pembayaran", sure (VStr "Tunai"));
         ("salesman", sure (VStr "ZUN"));
         ("include_vat", sure (VBool true));
         ("output",
          VObj
            [("item_keys",
              VArr
                [VStr "kode_barang_invoice"; VStr "nama_barang_invoice";
                 VStr "qty"; VStr "satuan"; VStr "harga_satuan";
                 VStr "harga_bruto"; VStr "diskon_persen"; VStr "diskon_rp";
                 VStr "jumlah_netto"] []);
             ("items",
              VArr
                [VObj
                   [("kode_barang_invoice", sure (VStr "12540202"));
                    ("nama_barang_invoice",
                     sure (VStr "MILO ACTIV - GO UHT Cabk 110ml / 36"));
                    ("qty", sure (VNum 5));
                    ("satuan", sure (VStr "CTN"));
                    ("harga_satuan", sure (VNum 95570));
                    ("harga_bruto", sure (VNum 477850));
                    ("diskon_persen", sure (VNum 3));
                    ("diskon_rp", sure (VNum 14336));
                    ("jumlah_netto", sure (VNum 463515))];
                 VObj
                   [("kode_barang_invoice", sure (VStr "12540203"));
                    ("nama_barang_invoice",
                     sure (VStr "MILO ACTIV - GO UHT Cabk 180ml / 36"));
                    ("qty", sure (VNum 5));
                    ("satuan", sure (VStr "CTN"));
                    ("harga_satuan", sure (VNum 163490));
                    ("harga_bruto", sure (VNum 817450));
                    ("diskon_persen", sure (VNum 3));
                    ("diskon_rp", unsure (VNum 24524));
                    ("jumlah_netto", unsure (VNum 792926))]] []);
             ("total_items", unsure (VNum 0))]);
         ("debug",
          VArr
            [VObj
               [("item", VNum 1);
                ("issue",
                 VStr "Diskon Rp pada item 2 (24.524) tidak sesuai dengan perhitungan (3% dari 817.450 adalah 24.523,5).")]]
            []);
         ("debug_summary",
          unsure
            (VStr "Ada beberapa ketidaksesuaian dalam perhitungan diskon dan jumlah netto pada beberapa item."))])].

Section Run.

Variable h : host.
Variable c : config.

(** ** Store writes and the progress timer *)

Definition updateStatus (fileId status : string) (result : value)
    (progress : Z) (fileInfo : value) : M unit :=
  fun s =>
    let r := Updated {| rec_id := fileId; rec_status := status;
                        rec_result := result; rec_progress := progress;
                        rec_fileInfo := fileInfo;
                        rec_updatedAt := toISOString h (clock s) |} in
    (inr tt, with_log (cons (StoreSet fileId r))
               (with_store (insert fileId r) s)).

Definition setInterval : M unit := fun s => (inr tt, with_interval true s).

Definition clearInterval : M unit := fun s => (inr tt, with_interval false s).

(** The callback given to [setInterval]; [fileInfo] is what the caller's
    copy passes on ([fileInfo] in the worker, nothing in the trigger). *)
Definition on_interval (fileId : string) (fileInfo : value) : M unit :=
  fun s =>
    let s1 := with_progress (progress s + 5) s in
    if (progress s1 <=? 90)%Z
    then updateStatus fileId "processing" VNull (progress s1) fileInfo s1
    else clearInterval s1.

(** One period of the timer (1000 ms) goes by. *)
Definition period (fileId : string) (fileInfo : value) (s : state) : state :=
  let s1 := with_clock (clock s + 1000) s in
  if progressInterval s1 then snd (on_interval fileId fileInfo s1) else s1.

Fixpoint wait (fileId : string) (fileInfo : value) (periods : nat) (s : state)
  : state :=
  match periods with
  | O => s
  | S n => wait fileId fileInfo n (period fileId fileInfo s)
  end.

(** ** OCR client *)

(** [await axios.post(endpoint, formData, ...)]: the timer runs while the
    request is pending. *)
Definition axios_post (fileId : string) (fileInfo : value) (endpoint : string)
  : M value :=
  fun s =>
    let r := http h endpoint (requests s) in
    let s1 :=
      with_requests (S (requests s)) (with_log (cons (Post endpoint)) s) in
    let s2 := wait fileId fileInfo (elapsed r) s1 in
    match settled r with
    | inl msg => (inl (Error msg), s2)
    | inr body => (inr (of_json body), s2)
    end.

(** "Reset the file stream": [formData.delete('file')], then a fresh
    [fs.createReadStream] appended. *)
Definition reset_stream (path : string) : M unit :=
  match reset_fault h with
  | Some msg => throw (TypeError msg)
  | None => emit (CreateReadStream path)
  end.

Definition sendFailureNotification (fileId filename : string)
    (error : option exn) (retryCount : nat) : M unit :=
  emit (Notify fileId filename error retryCount).

(** [fs.unlinkSync] inside its own [try]: a failure is logged and dropped. *)
Definition unlink (path : string) : M unit := emit (Unlink path).

(** ** Retry and fallback *)

(** [while (retryCount <= MAX_RETRIES && !successful)]. [budget] is
    [MAX_RETRIES + 1 - retryCount], the number of turns the loop test still
    allows; at [0] the test fails. The result is [ocrData] when [successful],
    and [lastError]. *)
Fixpoint primary_attempts (fileId : string) (fileInfo : value) (path : string)
    (budget retryCount : nat) (lastError : option exn)
  : M (option value * option exn) :=
  match budget with
  | O => ret (None, lastError)
  | S budget' =>
      r <~ try_catch
             ((if (0 <? retryCount)%nat then reset_stream path else ret tt) ;;;
              ocrData <~ axios_post fileId fileInfo (OCR_API_ENDPOINT c) ;;
              ret (inr ocrData))
             (fun error => ret (inl error)) ;;
      match r with
      | inr ocrData => ret (Some ocrData, lastError)
      | inl error =>
          primary_attempts fileId fileInfo path budget' (S retryCount)
            (Some error)
      end
  end.

(** The end of the road: mock data in development, the error otherwise.
    [cleanup] is the removal of the temporary file in the trigger's copy. *)
Definition last_resort (fileId filename : string) (fileInfo : value)
    (cleanup : M unit) (lastError : option exn) : M outcome :=
  if IS_DEV_MODE c then
    t <~ now ;;
    let mockResult := createMockResult (toISOString h t) fileId filename in
    clearInterval ;;;
    cleanup ;;;
    updateStatus fileId "completed" mockResult 100 fileInfo ;;;
    ret (Resolved mockResult)
  else
    clearInterval ;;;
    cleanup ;;;
    match lastError with
    | Some e =>
        updateStatus fileId "error" (VObj [("message", VStr (message e))]) 0
          VNull ;;;
        ret (Rejected e)
    | None =>
        (* [lastError.message] on the initial [null] *)
        throw (TypeError "Cannot read properties of null (reading 'message')")
    end.

(** From the first request to [ocrData], or to the outcome when every
    endpoint failed. *)
Definition call_ocr (fileId filename : string) (fileInfo : value)
    (path : string) (cleanup : M unit) : M (outcome + value) :=
  r <~ primary_attempts fileId fileInfo path (S MAX_RETRIES) 0 None ;;
  match r with
  | (Some ocrData, _) => ret (inr ocrData)
  | (None, lastError) =>
      sendFailureNotification fileId filename lastError (MAX_RETRIES + 1) ;;;
      if negb (String.eqb (OCR_API_ENDPOINT c) (FALLBACK_OCR_API_ENDPOINT c))
      then
        f <~ try_catch
               (reset_stream path ;;;
                ocrData <~ axios_post fileId fileInfo
                             (FALLBACK_OCR_API_ENDPOINT c) ;;
                ret (inr ocrData))
               (fun fallbackError => ret (inl fallbackError)) ;;
        match f with
        | inr ocrData => ret (inr ocrData)
        | inl fallbackError =>
            sendFailureNotification fileId filename (Some fallbackError)
              (MAX_RETRIES + 2) ;;;
            o <~ last_resort fileId filename fileInfo cleanup
                   (Some fallbackError) ;;
            ret (inl o)
        end
      else
        o <~ last_resort fileId filename fileInfo cleanup lastError ;;
        ret (inl o)
  end.

(** ** The worker of [processingQueue] *)

(** "Log structured data for debugging": the object the worker prints
    after normalizing reads three fields of [processedOcrData.output], its
    [items] and the [length] of those. Only whether a read throws is kept;
    the text printed is not. The copy in [processQueuedFile] has no such log. *)
Definition debug_log (processedOcrData : value) : exn + unit :=
  output <- get processedOcrData "output" ;;
  hasNomorReferensi <- get output "nomor_referensi" ;;
  hasNamaSupplier <- get output "nama_supplier" ;;
  hasTanggalFaktur <- get output "tanggal_faktur" ;;
  hasItems <- get output "items" ;;
  items <- get output "items" ;;
  itemCount <- get items "length" ;;
  inr tt.

(** The successful case of the worker: normalize, log, stop the timer,
    publish. *)
Definition finish_worker (fileId filePath originalname : string)
    (fileInfo ocrData : value) : M outcome :=
  t <~ now ;;
  processedOcrData <~ lift (normalize (toISOString h) Worker t ocrData) ;;
  lift (debug_log processedOcrData) ;;;
  clearInterval ;;;
  let result :=
    VObj [("id", VStr fileId); ("filename", VStr originalname);
          ("filePath", VStr filePath);
          ("processedAt", VStr (toISOString h t));
          ("ocrData", processedOcrData)] in
  updateStatus fileId "completed" result 100 fileInfo ;;;
  ret (Resolved result).

Definition worker_body (fileId filePath originalname : string) : M outcome :=
  let fileInfo :=
    VObj [("id", VStr fileId); ("name", VStr originalname);
          ("path", VStr filePath)] in
  updateStatus fileId "processing" VNull 0 fileInfo ;;;
  setInterval ;;;
  try_catch
    (if USE_MOCK_DATA c then
       t <~ now ;;
       let mockResult :=
         createMockResult (toISOString h t) fileId originalname in
       clearInterval ;;;
       updateStatus fileId "completed" mockResult 100 fileInfo ;;;
       unlink filePath ;;;
       ret (Resolved mockResult)
     else
       emit (CreateReadStream filePath) ;;;
       r <~ call_ocr fileId originalname fileInfo filePath (ret tt) ;;
       match r with
       | inl o => ret o
       | inr ocrData =>
           finish_worker fileId filePath originalname fileInfo ocrData
       end)
    (fun error =>
       updateStatus fileId "error" (VObj [("message", VStr (message error))]) 0
         VNull ;;;
       ret (Rejected error)).

(** One task [{ fileId, filePath, originalname }] through the worker, from
    the store as it is at time [t], and the timer periods that follow. The
    outer [catch] of the source is never entered ([worker_body] catches
    everything itself); its text reads [fileId], which is out of scope
    there. *)
Definition processingQueue (fileId filePath originalname : string)
    (store : gmap string entry) (t : Z) : outcome * state :=
  let fileInfo :=
    VObj [("id", VStr fileId); ("name", VStr originalname);
          ("path", VStr filePath)] in
  let (r, s) := worker_body fileId filePath originalname (start store t) in
  (match r with
   | inr o => o
   | inl _ => Rejected (ReferenceError "fileId is not defined")
   end,
   wait fileId fileInfo (idle h) s).

(** [queueFile]: the id comes from [uuidv4()]; the push hands the task to
    [processingQueue] later. *)
Definition queueFile (fileId filePath originalname : string)
    (store : gmap string entry) (t : Z) : gmap string entry :=
  let fileInfo :=
    VObj [("id", VStr fileId); ("name", VStr originalname);
          ("path", VStr filePath)] in
  processingStatus
    (snd (updateStatus fileId "queued" VNull 0 fileInfo (start store t))).

(** ** Buffered jobs *)

(** [queueBuffer]: the id comes from [uuidv4()]. *)
Definition queueBuffer (processId : string) (buffer : list Byte.byte)
    (originalFilename mimetype : string) (store : gmap string entry) (t : Z)
  : gmap string entry :=
  <[processId :=
      Buffered {| q_id := processId; q_originalFilename := originalFilename;
                  q_status := "queued"; q_mimetype := mimetype;
                  q_queuedAt := toISOString h t; q_buffer := buffer;
                  q_dataSize := Z.of_nat (length buffer);
                  q_results := VNull; q_error := VNull |}]> store.

(** [fs.mkdirSync] if needed, then [fs.writeFileSync(tempFilePath, buffer)] *)
Definition write_temp (tempFilePath : string) : M unit :=
  match write_fault h with
  | Some msg => throw (Error msg)
  | None => emit (WriteFile tempFilePath)
  end.

Definition finish_trigger (fileId originalFilename tempFilePath : string)
    (ocrData : value) : M outcome :=
  t <~ now ;;
  processedOcrData <~ lift (normalize (toISOString h) Trigger t ocrData) ;;
  clearInterval ;;;
  unlink tempFilePath ;;;
  let result :=
    VObj [("id", VStr fileId); ("filename", VStr originalFilename);
          ("processedAt", VStr (toISOString h t));
          ("ocrData", processedOcrData)] in
  updateStatus fileId "completed" result 100 VNull ;;;
  ret (Resolved result).

(** What the trigger does once the buffer is in hand. *)
Definition trigger_pipeline (fileId : string) (queuedItem : queued_record)
  : M outcome :=
  updateStatus fileId "processing" VNull 0
    (VObj [("id", VStr fileId);
           ("name", VStr (q_originalFilename queuedItem));
           ("mimetype", VStr (q_mimetype queuedItem))]) ;;;
  setInterval ;;;
  let tempFilePath := path_join h (tempDir h) (q_originalFilename queuedItem) in
  write_temp tempFilePath ;;;
  emit (CreateReadStream tempFilePath) ;;;
  r <~ call_ocr fileId (q_originalFilename queuedItem) VNull tempFilePath
         (unlink tempFilePath) ;;
  match r with
  | inl o => ret o
  | inr ocrData =>
      finish_trigger fileId (q_originalFilename queuedItem) tempFilePath ocrData
  end.

Definition trigger_body (fileId : string) : M outcome :=
  try_catch
    (queuedItem <~ (fun s => (inr (processingStatus s !! fileId), s)) ;;
     match queuedItem with
     | None => throw (Error ("No queued file found with ID: " ++ fileId))
     | Some (Updated _) =>
         (* [queuedItem.buffer] is [undefined] *)
         throw (Error ("File buffer not found for ID: " ++ fileId))
     | Some (Buffered q) => trigger_pipeline fileId q
     end)
    (fun error =>
       updateStatus fileId "error" (VObj [("message", VStr (message error))]) 0
         VNull ;;;
       ret (Rejected error)).

(** [processQueuedFile(fileId)] from the store as it is at time [t]: how
    the promise settles, and the state once the timer has had [idle h]
    more periods. *)
Definition processQueuedFile (fileId : string) (store : gmap string entry)
    (t : Z) : outcome * state :=
  let (r, s) := trigger_body fileId (start store t) in
  (match r with
   | inr o => o
   | inl e => Rejected e
   end,
   wait fileId VNull (idle h) s).

End Run.

(** * Properties of the service *)

(** ** Shapes of normalized data *)

(** [o.k] where [o] is known not to be [null] or [undefined]. *)
Definition field (o : value) (k : string) : value :=
  match o with
  | VArr _ ps | VObj ps => default VUndef (own ps k)
  | _ => VUndef
  end.

Definition has (o : value) (k : string) : bool := truthy (field o k).

(** Something a property can be stored on. *)
Definition object_like (v : value) : bool :=
  match v with
  | VArr _ _ | VObj _ => true
  | _ => false
  end.

(** A base the later passes work on: an object with a truthy [output]. *)
Definition based (p : value) : Prop :=
  exists ps o, p = VObj ps /\ own ps "output" = Some o /\ truthy o = true.

(** What [if (!output.k) output.k = x] leaves under [output]. *)
Definition fill (o : value) (k : string) (x : value) : value :=
  if has o k then o
  else match o with
       | VObj ps => VObj (upd ps k x)
       | VArr es ps => VArr es (upd ps k x)
       | _ => o
       end.

(** What [if (!Array.isArray(output.items)) output.items = []] leaves. *)
Definition fill_items (o : value) : value :=
  if isArray (field o "items") then o
  else match o with
       | VObj ps => VObj (upd ps "items" (VArr [] []))
       | VArr es ps => VArr es (upd ps "items" (VArr [] []))
       | _ => o
       end.

(** [output] after the whole backfill pass at time [t]. *)
Definition filled (toISOString : Z -> string) (t : Z) (o : value) : value :=
  fill_items
    (fill
       (fill
          (fill o "nomor_referensi" (confident (inv_now t) true))
          "nama_supplier" (confident (VStr "Unknown Supplier") false))
       "tanggal_faktur" (confident (today toISOString t) false)).



(** What the code establishes on an [output] that can hold properties. *)
Definition essentials (o : value) : bool :=
  has o "nomor_referensi" && has o "nama_supplier" && has o "tanggal_faktur"
  && isArray (field o "items").

(** ** Sample inputs *)

Definition sample_iso (t : Z) : string := "2025-02-26T08:15:30.000Z".

Definition sample_invoice : json :=
  JObj [("output",
         JObj [("nama_supplier",
                JObj [("value", JStr "PT SUKSES SEJATI PERKASA");
                      ("is_confident", JBool true)])])].

(** ** Reasoning about runs *)

(** From a state where [P] holds, [m] ends with result and state related
    by [Q], whether it returns or throws. *)
Definition hoare {A : Type} (P : state -> Prop) (m : M A)
    (Q : exn + A -> state -> Prop) : Prop :=
  forall s, P s -> Q (fst (m s)) (snd (m s)).

Definition preserves {A : Type} (I : state -> Prop) (m : M A) : Prop :=
  hoare I m (fun _ => I).

(** [null] or an object literal. *)
Definition null_or_object (v : value) : Prop :=
  v = VNull \/ exists ps, v = VObj ps.

(** The last write of a run: [completed] at 100 with a result object, or
    [error] at 0 with the error's message. *)
Definition closing (status : string) (result : value) (p : Z) : Prop :=
  (status = "completed" /\ p = 100 /\ exists ps, result = VObj ps) \/
  (status = "error" /\ p = 0 /\ exists msg, result = VObj [("message", VStr msg)]).

(** A property of the run state that every kind of effect of a run of job
    [fileId] keeps: logging an event allowed by [ok], sending a request,
    arming or clearing the timer, time going by, a beat of the progress
    timer and the closing write. *)
Record stable (h : host) (fileId : string) (ok : event -> Prop)
    (I : state -> Prop) : Prop := {
  st_emit : forall s e,
    ok e -> (forall u, e <> Post u) -> (forall i x, e <> StoreSet i x) ->
    I s -> I (with_log (cons e) s);
  st_post : forall s u,
    ok (Post u) -> I s ->
    I (with_requests (S (requests s)) (with_log (cons (Post u)) s));
  st_interval : forall s b, I s -> I (with_interval b s);
  st_clock : forall s t, I s -> I (with_clock t s);
  st_bump : forall s,
    I s -> 90 < progress s + 5 -> I (with_progress (progress s + 5) s);
  st_beat : forall s fileInfo,
    I s -> progress s + 5 <= 90 -> null_or_object fileInfo ->
    I (snd (updateStatus h fileId "processing" VNull (progress s + 5) fileInfo
              (with_progress (progress s + 5) s)));
  st_final : forall s status result p fileInfo,
    I s -> closing status result p -> null_or_object fileInfo ->
    I (snd (updateStatus h fileId status result p fileInfo s))
}.

(** ** Jobs and what their runs leave behind *)

(** The two ways a job is run. *)
Inductive job : Type :=
| FileJob (fileId filePath originalname : string)
| BufferJob (fileId : string).

Definition job_id (j : job) : string :=
  match j with
  | FileJob fileId _ _ => fileId
  | BufferJob fileId => fileId
  end.

Definition run (h : host) (c : config) (j : job) (store : gmap string entry)
    (t : Z) : outcome * state :=
  match j with
  | FileJob fileId filePath originalname =>
      processingQueue h c fileId filePath originalname store t
  | BufferJob fileId => processQueuedFile h c fileId store t
  end.

(** The store after the writes of a log (newest first). *)
Fixpoint replay (store : gmap string entry) (l : list event) : gmap string entry :=
  match l with
  | [] => store
  | StoreSet i e :: l' => <[i := e]> (replay store l')
  | _ :: l' => replay store l'
  end.

(** The records [updateStatus] wrote, newest first. *)
Fixpoint written (l : list event) : list status_record :=
  match l with
  | [] => []
  | StoreSet _ (Updated r) :: l' => r :: written l'
  | _ :: l' => written l'
  end.

(** The same in the order they were written. *)
Definition writes (s : state) : list status_record := rev (written (log s)).

Definition ok_record (fileId : string) (r : status_record) : Prop :=
  rec_id r = fileId /\ null_or_object (rec_result r) /\
  null_or_object (rec_fileInfo r) /\
  ((rec_status r = "processing" /\ 0 <= rec_progress r <= 90) \/
   (rec_status r = "completed" /\ rec_progress r = 100) \/
   (rec_status r = "error" /\ rec_progress r = 0)).

Definition ok_event (fileId : string) (e : event) : Prop :=
  match e with
  | StoreSet i (Updated r) => i = fileId /\ ok_record fileId r
  | StoreSet _ (Buffered _) => False
  | _ => True
  end.

(** Going back in time from a bound [b], the progress of the records in
    state [processing] never goes up. *)
Fixpoint ascending (b : Z) (l : list status_record) : Prop :=
  match l with
  | [] => True
  | r :: l' =>
      if String.eqb (rec_status r) "processing"
      then rec_progress r <= b /\ ascending (rec_progress r) l'
      else ascending b l'
  end.

(** The discipline a run of job [fileId] from store [store] keeps. *)
Definition disciplined (fileId : string) (store : gmap string entry)
    (s : state) : Prop :=
  processingStatus s = replay store (log s) /\
  0 <= progress s /\
  Forall (ok_event fileId) (log s) /\
  ascending (progress s) (written (log s)).

Definition recorded (fileId : string) (s : state) : Prop :=
  exists r, processingStatus s !! fileId = Some (Updated r).

(** Progress over the writes of one run, oldest first. *)
Definition progress_law (ws : list status_record) : Prop :=
  (forall pre r1 mid r2 post,
     ws = (pre ++ r1 :: mid ++ r2 :: post)%list ->
     rec_status r1 = "processing" -> rec_status r2 = "processing" ->
     rec_progress r1 <= rec_progress r2) /\
  (forall r, In r ws -> rec_status r = "processing" ->
             0 <= rec_progress r < 100) /\
  (forall r, In r ws -> rec_progress r = 100 -> rec_status r = "completed") /\
  (forall r, In r ws -> rec_status r = "error" -> rec_progress r = 0).

(** ** Stores the service can be in *)

Definition entry_ok (id : string) (e : entry) : Prop :=
  match e with
  | Updated r =>
      rec_id r = id /\
      In (rec_status r) ["queued"; "processing"; "completed"; "error"] /\
      0 <= rec_progress r <= 100 /\
      null_or_object (rec_result r) /\ null_or_object (rec_fileInfo r)
  | Buffered q =>
      q_id q = id /\ q_status q = "queued" /\ q_results q = VNull /\
      q_error q = VNull
  end.

Definition store_ok (store : gmap string entry) : Prop :=
  forall id e, store !! id = Some e -> entry_ok id e.

(** Stores reached from the empty map through the exported operations and
    the worker, one run after the other. *)
Inductive reachable : gmap string entry -> Prop :=
| reach_start : reachable ∅
| reach_queueFile h fileId filePath originalname store t :
    reachable store ->
    reachable (queueFile h fileId filePath originalname store t)
| reach_queueBuffer h processId buffer originalFilename mimetype store t :
    reachable store ->
    reachable (queueBuffer h processId buffer originalFilename mimetype store t)
| reach_run h c j store t :
    reachable store ->
    reachable (processingStatus (snd (run h c j store t))).

(** Calling [processQueuedFile] again and again for one id. *)
Fixpoint retrigger (fileId : string) (calls : list (host * config * Z))
    (store : gmap string entry) : list outcome :=
  match calls with
  | [] => []
  | (h, c, t) :: rest =>
      let r := processQueuedFile h c fileId store t in
      fst r :: retrigger fileId rest (processingStatus (snd r))
  end.

(** A host whose OCR endpoints all time out. *)
Definition sample_host : host :=
  {| toISOString := sample_iso;
     http := fun _ _ =>
       {| elapsed := 4; settled := inl "timeout of 600000ms exceeded" |};
     tempDir := "/app/uploads/temp";
     path_join := fun a b => a ++ "/" ++ b;
     write_fault := None;
     reset_fault := None;
     idle := 2 |}.

(** A host whose endpoints answer with the JSON body [body] after one
    second, looked at [idle_periods] seconds after the run. *)
Definition answering_host (body : json) (idle_periods : nat) : host :=
  {| toISOString := sample_iso;
     http := fun _ _ => {| elapsed := 1; settled := inr body |};
     tempDir := "/app/uploads/temp";
     path_join := fun a b => a ++ "/" ++ b;
     write_fault := None;
     reset_fault := None;
     idle := idle_periods |}.

Definition sample_config : config :=
  {| OCR_API_ENDPOINT := "http://amien-server:5678/webhook/04f85cfb-8f2a-4a22-9e1a-d4bbfa3de5cc";
     FALLBACK_OCR_API_ENDPOINT := "http://localhost:1880/testingupload";
     IS_DEV_MODE := false;
     mock_requested := false |}.

(** The same host with a form-data object that has no [delete]. *)
Definition sample_host_without_delete : host :=
  {| toISOString := sample_iso;
     http := http sample_host;
     tempDir := tempDir sample_host;
     path_join := path_join sample_host;
     write_fault := None;
     reset_fault := Some "formData.delete is not a function";
     idle := 2 |}.

(** A store holding one buffered upload. *)
Definition sample_store : gmap string entry :=
  queueBuffer sample_host "job-1" [] "faktur.pdf" "application/pdf" ∅ 1740557730000.

(** The record the [catch] of [processQueuedFile] writes. *)
Definition error_record (h : host) (fileId msg : string) (t : Z) : entry :=
  Updated {| rec_id := fileId; rec_status := "error";
             rec_result := VObj [("message", VStr msg)]; rec_progress := 0;
             rec_fileInfo := VNull; rec_updatedAt := toISOString h t |}.

(** The message of the not-found error for [fileId] in [store]. *)
Definition not_found_message (store : gmap string entry) (fileId : string)
  : string :=
  match store !! fileId with
  | None => "No queued file found with ID: " ++ fileId
  | Some _ => "File buffer not found for ID: " ++ fileId
  end.

(** The oldest entry of the log is [e]. *)
Definition began_with (e : event) (s : state) : Prop :=
  exists l, log s = (l ++ [e])%list.

(** ** Attempts against the OCR endpoints *)

(** Opening the file and posting it. *)
Definition is_attempt (e : event) : bool :=
  match e with
  | CreateReadStream _ | Post _ => true
  | _ => false
  end.

(** The reads and requests of a run, oldest first. *)
Definition attempts (s : state) : list event :=
  rev (List.filter is_attempt (log s)).

(** The endpoints posted to, newest first. *)
Fixpoint posted (l : list event) : list string :=
  match l with
  | [] => []
  | Post u :: l' => u :: posted l'
  | _ :: l' => posted l'
  end.

(** The same, oldest first. *)
Definition posts (s : state) : list string := rev (posted (log s)).

(** Every request to [endpoint] is rejected. *)
Definition always_fails (h : host) (endpoint : string) : Prop :=
  forall n, exists msg, settled (http h endpoint n) = inl msg.

(** The file a run posts, when it gets as far as calling the OCR service:
    the worker skips the call when mock data is asked for, the trigger
    needs a buffer and a temporary file written from it. *)
Definition source_path (h : host) (c : config) (j : job)
    (store : gmap string entry) : option string :=
  match j with
  | FileJob _ filePath _ =>
      if USE_MOCK_DATA c then None else Some filePath
  | BufferJob fileId =>
      match store !! fileId, write_fault h with
      | Some (Buffered q), None =>
          Some (path_join h (tempDir h) (q_originalFilename q))
      | _, _ => None
      end
  end.

(** The reads and requests logged so far, newest first, are [X]. *)
Definition attempted (X : list event) (s : state) : Prop :=
  List.filter is_attempt (log s) = X.

(** What the retry loop adds to the log, newest first. *)
Fixpoint loop_trace (c : config) (path : string) (budget retryCount : nat)
  : list event :=
  match budget with
  | O => []
  | S budget' =>
      (loop_trace c path budget' (S retryCount) ++
       Post (OCR_API_ENDPOINT c) ::
       (if (0 <? retryCount)%nat then [CreateReadStream path] else []))%list
  end.

(** What the fallback adds, newest first. *)
Definition fallback_trace (c : config) (path : string) : list event :=
  if String.eqb (OCR_API_ENDPOINT c) (FALLBACK_OCR_API_ENDPOINT c) then []
  else [Post (FALLBACK_OCR_API_ENDPOINT c); CreateReadStream path].

Definition posts_within (c : config) (s : state) : Prop :=
  forall u, In (Post u) (log s) ->
            u = OCR_API_ENDPOINT c \/ u = FALLBACK_OCR_API_ENDPOINT c.

(** Events that are neither a read of the file nor a request. *)
Definition quiet (e : event) : Prop := is_attempt e = false.

(** Requests go to one of the two configured endpoints. *)
Definition endpoint_ok (c : config) (e : event) : Prop :=
  match e with
  | Post u => u = OCR_API_ENDPOINT c \/ u = FALLBACK_OCR_API_ENDPOINT c
  | _ => True
  end.

(** ** Elements of an array payload *)

(** An element that [find] passes over: reading [output] works and gives
    something falsy. *)
Definition no_output (x : value) : Prop :=
  exists o, get x "output" = inr o /\ truthy o = false.

(** An element in which [findPropertyInArray] finds no [k]: neither on the
    element nor under its [output]. *)
Definition misses (k : string) (x : value) : Prop :=
  exists p o,
    get x k = inr p /\ truthy p = false /\
    get x "output" = inr o /\ (truthy o = true -> has o k = false).

(** The fields the backfill pass looks at. *)
Definition essential_names : list string :=
  ["nomor_referensi"; "nama_supplier"; "tanggal_faktur"].

(** ** Outcomes and records *)

(** The copy of the normalizer a job goes through. *)
Definition site_of (j : job) : site :=
  match j with
  | FileJob _ _ _ => Worker
  | BufferJob _ => Trigger
  end.

(** The record of a finished job. *)
Definition completed_record (fileId : string) (result fileInfo : value)
    (updatedAt : string) : entry :=
  Updated {| rec_id := fileId; rec_status := "completed"; rec_result := result;
             rec_progress := 100; rec_fileInfo := fileInfo;
             rec_updatedAt := updatedAt |}.

(** The record a beat of the progress timer writes. *)
Definition beat_record (fileId : string) (p : Z) (fileInfo : value)
    (updatedAt : string) : entry :=
  Updated {| rec_id := fileId; rec_status := "processing"; rec_result := VNull;
             rec_progress := p; rec_fileInfo := fileInfo;
             rec_updatedAt := updatedAt |}.

(** The store and the timer agree with a resolved run: the timer is off
    and the record is [completed] with the result handed out. *)
Definition completed_as (fileId : string) (result : value) (s : state) : Prop :=
  progressInterval s = false /\
  exists fileInfo updatedAt,
    processingStatus s !! fileId
    = Some (completed_record fileId result fileInfo updatedAt).

(** The run wrote the error it rejects with. *)
Definition failed_as (fileId : string) (e : exn) (s : state) : Prop :=
  exists r, In (StoreSet fileId (Updated r)) (log s) /\
            rec_status r = "error" /\ rec_progress r = 0 /\
            rec_result r = VObj [("message", VStr (message e))].

Definition accounted (fileId : string) (o : outcome) (s : state) : Prop :=
  match o with
  | Resolved v => completed_as fileId v s
  | Rejected e => failed_as fileId e s
  end.

(** A piece of a run either throws or leaves its outcome accounted for. *)
Definition accounted_or_thrown (fileId : string) (r : exn + outcome)
    (s : state) : Prop :=
  match r with
  | inr o => accounted fileId o s
  | inl _ => True
  end.

(** The same for the calls to the OCR service, which may also come back
    with [ocrData] and no outcome yet. *)
Definition accounted_if_settled (fileId : string)
    (r : exn + (outcome + value)) (s : state) : Prop :=
  match r with
  | inr (inl o) => accounted fileId o s
  | _ => True
  end.

(** ** The orchestration seen from outside *)

(** What a run does outside the status store: writing, opening and
    removing files, posting to an endpoint, notifying of a failure. *)
Definition is_call (e : event) : bool :=
  match e with
  | StoreSet _ _ => false
  | _ => true
  end.

(** The calls of a run, oldest first. *)
Definition calls (s : state) : list event := rev (List.filter is_call (log s)).

(** So far the run has made the calls [X] (newest first) and sent [n]
    requests. *)
Definition called (X : list event) (n : nat) (s : state) : Prop :=
  List.filter is_call (log s) = X /\ requests s = n.

(** The name a job's file goes by. *)
Definition job_filename (j : job) (store : gmap string entry) : string :=
  match j with
  | FileJob _ _ originalname => originalname
  | BufferJob fileId =>
      match store !! fileId with
      | Some (Buffered q) => q_originalFilename q
      | _ => ""
      end
  end.

(** The part of both runs from the first read of the file on: the calls to
    the OCR service, then the run's own way of finishing, inside the [try]
    whose [catch] records the error. *)
Definition pipeline (h : host) (c : config) (fileId filename : string)
    (fileInfo : value) (path : string) (cleanup : M unit)
    (finish : value -> M outcome) : M outcome :=
  try_catch
    (emit (CreateReadStream path) ;;;
     r <~ call_ocr h c fileId filename fileInfo path cleanup ;;
     match r with
     | inl o => ret o
     | inr ocrData => finish ocrData
     end)
    (fun error =>
       updateStatus h fileId "error" (VObj [("message", VStr (message error))]) 0
         VNull ;;;
       ret (Rejected error)).

(** The temporary file of a buffered job: written before the first read,
    removed by the cleanup. A queued file is read where it lies. *)
Definition staged (j : job) (path : string) : list event :=
  match j with
  | FileJob _ _ _ => []
  | BufferJob _ => [WriteFile path]
  end.

Definition cleared (j : job) (path : string) : list event :=
  match j with
  | FileJob _ _ _ => []
  | BufferJob _ => [Unlink path]
  end.

(** A cleanup step that cannot fail, makes the calls [U] and leaves the
    timer alone. *)
Definition tidy (U : list event) (cleanup : M unit) : Prop :=
  forall s, fst (cleanup s) = inr tt /\
            List.filter is_call (log (snd (cleanup s)))
            = (U ++ List.filter is_call (log s))%list /\
            requests (snd (cleanup s)) = requests s /\
            progressInterval (snd (cleanup s)) = progressInterval s.

(** The record of a failed job. *)
Definition failure_record (fileId msg updatedAt : string) : entry :=
  Updated {| rec_id := fileId; rec_status := "error";
             rec_result := VObj [("message", VStr msg)]; rec_progress := 0;
             rec_fileInfo := VNull; rec_updatedAt := updatedAt |}.

(** The job is left in state [error] for good: timer off, record written. *)
Definition failed_for_good (fileId : string) (e : exn) (s : state) : Prop :=
  progressInterval s = false /\
  exists updatedAt,
    processingStatus s !! fileId
    = Some (failure_record fileId (message e) updatedAt).

(** Events that are no call. *)
Definition silent (e : event) : Prop := is_call e = false.

(** What a run makes of [ocrData] at time [t]: the normalizer of its
    site and, in the worker, the debug log after it. *)
Definition processed (iso : Z -> string) (st : site) (t : Z) (ocrData : value)
  : exn + value :=
  processedOcrData <- normalize iso st t ocrData ;;
  match st with
  | Worker => logged <- debug_log processedOcrData ;; inr processedOcrData
  | Trigger => inr processedOcrData
  end.

(** How a run's own finish treats [ocrData]: what the run makes of it at
    the time of the finish decides between a throw, before any call is
    made, and a resolved, recorded result around the normalized data,
    after the calls [U]. *)
Definition finishes (iso : Z -> string) (st : site) (fileId : string)
    (U : list event) (finish : value -> M outcome) : Prop :=
  forall ocrData X n,
    hoare (called X n) (finish ocrData)
      (fun r s =>
         exists t',
           match processed iso st t' ocrData with
           | inl e => r = inl e /\ called X n s
           | inr p =>
               exists res, r = inr (Resolved res) /\ field res "ocrData" = p /\
                           completed_as fileId res s /\
                           called (U ++ X)%list n s
           end).

(** ** Listing and looking up *)

(** The [id] property of a stored object. *)
Definition entry_id (e : entry) : string :=
  match e with
  | Updated r => rec_id r
  | Buffered q => q_id q
  end.

(** ** Property lists *)

Lemma own_upd_eq ps k x : own (upd ps k x) k = Some x.
Proof.
  induction ps as [|[k' v] ps IH]; simpl.
  - now rewrite String.eqb_refl.
  - destruct (String.eqb k k') eqn:E; simpl; rewrite E; auto.
Qed.

Lemma own_upd_ne ps k k' x : k <> k' -> own (upd ps k x) k' = own ps k'.
Proof.
  intros Hne. induction ps as [|[k0 v] ps IH]; simpl.
  - destruct (String.eqb k' k) eqn:E; auto.
    apply String.eqb_eq in E. congruence.
  - destruct (String.eqb k k0) eqn:E; simpl.
    + apply String.eqb_eq in E. subst k0.
      destruct (String.eqb k' k) eqn:E'; auto.
      apply String.eqb_eq in E'. congruence.
    + now rewrite IH.
Qed.

Lemma upd_same ps k x : own ps k = Some x -> upd ps k x = ps.
Proof.
  induction ps as [|[k' v] ps IH]; simpl; [discriminate|].
  destruct (String.eqb k k') eqn:E; intros H.
  - now inversion H.
  - now rewrite IH.
Qed.

Lemma upd_upd ps k x y : upd (upd ps k x) k y = upd ps k y.
Proof.
  induction ps as [|[k' v] ps IH]; simpl.
  - now rewrite String.eqb_refl.
  - destruct (String.eqb k k') eqn:E; simpl; rewrite E; [reflexivity|].
    now rewrite IH.
Qed.

(** ** Reading and filling [output] *)

Lemma get_truthy o k : truthy o = true -> get o k = inr (field o k).
Proof. destruct o; simpl; intros; congruence. Qed.

Lemma get_object_truthy ps k v :
  get (VObj ps) k = inr v -> truthy v = true -> own ps k = Some v.
Proof.
  simpl. destruct (own ps k); simpl; intros H Hv; inversion H; subst;
    [reflexivity|discriminate].
Qed.

Lemma field_fill_same o k x :
  object_like o = true -> truthy x = true -> has (fill o k x) k = true.
Proof.
  unfold fill. destruct (has o k) eqn:E; [auto|].
  destruct o; simpl; try discriminate; intros _ Hx;
    unfold has; simpl; now rewrite own_upd_eq.
Qed.

Lemma field_fill_other o k k' x :
  k <> k' -> field (fill o k x) k' = field o k'.
Proof.
  intros Hne. unfold fill. destruct (has o k); [reflexivity|].
  destruct o; simpl; auto; now rewrite own_upd_ne.
Qed.

Lemma fill_id o k x : has o k = true -> fill o k x = o.
Proof. unfold fill. now intros ->. Qed.

Lemma fill_primitive o k x : object_like o = false -> fill o k x = o.
Proof. unfold fill. destruct (has o k); [reflexivity|]. now destruct o. Qed.

Lemma truthy_fill o k x : truthy o = true -> truthy (fill o k x) = true.
Proof. unfold fill. destruct (has o k); [auto|]. now destruct o. Qed.

Lemma object_like_fill o k x : object_like (fill o k x) = object_like o.
Proof. unfold fill. destruct (has o k); [auto|]. now destruct o. Qed.

Lemma fill_items_array o :
  object_like o = true -> isArray (field (fill_items o) "items") = true.
Proof.
  unfold fill_items. destruct (isArray (field o "items")) eqn:E; [auto|].
  destruct o; simpl; try discriminate; intros _; now rewrite own_upd_eq.
Qed.

Lemma field_fill_items_other o k :
  k <> "items" -> field (fill_items o) k = field o k.
Proof.
  intros Hne. unfold fill_items. destruct (isArray (field o "items")); [reflexivity|].
  destruct o; simpl; auto; now rewrite own_upd_ne.
Qed.

Lemma fill_items_id o : isArray (field o "items") = true -> fill_items o = o.
Proof. unfold fill_items. now intros ->. Qed.

Lemma fill_items_primitive o : object_like o = false -> fill_items o = o.
Proof. unfold fill_items. destruct (isArray _); [reflexivity|]. now destruct o. Qed.

Lemma truthy_fill_items o : truthy o = true -> truthy (fill_items o) = true.
Proof. unfold fill_items. destruct (isArray _); [auto|]. now destruct o. Qed.


Lemma truthy_filled iso t o : truthy o = true -> truthy (filled iso t o) = true.
Proof.
  intros H. unfold filled.
  now apply truthy_fill_items, truthy_fill, truthy_fill, truthy_fill.
Qed.


(** After the backfill pass an [output] that can hold properties holds the
    three essential fields and an item array. *)
Lemma filled_essentials iso t o :
  object_like o = true -> essentials (filled iso t o) = true.
Proof.
  intros Ho. unfold essentials, filled, has.
  set (o1 := fill o "nomor_referensi" _).
  set (o2 := fill o1 "nama_supplier" _).
  set (o3 := fill o2 "tanggal_faktur" _).
  assert (H1 : object_like o1 = true) by (unfold o1; now rewrite object_like_fill).
  assert (H2 : object_like o2 = true) by (unfold o2; now rewrite object_like_fill).
  assert (H3 : object_like o3 = true) by (unfold o3; now rewrite object_like_fill).
  rewrite !field_fill_items_other by discriminate.
  rewrite fill_items_array by assumption.
  assert (F3 : has o3 "tanggal_faktur" = true)
    by (unfold o3; now apply field_fill_same).
  assert (F2 : has o2 "nama_supplier" = true)
    by (unfold o2; now apply field_fill_same).
  assert (F1 : has o1 "nomor_referensi" = true)
    by (unfold o1; now apply field_fill_same).
  unfold has in *. rewrite F3.
  unfold o3. rewrite !field_fill_other by discriminate. rewrite F2.
  unfold o2. rewrite !field_fill_other by discriminate. rewrite F1.
  reflexivity.
Qed.

(** The pass changes nothing where the essentials are already in place. *)
Lemma filled_id iso t o : essentials o = true -> filled iso t o = o.
Proof.
  unfold essentials. intros H.
  apply andb_prop in H as [H Hi]. apply andb_prop in H as [H H3].
  apply andb_prop in H as [H1 H2].
  unfold filled.
  rewrite (fill_id o "nomor_referensi") by assumption.
  rewrite (fill_id o "nama_supplier") by assumption.
  rewrite (fill_id o "tanggal_faktur") by assumption.
  now apply fill_items_id.
Qed.

Lemma filled_primitive iso t o : object_like o = false -> filled iso t o = o.
Proof.
  intros H. unfold filled. rewrite !(fill_primitive o) by assumption.
  now apply fill_items_primitive.
Qed.

Lemma filled_idem iso iso' t t' o :
  filled iso' t' (filled iso t o) = filled iso t o.
Proof.
  destruct (object_like o) eqn:E.
  - apply filled_id. now apply filled_essentials.
  - rewrite (filled_primitive iso t o E). now apply filled_primitive.
Qed.

(** ** The backfill pass on a base *)

Lemma assign_fill o k x :
  truthy o = true -> has o k = false ->
  assign o k x = inr (fill o k x).
Proof.
  intros Ho Hk. unfold fill. rewrite Hk. destruct o; simpl in *; congruence.
Qed.

Lemma ensure_field_spec ps o k x :
  own ps "output" = Some o -> truthy o = true ->
  ensure_field (VObj ps) k x = inr (VObj (upd ps "output" (fill o k x))).
Proof.
  intros Hps Ho. unfold ensure_field, set_in_output. simpl. rewrite Hps. simpl.
  rewrite (get_truthy o k Ho). simpl. fold (has o k).
  destruct (has o k) eqn:E.
  - now rewrite fill_id, upd_same.
  - now rewrite (assign_fill o k x Ho E).
Qed.

Lemma ensure_items_spec ps o :
  own ps "output" = Some o -> truthy o = true ->
  ensure_items (VObj ps) = inr (VObj (upd ps "output" (fill_items o))).
Proof.
  intros Hps Ho. unfold ensure_items, set_in_output. simpl. rewrite Hps. simpl.
  rewrite (get_truthy o "items" Ho). simpl. unfold fill_items.
  destruct (isArray (field o "items")) eqn:E.
  - now rewrite upd_same.
  - destruct o; simpl in *; congruence.
Qed.

Lemma backfill_spec iso t ps o :
  own ps "output" = Some o -> truthy o = true ->
  backfill iso t (VObj ps) = inr (VObj (upd ps "output" (filled iso t o))).
Proof.
  intros Hps Ho. unfold backfill, filled.
  rewrite (ensure_field_spec ps o _ _ Hps Ho). simpl.
  erewrite ensure_field_spec;
    [|apply own_upd_eq|now apply truthy_fill]. simpl.
  erewrite ensure_field_spec;
    [|apply own_upd_eq|now apply truthy_fill, truthy_fill]. simpl.
  erewrite ensure_items_spec;
    [|apply own_upd_eq|now apply truthy_fill, truthy_fill, truthy_fill].
  now rewrite !upd_upd.
Qed.

(** ** Choosing the base *)

Lemma get_of_json_output j o :
  get (of_json j) "output" = inr o -> truthy o = true -> based (of_json j).
Proof.
  destruct j; simpl; try discriminate; intros H Ho.
  - inversion H; subst o; discriminate.
  - inversion H; subst o; discriminate.
  - inversion H; subst o; discriminate.
  - inversion H; subst o; discriminate.
  - inversion H as [H']. eexists _, o. split; [reflexivity|].
    split; [|exact Ho].
    destruct (own _ "output") eqn:E; simpl in *; [congruence|].
    subst o; discriminate.
Qed.

Lemma find_output_json l v :
  find_output (List.map of_json l) = inr v -> v = VUndef \/ based v.
Proof.
  induction l as [|j l IH]; simpl; intros H.
  - left. congruence.
  - destruct (get (of_json j) "output") as [e|o] eqn:E; simpl in H; [discriminate|].
    destruct (truthy o) eqn:Ho.
    + right. inversion H; subst v. eapply get_of_json_output; eauto.
    + auto.
Qed.

Lemma truthy_or_else a b : truthy b = true -> truthy (or_else a b) = true.
Proof. unfold or_else. destruct (truthy a) eqn:E; auto. Qed.

Lemma merge_items_based iso s t l m :
  merge_items iso s t l = inr m -> based m.
Proof.
  unfold merge_items.
  destruct (call_findPropertyInArray s l "nomor_referensi"); simpl; [discriminate|].
  destruct (call_findPropertyInArray s l "nama_supplier"); simpl; [discriminate|].
  destruct (call_findPropertyInArray s l "tanggal_faktur"); simpl; [discriminate|].
  destruct (call_findPropertyInArray s l "tgl_jatuh_tempo"); simpl; [discriminate|].
  destruct (truthy (nth 2 l VUndef)).
  - destruct (get (nth 2 l VUndef) "output"); simpl; [discriminate|].
    destruct (truthy v3).
    + destruct (get v3 "items"); simpl; [discriminate|].
      destruct (isArray v4); intros H; inversion H; eexists _, _; repeat split.
    + intros H; inversion H; eexists _, _; repeat split.
  - intros H; inversion H; eexists _, _; repeat split.
Qed.

Lemma select_base_json iso s t j b :
  select_base iso s t (of_json j) = inr b ->
  based b \/ (b = of_json j /\ isArray b = false).
Proof.
  destruct j; simpl; intros H; try (right; split; [congruence|inversion H; reflexivity]).
  destruct (find_output (List.map of_json elems)) as [e|v] eqn:E; simpl in H;
    [discriminate|].
  apply find_output_json in E as [->|Hb].
  - simpl in H. left. eapply merge_items_based; eauto.
  - destruct Hb as (ps & o & -> & Hps & Ho). simpl in H. inversion H.
    left. now exists ps, o.
Qed.

Lemma ensure_output_based b : based b -> ensure_output b = inr b.
Proof.
  intros (ps & o & -> & Hps & Ho). unfold ensure_output. simpl.
  rewrite Hps. simpl. now rewrite Ho.
Qed.

Lemma ensure_output_json j w :
  ensure_output (of_json j) = inr w -> based w.
Proof.
  unfold ensure_output.
  destruct (get (of_json j) "output") as [e|o] eqn:E; simpl; [discriminate|].
  destruct (truthy o) eqn:Ho; intros H; inversion H; subst w.
  - eapply get_of_json_output; eauto.
  - eexists _, _. split; [reflexivity|]. simpl. split; reflexivity.
Qed.

(** Every result of the normalizer is a base whose [output] went through
    the backfill pass. *)
Lemma normalize_json iso s t j r :
  normalize iso s t (of_json j) = inr r ->
  exists ps o, own ps "output" = Some o /\ truthy o = true /\
               r = VObj (upd ps "output" (filled iso t o)).
Proof.
  unfold normalize.
  destruct (select_base iso s t (of_json j)) as [e|b] eqn:Eb; simpl; [discriminate|].
  destruct (ensure_output b) as [e|w] eqn:Ew; simpl; [discriminate|].
  assert (Hw : based w).
  { apply select_base_json in Eb as [Hb|[-> _]].
    - rewrite (ensure_output_based b Hb) in Ew. now inversion Ew; subst.
    - eapply ensure_output_json; eauto. }
  destruct Hw as (ps & o & -> & Hps & Ho).
  rewrite (backfill_spec iso t ps o Hps Ho). intros H; inversion H.
  now exists ps, o.
Qed.

Lemma normalize_based iso s t ps o :
  own ps "output" = Some o -> truthy o = true ->
  normalize iso s t (VObj ps) = inr (VObj (upd ps "output" (filled iso t o))).
Proof.
  intros Hps Ho. unfold normalize. simpl.
  rewrite (ensure_output_based (VObj ps)) by now exists ps, o.
  simpl. now apply backfill_spec.
Qed.

(** ** What the normalizer guarantees *)







(** C6. Normalizing a result of the normalizer again, at either place and
    at any later time, returns it unchanged. *)
Theorem normalize_idempotent iso s t j r :
  normalize iso s t (of_json j) = inr r ->
  forall iso' s' t', normalize iso' s' t' r = inr r.
Proof.
  intros H iso' s' t'.
  destruct (normalize_json iso s t j r H) as (ps & o & Hps & Ho & ->).
  rewrite (normalize_based iso' s' t' _ (filled iso t o)).
  - now rewrite filled_idem, upd_upd.
  - apply own_upd_eq.
  - now apply truthy_filled.
Qed.

Lemma normalize_idempotent_witness :
  exists r,
    normalize sample_iso Worker 1740557730000 (of_json sample_invoice) = inr r /\
    forall iso' s' t', normalize iso' s' t' r = inr r.
Proof.
  eexists. split.
  - vm_compute. reflexivity.
  - apply (normalize_idempotent sample_iso Worker 1740557730000 sample_invoice).
    vm_compute. reflexivity.
Defined.

Lemma field_fill_new o k x :
  object_like o = true -> has o k = false -> field (fill o k x) k = x.
Proof.
  intros Ho Hk. unfold fill. rewrite Hk.
  destruct o; simpl in *; try discriminate; now rewrite own_upd_eq.
Qed.

Lemma merge_items_worker iso t l m :
  merge_items iso Worker t l = inr m ->
  exists nr ns tf jt its,
    findPropertyInArray l "nomor_referensi" = inr nr /\
    findPropertyInArray l "nama_supplier" = inr ns /\
    findPropertyInArray l "tanggal_faktur" = inr tf /\
    findPropertyInArray l "tgl_jatuh_tempo" = inr jt /\
    m = VObj [("output",
               VObj [("nomor_referensi", or_else nr (confident (inv_now t) false));
                     ("nama_supplier",
                      or_else ns (confident (VStr "Unknown Supplier") false));
                     ("tanggal_faktur", or_else tf (confident (today iso t) false));
                     ("tgl_jatuh_tempo", or_else jt (confident (VStr "") false));
                     ("items", its)])].
Proof.
  unfold merge_items, call_findPropertyInArray.
  destruct (findPropertyInArray l "nomor_referensi") as [|nr]; simpl; [discriminate|].
  destruct (findPropertyInArray l "nama_supplier") as [|ns]; simpl; [discriminate|].
  destruct (findPropertyInArray l "tanggal_faktur") as [|tf]; simpl; [discriminate|].
  destruct (findPropertyInArray l "tgl_jatuh_tempo") as [|jt]; simpl; [discriminate|].
  intros H. exists nr, ns, tf, jt.
  destruct (truthy (nth 2 l VUndef)).
  - destruct (get (nth 2 l VUndef) "output") as [|o]; simpl in H; [discriminate|].
    destruct (truthy o).
    + destruct (get o "items") as [|its]; simpl in H; [discriminate|].
      destruct (isArray its); inversion H; eexists; repeat split.
    + inversion H; eexists; repeat split.
  - inversion H; eexists; repeat split.
Qed.

(** C7, as the code has it. In the backfill pass a missing reference number
    gets a placeholder marked [is_confident: true], a missing invoice date
    and a missing supplier get placeholders marked [is_confident: false],
    and the due date is left as it was; the first defaulting pass (the
    merge of array elements) marks every placeholder [is_confident: false]. *)
Theorem backfill_placeholder_confidence iso t ps o r :
  own ps "output" = Some o -> object_like o = true ->
  backfill iso t (VObj ps) = inr r ->
  (has o "nomor_referensi" = false ->
   field (field r "output") "nomor_referensi" = confident (inv_now t) true) /\
  (has o "nama_supplier" = false ->
   field (field r "output") "nama_supplier"
   = confident (VStr "Unknown Supplier") false) /\
  (has o "tanggal_faktur" = false ->
   field (field r "output") "tanggal_faktur" = confident (today iso t) false) /\
  field (field r "output") "tgl_jatuh_tempo" = field o "tgl_jatuh_tempo" /\
  (forall l m out,
     merge_items iso Worker t l = inr m -> out = field m "output" ->
     (findPropertyInArray l "nomor_referensi" = inr VNull ->
      field out "nomor_referensi" = confident (inv_now t) false) /\
     (findPropertyInArray l "nama_supplier" = inr VNull ->
      field out "nama_supplier" = confident (VStr "Unknown Supplier") false) /\
     (findPropertyInArray l "tanggal_faktur" = inr VNull ->
      field out "tanggal_faktur" = confident (today iso t) false) /\
     (findPropertyInArray l "tgl_jatuh_tempo" = inr VNull ->
      field out "tgl_jatuh_tempo" = confident (VStr "") false)).
Proof.
  intros Hps Hobj Hb.
  assert (Ho : truthy o = true) by (destruct o; simpl in *; congruence).
  rewrite (backfill_spec iso t ps o Hps Ho) in Hb. inversion Hb; subst r.
  simpl. rewrite own_upd_eq. simpl. unfold filled.
  repeat split.
  - intros Hk. rewrite field_fill_items_other by discriminate.
    rewrite !field_fill_other by discriminate.
    now apply field_fill_new.
  - intros Hk. rewrite field_fill_items_other by discriminate.
    rewrite field_fill_other by discriminate.
    apply field_fill_new.
    + now rewrite object_like_fill.
    + unfold has. now rewrite field_fill_other by discriminate.
  - intros Hk. rewrite field_fill_items_other by discriminate.
    apply field_fill_new.
    + now rewrite !object_like_fill.
    + unfold has. now rewrite !field_fill_other by discriminate.
  - rewrite field_fill_items_other by discriminate.
    now rewrite !field_fill_other by discriminate.
  - destruct (merge_items_worker _ _ _ _ H) as (nr & ns & tf & jt & its & E & _ & _ & _ & ->).
    subst out. intros Hn. rewrite Hn in E. now inversion E.
  - destruct (merge_items_worker _ _ _ _ H) as (nr & ns & tf & jt & its & _ & E & _ & _ & ->).
    subst out. intros Hn. rewrite Hn in E. now inversion E.
  - destruct (merge_items_worker _ _ _ _ H) as (nr & ns & tf & jt & its & _ & _ & E & _ & ->).
    subst out. intros Hn. rewrite Hn in E. now inversion E.
  - destruct (merge_items_worker _ _ _ _ H) as (nr & ns & tf & jt & its & _ & _ & _ & E & ->).
    subst out. intros Hn. rewrite Hn in E. now inversion E.
Qed.

Lemma backfill_placeholder_confidence_witness :
  exists r,
    backfill sample_iso 1740557730000 (VObj [("output", VObj [])]) = inr r /\
    field (field r "output") "nomor_referensi"
    = confident (VStr "INV-1740557730000") true /\
    field (field r "output") "tanggal_faktur"
    = confident (VStr "2025-02-26") false.
Proof.
  eexists. split; [vm_compute; reflexivity|].
  destruct (backfill_placeholder_confidence sample_iso 1740557730000
              [("output", VObj [])] (VObj []) _ eq_refl eq_refl eq_refl)
    as (Hnr & _ & Htf & _).
  split; [exact (Hnr eq_refl)|exact (Htf eq_refl)].
Defined.

(** C7 as worded fails for the date kind: on the empty object the backfill
    pass synthesizes the invoice date with [is_confident: false]. *)
Lemma backfill_date_placeholder_not_confident :
  exists r,
    normalize sample_iso Worker 1740557730000 (of_json (JObj [])) = inr r /\
    has (field r "output") "tanggal_faktur" = true /\
    field (field (field r "output") "tanggal_faktur") "is_confident" = VBool false /\
    field (field (field r "output") "tanggal_faktur") "is_confident" <> VBool true.
Proof.
  eexists. split; [vm_compute; reflexivity|].
  split; [reflexivity|]. split; [reflexivity|]. discriminate.
Qed.

(** ** A program logic for runs *)

Lemma hoare_conseq {A} (P P' : state -> Prop) (m : M A)
    (Q Q' : exn + A -> state -> Prop) :
  hoare P' m Q' -> (forall s, P s -> P' s) -> (forall r s, Q' r s -> Q r s) ->
  hoare P m Q.
Proof. unfold hoare. auto. Qed.

Lemma hoare_ret {A} (P : state -> Prop) (a : A) (Q : exn + A -> state -> Prop) :
  (forall s, P s -> Q (inr a) s) -> hoare P (ret a) Q.
Proof. unfold hoare, ret. auto. Qed.

Lemma hoare_throw {A} (P : state -> Prop) e (Q : exn + A -> state -> Prop) :
  (forall s, P s -> Q (inl e) s) -> hoare P (throw e) Q.
Proof. unfold hoare, throw. auto. Qed.

Lemma hoare_bind {A B} (P : state -> Prop) (m : M A) (k : A -> M B)
    (Q : exn + A -> state -> Prop) (R : exn + B -> state -> Prop) :
  hoare P m Q ->
  (forall e s, Q (inl e) s -> R (inl e) s) ->
  (forall a, hoare (Q (inr a)) (k a) R) ->
  hoare P (bind m k) R.
Proof.
  unfold hoare, bind. intros Hm He Hk s HP. specialize (Hm s HP).
  destruct (m s) as [[e|a] s']; simpl in *; auto.
Qed.

Lemma hoare_try {A} (P : state -> Prop) (m : M A) (handler : exn -> M A)
    (Q R : exn + A -> state -> Prop) :
  hoare P m Q ->
  (forall a s, Q (inr a) s -> R (inr a) s) ->
  (forall e, hoare (Q (inl e)) (handler e) R) ->
  hoare P (try_catch m handler) R.
Proof.
  unfold hoare, try_catch. intros Hm Ha Hh s HP. specialize (Hm s HP).
  destruct (m s) as [[e|a] s']; simpl in *; auto.
Qed.

Lemma preserves_ret {A} I (a : A) : preserves I (ret a).
Proof. now apply hoare_ret. Qed.

Lemma preserves_throw {A} I e : preserves I (@throw A e).
Proof. now apply hoare_throw. Qed.

Lemma preserves_lift {A} I (r : exn + A) : preserves I (lift r).
Proof. unfold preserves, hoare, lift. auto. Qed.

Lemma preserves_now I : preserves I now.
Proof. unfold preserves, hoare, now. auto. Qed.

Lemma preserves_bind {A B} I (m : M A) (k : A -> M B) :
  preserves I m -> (forall a, preserves I (k a)) -> preserves I (bind m k).
Proof. intros Hm Hk. eapply hoare_bind; eauto. Qed.

Lemma preserves_try {A} I (m : M A) (handler : exn -> M A) :
  preserves I m -> (forall e, preserves I (handler e)) ->
  preserves I (try_catch m handler).
Proof. intros Hm Hh. eapply hoare_try; eauto. Qed.

(** Walking through the combinators of a run. *)
Ltac walk :=
  repeat match goal with
    | |- preserves _ (ret _) => apply preserves_ret
    | |- preserves _ (throw _) => apply preserves_throw
    | |- preserves _ (lift _) => apply preserves_lift
    | |- preserves _ now => apply preserves_now
    | |- preserves _ (bind _ _) => apply preserves_bind; [|intros]
    | |- preserves _ (try_catch _ _) => apply preserves_try; [|intros]
    | |- preserves _ (if ?b then _ else _) => destruct b
    | |- preserves _ (match ?x with _ => _ end) => destruct x
    end.

(** ** What every stable property survives *)

Section Stability.

Variable h : host.
Variable c : config.
Variable fileId : string.
Variable ok : event -> Prop.
Variable I : state -> Prop.
Hypothesis HI : stable h fileId ok I.

Lemma emit_stable e :
  ok e -> (forall u, e <> Post u) -> (forall i x, e <> StoreSet i x) ->
  preserves I (emit e).
Proof. intros H1 H2 H3 s Hs. simpl. now apply (st_emit _ _ _ _ HI). Qed.

Lemma setInterval_stable : preserves I setInterval.
Proof. intros s Hs. simpl. now apply (st_interval _ _ _ _ HI). Qed.

Lemma clearInterval_stable : preserves I clearInterval.
Proof. intros s Hs. simpl. now apply (st_interval _ _ _ _ HI). Qed.

Lemma final_stable status result p fileInfo :
  closing status result p -> null_or_object fileInfo ->
  preserves I (updateStatus h fileId status result p fileInfo).
Proof. intros H1 H2 s Hs. now apply (st_final _ _ _ _ HI). Qed.

Lemma period_stable fileInfo s :
  null_or_object fileInfo -> I s -> I (period h fileId fileInfo s).
Proof.
  intros Hfi Hs. unfold period.
  assert (H1 : I (with_clock (clock s + 1000) s)) by now apply (st_clock _ _ _ _ HI).
  set (s1 := with_clock (clock s + 1000) s) in *.
  destruct (progressInterval s1); [|exact H1].
  unfold on_interval.
  change (progress (with_progress (progress s1 + 5) s1)) with (progress s1 + 5).
  destruct (Z.leb_spec (progress s1 + 5) 90).
  - now apply (st_beat _ _ _ _ HI).
  - unfold clearInterval. cbn [snd].
    apply (st_interval _ _ _ _ HI). apply (st_bump _ _ _ _ HI); [exact H1|lia].
Qed.

Lemma wait_stable fileInfo n s :
  null_or_object fileInfo -> I s -> I (wait h fileId fileInfo n s).
Proof.
  intros Hfi. revert s. induction n as [|n IH]; simpl; intros s Hs; [exact Hs|].
  apply IH. now apply period_stable.
Qed.

Lemma axios_post_stable fileInfo u :
  null_or_object fileInfo -> ok (Post u) -> preserves I (axios_post h fileId fileInfo u).
Proof.
  intros Hfi Hu s Hs. unfold axios_post.
  assert (H1 : I (wait h fileId fileInfo (elapsed (http h u (requests s)))
                    (with_requests (S (requests s)) (with_log (cons (Post u)) s)))).
  { apply wait_stable; [exact Hfi|]. now apply (st_post _ _ _ _ HI). }
  destruct (settled (http h u (requests s))); simpl; exact H1.
Qed.

Hypothesis ok_notify : forall a b e n, ok (Notify a b e n).
Hypothesis ok_unlink : forall p, ok (Unlink p).

Lemma notify_stable filename e n :
  preserves I (sendFailureNotification fileId filename e n).
Proof. apply emit_stable; [apply ok_notify|discriminate|discriminate]. Qed.

Lemma unlink_stable p : preserves I (unlink p).
Proof. apply emit_stable; [apply ok_unlink|discriminate|discriminate]. Qed.

Lemma reset_stream_stable path :
  ok (CreateReadStream path) -> preserves I (reset_stream h path).
Proof.
  intros H. unfold reset_stream. walk.
  apply emit_stable; [exact H|discriminate|discriminate].
Qed.

Lemma primary_attempts_stable fileInfo path budget retryCount lastError :
  null_or_object fileInfo -> ok (CreateReadStream path) ->
  ok (Post (OCR_API_ENDPOINT c)) ->
  preserves I (primary_attempts h c fileId fileInfo path budget retryCount lastError).
Proof.
  intros Hfi Hopen Hpost. revert retryCount lastError.
  induction budget as [|budget IH]; intros retryCount lastError; simpl.
  - apply preserves_ret.
  - apply preserves_bind.
    + walk.
      * now apply reset_stream_stable.
      * now apply axios_post_stable.
    + intros [error|ocrData]; [apply IH|apply preserves_ret].
Qed.

Lemma mock_closing t filename :
  closing "completed" (createMockResult (toISOString h t) fileId filename) 100.
Proof. left. split; [reflexivity|]. split; [reflexivity|]. eexists. reflexivity. Qed.

Lemma error_closing e :
  closing "error" (VObj [("message", VStr (message e))]) 0.
Proof. right. split; [reflexivity|]. split; [reflexivity|]. eexists. reflexivity. Qed.

Lemma last_resort_stable filename fileInfo cleanup lastError :
  null_or_object fileInfo -> preserves I cleanup ->
  preserves I (last_resort h c fileId filename fileInfo cleanup lastError).
Proof.
  intros Hfi Hc. unfold last_resort. walk;
    try apply clearInterval_stable; try exact Hc.
  - apply final_stable; [apply mock_closing|exact Hfi].
  - apply final_stable; [apply error_closing|now left].
Qed.

Lemma call_ocr_stable filename fileInfo path cleanup :
  null_or_object fileInfo -> preserves I cleanup ->
  ok (CreateReadStream path) -> ok (Post (OCR_API_ENDPOINT c)) ->
  ok (Post (FALLBACK_OCR_API_ENDPOINT c)) ->
  preserves I (call_ocr h c fileId filename fileInfo path cleanup).
Proof.
  intros Hfi Hc Hopen Hp Hf. unfold call_ocr.
  apply preserves_bind; [now apply primary_attempts_stable|].
  intros [[ocrData|] lastError]; [apply preserves_ret|].
  apply preserves_bind; [apply notify_stable|intros _].
  destruct (negb _).
  - apply preserves_bind.
    + walk; [now apply reset_stream_stable|now apply axios_post_stable].
    + intros [fallbackError|ocrData]; walk.
      * apply notify_stable.
      * now apply last_resort_stable.
  - walk. now apply last_resort_stable.
Qed.

Lemma finish_worker_stable filePath originalname fileInfo ocrData :
  null_or_object fileInfo ->
  preserves I (finish_worker h fileId filePath originalname fileInfo ocrData).
Proof.
  intros Hfi. unfold finish_worker. walk.
  - apply clearInterval_stable.
  - apply final_stable; [|exact Hfi].
    left. split; [reflexivity|]. split; [reflexivity|]. eexists. reflexivity.
Qed.

Lemma finish_trigger_stable originalFilename tempFilePath ocrData :
  preserves I (finish_trigger h fileId originalFilename tempFilePath ocrData).
Proof.
  unfold finish_trigger. walk.
  - apply clearInterval_stable.
  - apply unlink_stable.
  - apply final_stable; [|now left].
    left. split; [reflexivity|]. split; [reflexivity|]. eexists. reflexivity.
Qed.

Lemma handler_stable error :
  preserves I
    (updateStatus h fileId "error" (VObj [("message", VStr (message error))]) 0 VNull ;;;
     ret (Rejected error)).
Proof. walk. apply final_stable; [apply error_closing|now left]. Qed.

Hypothesis ok_write : forall p, ok (WriteFile p).

Lemma worker_body_stable filePath originalname st t :
  ok (CreateReadStream filePath) -> ok (Post (OCR_API_ENDPOINT c)) ->
  ok (Post (FALLBACK_OCR_API_ENDPOINT c)) ->
  I (snd (updateStatus h fileId "processing" VNull 0
            (VObj [("id", VStr fileId); ("name", VStr originalname);
                   ("path", VStr filePath)]) (start st t))) ->
  hoare (eq (start st t)) (worker_body h c fileId filePath originalname)
    (fun _ => I).
Proof.
  intros Hopen Hp Hf H0. unfold worker_body.
  assert (Hfi : null_or_object
                  (VObj [("id", VStr fileId); ("name", VStr originalname);
                         ("path", VStr filePath)])) by (right; eexists; reflexivity).
  eapply hoare_bind with (Q := fun _ => I).
  - intros s <-. exact H0.
  - auto.
  - intros _. cbv beta.
    match goal with |- hoare I ?m _ => change (preserves I m) end.
    walk.
    + apply setInterval_stable.
    + apply clearInterval_stable.
    + apply final_stable; [apply mock_closing|exact Hfi].
    + apply unlink_stable.
    + apply emit_stable; [exact Hopen|discriminate|discriminate].
    + apply call_ocr_stable; auto. apply preserves_ret.
    + now apply finish_worker_stable.
    + apply final_stable; [apply error_closing|now left].
Qed.

Lemma worker_run_stable filePath originalname st t :
  ok (CreateReadStream filePath) -> ok (Post (OCR_API_ENDPOINT c)) ->
  ok (Post (FALLBACK_OCR_API_ENDPOINT c)) ->
  I (snd (updateStatus h fileId "processing" VNull 0
            (VObj [("id", VStr fileId); ("name", VStr originalname);
                   ("path", VStr filePath)]) (start st t))) ->
  I (snd (processingQueue h c fileId filePath originalname st t)).
Proof.
  intros Hopen Hp Hf H0. unfold processingQueue.
  pose proof (worker_body_stable filePath originalname st t Hopen Hp Hf H0
                (start st t) eq_refl) as H.
  destruct (worker_body h c fileId filePath originalname (start st t)) as [r s].
  simpl in *. apply wait_stable; [right; eexists; reflexivity|exact H].
Qed.

Lemma trigger_pipeline_stable q st t :
  ok (CreateReadStream (path_join h (tempDir h) (q_originalFilename q))) ->
  ok (Post (OCR_API_ENDPOINT c)) -> ok (Post (FALLBACK_OCR_API_ENDPOINT c)) ->
  I (snd (updateStatus h fileId "processing" VNull 0
            (VObj [("id", VStr fileId); ("name", VStr (q_originalFilename q));
                   ("mimetype", VStr (q_mimetype q))]) (start st t))) ->
  hoare (eq (start st t)) (trigger_pipeline h c fileId q) (fun _ => I).
Proof.
  intros Hopen Hp Hf H0. unfold trigger_pipeline.
  eapply hoare_bind with (Q := fun _ => I).
  - intros s <-. exact H0.
  - auto.
  - intros _. cbv beta.
    match goal with |- hoare I ?m _ => change (preserves I m) end.
    unfold write_temp. walk.
    + apply setInterval_stable.
    + apply emit_stable; [apply ok_write|discriminate|discriminate].
    + apply emit_stable; [exact Hopen|discriminate|discriminate].
    + apply call_ocr_stable; auto; [now left|apply unlink_stable].
    + apply finish_trigger_stable.
Qed.

Lemma trigger_run_stable st t :
  (forall q, st !! fileId = Some (Buffered q) ->
     ok (CreateReadStream (path_join h (tempDir h) (q_originalFilename q))) /\
     I (snd (updateStatus h fileId "processing" VNull 0
               (VObj [("id", VStr fileId); ("name", VStr (q_originalFilename q));
                      ("mimetype", VStr (q_mimetype q))]) (start st t)))) ->
  ((forall q, st !! fileId <> Some (Buffered q)) -> I (start st t)) ->
  ok (Post (OCR_API_ENDPOINT c)) -> ok (Post (FALLBACK_OCR_API_ENDPOINT c)) ->
  I (snd (processQueuedFile h c fileId st t)).
Proof.
  intros Hbuf Hnone Hp Hf. unfold processQueuedFile.
  assert (H : hoare (eq (start st t)) (trigger_body h c fileId) (fun _ => I)).
  { unfold trigger_body. eapply hoare_try with (Q := fun _ => I).
    - intros s <-. unfold bind. cbn [fst snd processingStatus start].
      destruct (st !! fileId) as [[r|q]|] eqn:E.
      + apply Hnone. congruence.
      + destruct (Hbuf q eq_refl) as [Hopen H0].
        now apply (trigger_pipeline_stable q st t Hopen Hp Hf H0).
      + apply Hnone. congruence.
    - auto.
    - intros e. apply handler_stable. }
  specialize (H (start st t) eq_refl).
  destruct (trigger_body h c fileId (start st t)) as [r s].
  simpl in *. apply wait_stable; [now left|exact H].
Qed.

End Stability.

(** ** The discipline of a run *)

Lemma ascending_mono b b' l : b <= b' -> ascending b l -> ascending b' l.
Proof.
  revert b b'. induction l as [|r l IH]; simpl; intros b b' Hb; [auto|].
  destruct (String.eqb (rec_status r) "processing").
  - intros [H1 H2]. split; [lia|exact H2].
  - now apply IH.
Qed.

Lemma ascending_bound b l r :
  ascending b l -> In r l -> rec_status r = "processing" -> rec_progress r <= b.
Proof.
  revert b. induction l as [|x l IH]; simpl; intros b Ha Hin Hr; [contradiction|].
  destruct Hin as [->|Hin].
  - rewrite Hr in Ha. simpl in Ha. tauto.
  - destruct (String.eqb (rec_status x) "processing").
    + destruct Ha as [Hx Ha]. specialize (IH _ Ha Hin Hr). lia.
    + now apply IH.
Qed.

Lemma ascending_split b (l1 : list status_record) r l2 r' :
  ascending b (l1 ++ r :: l2)%list -> rec_status r = "processing" ->
  In r' l2 -> rec_status r' = "processing" -> rec_progress r' <= rec_progress r.
Proof.
  revert b. induction l1 as [|x l1 IH]; simpl; intros b Ha Hr Hin Hr'.
  - rewrite Hr in Ha. simpl in Ha. destruct Ha as [_ Ha].
    eapply ascending_bound; eauto.
  - destruct (String.eqb (rec_status x) "processing").
    + destruct Ha as [_ Ha]. eapply IH; eauto.
    + eapply IH; eauto.
Qed.

Section Discipline.

Variable h : host.
Variable fileId : string.
Variable store : gmap string entry.

Lemma disciplined_start t : disciplined fileId store (start store t).
Proof.
  unfold disciplined. simpl. split; [reflexivity|]. split; [lia|].
  split; [constructor|exact Logic.I].
Qed.

Lemma disciplined_first fileInfo t :
  null_or_object fileInfo ->
  disciplined fileId store
    (snd (updateStatus h fileId "processing" VNull 0 fileInfo (start store t))).
Proof.
  intros Hfi. unfold disciplined. simpl.
  split; [reflexivity|]. split; [lia|]. split.
  - constructor; [|constructor]. simpl. split; [reflexivity|].
    split; [reflexivity|]. simpl. split; [now left|]. split; [exact Hfi|].
    left. split; [reflexivity|lia].
  - split; [lia|exact Logic.I].
Qed.

Lemma disciplined_stable :
  stable h fileId (fun _ => True) (disciplined fileId store).
Proof.
  split.
  - intros s e _ Hpost Hset (H1 & H2 & H3 & H4). unfold disciplined.
    destruct e; try (exfalso; eapply Hset; reflexivity); simpl;
      (split; [exact H1|]; split; [exact H2|]; split; [|exact H4]);
      constructor; simpl; auto.
  - intros s u _ (H1 & H2 & H3 & H4). unfold disciplined. simpl.
    split; [exact H1|]. split; [exact H2|]. split; [|exact H4].
    constructor; simpl; auto.
  - intros s b H. exact H.
  - intros s t H. exact H.
  - intros s (H1 & H2 & H3 & H4) Hp. unfold disciplined. simpl.
    split; [exact H1|]. split; [lia|]. split; [exact H3|].
    eapply ascending_mono; [|exact H4]. lia.
  - intros s fileInfo (H1 & H2 & H3 & H4) Hp Hfi. unfold disciplined. simpl.
    split; [now rewrite H1|]. split; [lia|]. split.
    + constructor; [|exact H3]. simpl. split; [reflexivity|].
      split; [reflexivity|]. simpl. split; [now left|]. split; [exact Hfi|].
      left. split; [reflexivity|lia].
    + split; [lia|]. eapply ascending_mono; [|exact H4]. lia.
  - intros s status result p fileInfo (H1 & H2 & H3 & H4) Hc Hfi.
    unfold disciplined. simpl.
    split; [now rewrite H1|]. split; [exact H2|]. split.
    + constructor; [|exact H3]. simpl. split; [reflexivity|].
      split; [reflexivity|]. simpl.
      destruct Hc as [(-> & -> & ps & ->)|(-> & -> & msg & ->)].
      * split; [right; now exists ps|]. split; [exact Hfi|].
        right. left. now split.
      * split; [right; eexists; reflexivity|]. split; [exact Hfi|].
        right. right. now split.
    + destruct Hc as [(-> & _)|(-> & _)]; simpl; exact H4.
Qed.

End Discipline.

(** Every run keeps the discipline. *)
Lemma run_disciplined h c j store t :
  disciplined (job_id j) store (snd (run h c j store t)).
Proof.
  destruct j as [fileId filePath originalname|fileId]; simpl.
  - apply (worker_run_stable h c fileId (fun _ => True)); auto.
    + apply disciplined_stable.
    + apply disciplined_first. right. eexists. reflexivity.
  - apply (trigger_run_stable h c fileId (fun _ => True)); auto.
    + apply disciplined_stable.
    + intros q _. split; [exact Logic.I|].
      apply disciplined_first. right. eexists. reflexivity.
    + intros _. apply disciplined_start.
Qed.

Lemma written_ok fileId l :
  Forall (ok_event fileId) l -> Forall (ok_record fileId) (written l).
Proof.
  induction 1 as [|e l He Hl IH]; simpl; [constructor|].
  destruct e as [i [r|q]| | | | |]; simpl in *; auto; try contradiction.
  constructor; tauto.
Qed.

(** C9. Over the writes of any run, in the order they reach the store:
    between two writes in state [processing] the progress never goes down,
    a [processing] write stays below 100, progress 100 only comes with
    [completed], and a write of state [error] carries progress 0. The log
    misses no write: the store after the run is the store before it with
    the logged writes applied. *)
Theorem progress_monotone h c j store t :
  processingStatus (snd (run h c j store t))
  = replay store (log (snd (run h c j store t))) /\
  progress_law (writes (snd (run h c j store t))).
Proof.
  destruct (run_disciplined h c j store t) as (H1 & H2 & H3 & H4).
  split; [exact H1|].
  set (s := snd (run h c j store t)) in *.
  apply written_ok in H3. rewrite List.Forall_forall in H3.
  unfold progress_law, writes. repeat split.
  - intros pre r1 mid r2 post Hws Hr1 Hr2.
    apply (f_equal (@rev status_record)) in Hws.
    rewrite rev_involutive in Hws.
    rewrite rev_app_distr in Hws. simpl in Hws.
    rewrite rev_app_distr in Hws. simpl in Hws.
    rewrite <- !app_assoc in Hws. simpl in Hws.
    rewrite Hws in H4.
    eapply (ascending_split _ (rev post) r2); eauto.
    apply in_or_app. right. now left.
  - apply in_rev in H. destruct (H3 r H) as (_ & _ & _ & [[_ ?]|[[E _]|[E _]]]);
      [lia|congruence|congruence].
  - apply in_rev in H. destruct (H3 r H) as (_ & _ & _ & [[_ ?]|[[E _]|[E _]]]);
      [lia|congruence|congruence].
  - intros r Hin Hp. apply in_rev in Hin.
    destruct (H3 r Hin) as (_ & _ & _ & [[_ ?]|[[E _]|[_ ?]]]); [lia|exact E|lia].
  - intros r Hin Hst. apply in_rev in Hin.
    destruct (H3 r Hin) as (_ & _ & _ & [[E _]|[[E _]|[_ ?]]]);
      [congruence|congruence|assumption].
Qed.

(** ** The store across runs *)

Lemma ok_record_entry fileId r : ok_record fileId r -> entry_ok fileId (Updated r).
Proof.
  intros (Hid & Hres & Hfi & Hst). simpl. split; [exact Hid|].
  destruct Hst as [[-> ?]|[[-> ->]|[-> ->]]]; simpl;
    (split; [tauto|]); (split; [lia|]); tauto.
Qed.

Lemma store_ok_insert store id e :
  store_ok store -> entry_ok id e -> store_ok (<[id := e]> store).
Proof.
  intros Hs He id' e' Hl. apply lookup_insert_Some in Hl as [[<- <-]|[_ Hl]]; auto.
Qed.

Lemma replay_ok fileId store l :
  store_ok store -> Forall (ok_event fileId) l -> store_ok (replay store l).
Proof.
  intros Hs. induction 1 as [|e l He Hl IH]; simpl; [exact Hs|].
  destruct e as [i [r|q]| | | | |]; simpl in *; auto; try contradiction.
  destruct He as [-> Hr]. apply store_ok_insert; [exact IH|].
  now apply ok_record_entry.
Qed.

Lemma run_store_ok h c j store t :
  store_ok store -> store_ok (processingStatus (snd (run h c j store t))).
Proof.
  intros Hs. destruct (run_disciplined h c j store t) as (H1 & _ & H3 & _).
  rewrite H1. eapply replay_ok; eauto.
Qed.

Lemma queueFile_ok h fileId filePath originalname store t :
  store_ok store -> store_ok (queueFile h fileId filePath originalname store t).
Proof.
  intros Hs. unfold queueFile. simpl. apply store_ok_insert; [exact Hs|].
  simpl. split; [reflexivity|]. split; [simpl; tauto|]. split; [lia|].
  split; [now left|right; eexists; reflexivity].
Qed.

Lemma queueBuffer_ok h processId buffer originalFilename mimetype store t :
  store_ok store ->
  store_ok (queueBuffer h processId buffer originalFilename mimetype store t).
Proof.
  intros Hs. unfold queueBuffer. apply store_ok_insert; [exact Hs|].
  simpl. tauto.
Qed.

Lemma reachable_ok store : reachable store -> store_ok store.
Proof.
  induction 1 as [|h fileId filePath originalname store t _ IH
                  |h processId buffer originalFilename mimetype store t _ IH
                  |h c j store t _ IH].
  - intros id e Hl. rewrite lookup_empty in Hl. discriminate.
  - now apply queueFile_ok.
  - now apply queueBuffer_ok.
  - now apply run_store_ok.
Qed.




(** ** Triggering *)

Lemma wait_off h fileId fileInfo n s :
  progressInterval s = false ->
  processingStatus (wait h fileId fileInfo n s) = processingStatus s /\
  log (wait h fileId fileInfo n s) = log s.
Proof.
  revert s. induction n as [|n IH]; simpl; intros s Hoff; [auto|].
  unfold period. simpl. rewrite Hoff.
  destruct (IH (with_clock (clock s + 1000) s) Hoff) as [H1 H2].
  now rewrite H1, H2.
Qed.

(** Without a buffer to work on, the trigger throws inside its own [try]:
    the promise rejects and the [catch] records the error under the id. *)
Lemma trigger_rejects h c fileId store t :
  (forall q, store !! fileId <> Some (Buffered q)) ->
  fst (processQueuedFile h c fileId store t)
  = Rejected (Error (not_found_message store fileId)) /\
  processingStatus (snd (processQueuedFile h c fileId store t))
  = <[fileId := error_record h fileId (not_found_message store fileId) t]> store /\
  log (snd (processQueuedFile h c fileId store t))
  = [StoreSet fileId (error_record h fileId (not_found_message store fileId) t)].
Proof.
  intros Hno. unfold processQueuedFile, trigger_body, try_catch, bind, not_found_message.
  cbn [start processingStatus]. 
  destruct (store !! fileId) as [[r|q]|] eqn:E.
  - cbn. split; [reflexivity|]. apply wait_off. reflexivity.
  - exfalso. now apply (Hno q).
  - cbn. split; [reflexivity|]. apply wait_off. reflexivity.
Qed.

(** C2, as the code has it. For an id the store does not hold, or whose
    record carries no buffer, the call rejects with the not-found error,
    reads and sends nothing, and leaves the records of every other id as
    they were; the record of the id itself is overwritten (or created)
    with state [error], the message, progress 0 and no file info. *)
Theorem trigger_not_found h c fileId store t :
  (forall q, store !! fileId <> Some (Buffered q)) ->
  fst (processQueuedFile h c fileId store t)
  = Rejected (Error (not_found_message store fileId)) /\
  log (snd (processQueuedFile h c fileId store t))
  = [StoreSet fileId (error_record h fileId (not_found_message store fileId) t)] /\
  processingStatus (snd (processQueuedFile h c fileId store t)) !! fileId
  = Some (error_record h fileId (not_found_message store fileId) t) /\
  (forall id, id <> fileId ->
     processingStatus (snd (processQueuedFile h c fileId store t)) !! id
     = store !! id).
Proof.
  intros Hno. destruct (trigger_rejects h c fileId store t Hno) as (H1 & H2 & H3).
  split; [exact H1|]. split; [exact H3|]. rewrite H2. split.
  - apply lookup_insert_eq.
  - intros id Hid. now apply lookup_insert_ne.
Qed.

Lemma trigger_not_found_witness :
  fst (processQueuedFile sample_host sample_config "job-9" ∅ 1740557730000)
  = Rejected (Error "No queued file found with ID: job-9") /\
  processingStatus
    (snd (processQueuedFile sample_host sample_config "job-9" ∅ 1740557730000))
    !! "job-9"
  = Some (error_record sample_host "job-9" "No queued file found with ID: job-9"
            1740557730000).
Proof.
  destruct (trigger_not_found sample_host sample_config "job-9" ∅ 1740557730000)
    as (H1 & _ & H3 & _).
  - intros q Hq. rewrite lookup_empty in Hq. discriminate.
  - split; [exact H1|exact H3].
Defined.

(** C2 as worded fails on the empty store: the failed call leaves a record
    under the unknown id. *)
Lemma trigger_unknown_id_changes_store :
  fst (processQueuedFile sample_host sample_config "job-9" ∅ 1740557730000)
  = Rejected (Error "No queued file found with ID: job-9") /\
  getFileStatus ∅ "job-9" = Literal "job-9" "not_found" 0 /\
  getFileStatus
    (processingStatus
       (snd (processQueuedFile sample_host sample_config "job-9" ∅ 1740557730000)))
    "job-9"
  = Stored (error_record sample_host "job-9" "No queued file found with ID: job-9"
              1740557730000) /\
  processingStatus
    (snd (processQueuedFile sample_host sample_config "job-9" ∅ 1740557730000))
  <> ∅.
Proof.
  split; [reflexivity|]. split; [reflexivity|]. split; [reflexivity|].
  intros H. apply (f_equal (fun m : gmap string entry => m !! "job-9")) in H.
  vm_compute in H. discriminate.
Qed.

Lemma recorded_stable h fileId :
  stable h fileId (fun _ => True) (recorded fileId).
Proof.
  split; try (intros; assumption).
  - intros s fileInfo _ _ _. eexists. simpl. apply lookup_insert_eq.
  - intros s status result p fileInfo _ _ _. eexists. simpl. apply lookup_insert_eq.
Qed.

Lemma began_with_stable h fileId e :
  stable h fileId (fun _ => True) (began_with e).
Proof.
  split; try (intros; assumption).
  - intros s e' _ _ _ [l Hl]. exists (e' :: l). simpl. now rewrite Hl.
  - intros s u _ [l Hl]. exists (Post u :: l). simpl. now rewrite Hl.
  - intros s fileInfo [l Hl] _ _. eexists (_ :: l). simpl. now rewrite Hl.
  - intros s status result p fileInfo [l Hl] _ _. eexists (_ :: l). simpl.
    now rewrite Hl.
Qed.

Lemma retrigger_rejected fileId calls store :
  (exists r, store !! fileId = Some (Updated r)) ->
  Forall (eq (Rejected (Error ("File buffer not found for ID: " ++ fileId))))
    (retrigger fileId calls store).
Proof.
  revert store. induction calls as [|[[h c] t] calls IH]; intros store [r Hr];
    simpl; [constructor|].
  assert (Hno : forall q, store !! fileId <> Some (Buffered q)) by congruence.
  destruct (trigger_rejects h c fileId store t Hno) as (H1 & H2 & _).
  unfold not_found_message in H1, H2. rewrite Hr in H1, H2.
  constructor; [now rewrite H1|].
  apply IH. rewrite H2. eexists. apply lookup_insert_eq.
Qed.

(** C10. Triggering a buffered job consumes the buffer. The first write
    of the run is the [processing] record of [updateStatus], which has no
    [buffer]; whatever way the run ends, the record left under the id is
    one of [updateStatus]; and every later [processQueuedFile] for the id,
    whenever and however configured, rejects with the buffer-not-found
    error. *)
Theorem trigger_consumes_buffer h c fileId store t q :
  store !! fileId = Some (Buffered q) ->
  began_with
    (StoreSet fileId
       (Updated {| rec_id := fileId; rec_status := "processing";
                   rec_result := VNull; rec_progress := 0;
                   rec_fileInfo :=
                     VObj [("id", VStr fileId);
                           ("name", VStr (q_originalFilename q));
                           ("mimetype", VStr (q_mimetype q))];
                   rec_updatedAt := toISOString h t |}))
    (snd (processQueuedFile h c fileId store t)) /\
  (exists r, processingStatus (snd (processQueuedFile h c fileId store t)) !! fileId
             = Some (Updated r)) /\
  forall calls,
    Forall (eq (Rejected (Error ("File buffer not found for ID: " ++ fileId))))
      (retrigger fileId calls
         (processingStatus (snd (processQueuedFile h c fileId store t)))).
Proof.
  intros Hq.
  assert (Hrec : recorded fileId (snd (processQueuedFile h c fileId store t))).
  { apply (trigger_run_stable h c fileId (fun _ => True)); auto.
    - apply recorded_stable.
    - intros q' _. split; [exact Logic.I|]. eexists. simpl. apply lookup_insert_eq.
    - intros Hno. exfalso. now apply (Hno q). }
  split; [|split; [exact Hrec|]].
  - apply (trigger_run_stable h c fileId (fun _ => True)); auto.
    + apply began_with_stable.
    + intros q' Hq'. split; [exact Logic.I|].
      assert (q' = q) as -> by congruence. now exists [].
    + intros Hno. exfalso. now apply (Hno q).
  - intros calls. now apply retrigger_rejected.
Qed.

Lemma trigger_consumes_buffer_witness :
  (exists r,
     fst (processQueuedFile (answering_host sample_invoice 2) sample_config "job-1"
            sample_store 1740557731000) = Resolved r) /\
  Forall (eq (Rejected (Error "File buffer not found for ID: job-1")))
    (retrigger "job-1"
       [(answering_host sample_invoice 2, sample_config, 1740557740000);
        (sample_host, sample_config, 1740557750000)]
       (processingStatus
          (snd (processQueuedFile (answering_host sample_invoice 2) sample_config
                  "job-1" sample_store 1740557731000)))).
Proof.
  split.
  - eexists. vm_compute. reflexivity.
  - destruct (trigger_consumes_buffer (answering_host sample_invoice 2) sample_config
                "job-1" sample_store 1740557731000
                {| q_id := "job-1"; q_originalFilename := "faktur.pdf";
                   q_status := "queued"; q_mimetype := "application/pdf";
                   q_queuedAt := sample_iso 1740557730000; q_buffer := [];
                   q_dataSize := 0; q_results := VNull; q_error := VNull |})
      as (_ & _ & H).
    + vm_compute. reflexivity.
    + apply H.
Defined.

(** ** Attempts of a run *)

Section Attempts.

Variable h : host.
Variable c : config.
Variable fileId : string.

Lemma attempted_stable X : stable h fileId quiet (attempted X).
Proof.
  split; try (intros; assumption).
  - intros s e He _ _ H. unfold attempted in *. simpl. now rewrite He.
  - intros s u He. discriminate He.
Qed.

Lemma quiet_notify a b e n : quiet (Notify a b e n).
Proof. reflexivity. Qed.

Lemma quiet_unlink p : quiet (Unlink p).
Proof. reflexivity. Qed.

Lemma quiet_write p : quiet (WriteFile p).
Proof. reflexivity. Qed.

Lemma open_trace path X :
  hoare (attempted X) (emit (CreateReadStream path))
    (fun r s => attempted (CreateReadStream path :: X) s /\ r = inr tt).
Proof.
  intros s H. unfold attempted in *. simpl. now rewrite H.
Qed.

Hypothesis can_reset : reset_fault h = None.

Lemma reset_stream_trace path X :
  hoare (attempted X) (reset_stream h path)
    (fun r s => attempted (CreateReadStream path :: X) s /\ r = inr tt).
Proof.
  intros s H. unfold reset_stream. rewrite can_reset.
  unfold attempted in *. simpl. now rewrite H.
Qed.

Lemma axios_post_trace fileInfo u X :
  null_or_object fileInfo ->
  hoare (attempted X) (axios_post h fileId fileInfo u)
    (fun r s => attempted (Post u :: X) s /\
                (always_fails h u -> exists msg, r = inl (Error msg))).
Proof.
  intros Hfi s H. unfold axios_post.
  assert (H1 : attempted (Post u :: X)
                 (wait h fileId fileInfo (elapsed (http h u (requests s)))
                    (with_requests (S (requests s)) (with_log (cons (Post u)) s)))).
  { apply (wait_stable h fileId quiet _ (attempted_stable (Post u :: X))); auto.
    unfold attempted in *. simpl. now rewrite H. }
  destruct (settled (http h u (requests s))) as [msg|body] eqn:E; simpl.
  - split; [exact H1|]. intros _. now exists msg.
  - split; [exact H1|]. intros Hf. destruct (Hf (requests s)) as [msg Hm].
    congruence.
Qed.

(** With the primary endpoint down, the loop uses its whole budget, opens
    the file anew for each retry and leaves without [ocrData]. *)
Lemma primary_attempts_trace fileInfo path budget retryCount lastError X :
  null_or_object fileInfo -> always_fails h (OCR_API_ENDPOINT c) ->
  hoare (attempted X)
    (primary_attempts h c fileId fileInfo path budget retryCount lastError)
    (fun r s => attempted (loop_trace c path budget retryCount ++ X)%list s /\
                exists e, r = inr (None, e)).
Proof.
  intros Hfi Hfail. revert retryCount lastError X.
  induction budget as [|budget IH]; intros retryCount lastError X.
  - intros s H. simpl. split; [exact H|]. now exists lastError.
  - cbn [primary_attempts loop_trace].
    set (opened := if (0 <? retryCount)%nat then [CreateReadStream path] else []).
    eapply hoare_bind with
      (Q := fun r s => attempted (Post (OCR_API_ENDPOINT c) :: opened ++ X)%list s /\
                       exists error, r = inr (inl error)).
    + eapply hoare_try with
        (Q := fun r s => attempted (Post (OCR_API_ENDPOINT c) :: opened ++ X)%list s /\
                         exists error, r = inl error).
      * eapply hoare_bind with (Q := fun r s => attempted (opened ++ X)%list s /\ r = inr tt).
        -- unfold opened. destruct (0 <? retryCount)%nat.
           ++ apply reset_stream_trace.
           ++ intros s H. simpl. auto.
        -- intros e s [_ H]. discriminate H.
        -- intros []. eapply hoare_bind with
             (Q := fun r s => attempted (Post (OCR_API_ENDPOINT c) :: opened ++ X)%list s /\
                              exists msg, r = inl (Error msg)).
           ++ eapply hoare_conseq; [apply (axios_post_trace fileInfo _ (opened ++ X)%list Hfi)| |].
              ** intros s [H _]. exact H.
              ** intros r s [H1 H2]. split; [exact H1|]. now apply H2.
           ++ intros e s [H1 [msg H2]]. split; [exact H1|]. now exists e.
           ++ intros a s [_ [msg H]]. discriminate H.
      * intros a s [_ [e H]]. discriminate H.
      * intros e s [H _]. simpl. split; [exact H|]. now exists e.
    + intros e s [_ [e' H]]. discriminate H.
    + intros [error|ocrData].
      * eapply hoare_conseq; [apply (IH (S retryCount) (Some error))| |].
        -- intros s [H _]. exact H.
        -- intros r s [H1 H2]. split; [|exact H2].
           unfold attempted in *. rewrite H1. rewrite <- app_assoc. reflexivity.
      * intros s [_ [e H]]. discriminate H.
Qed.

Lemma quietly {A} (m : M A) Z :
  preserves (attempted Z) m ->
  hoare (attempted Z) m (fun _ => attempted Z).
Proof. auto. Qed.

(** With the primary endpoint down, the calls to the OCR service add the
    loop's attempts and then the fallback's, if there is a fallback. *)
Lemma call_ocr_trace filename fileInfo path cleanup X :
  null_or_object fileInfo -> always_fails h (OCR_API_ENDPOINT c) ->
  (forall Z, preserves (attempted Z) cleanup) ->
  hoare (attempted X) (call_ocr h c fileId filename fileInfo path cleanup)
    (fun _ => attempted
                (fallback_trace c path ++
                 loop_trace c path (S MAX_RETRIES) 0 ++ X)%list).
Proof.
  intros Hfi Hfail Hclean. unfold call_ocr.
  set (Y := (loop_trace c path (S MAX_RETRIES) 0 ++ X)%list).
  eapply hoare_bind;
    [apply (primary_attempts_trace fileInfo path (S MAX_RETRIES) 0 None X Hfi Hfail)| |].
  { intros e s [_ [e' H]]. discriminate H. }
  intros [[ocrData|] lastError].
  { intros s [_ [e H]]. discriminate H. }
  fold Y. eapply hoare_conseq with (P' := attempted Y)
                                   (Q' := fun _ => attempted (fallback_trace c path ++ Y)%list);
    [|intros s [H _]; exact H|auto].
  eapply hoare_bind with (Q := fun r s => attempted Y s /\ r = inr tt);
    [| |intros []].
  { intros s H. simpl. split; [exact H|reflexivity]. }
  { intros e s [_ H]. discriminate H. }
  eapply hoare_conseq with (P' := attempted Y)
                           (Q' := fun _ => attempted (fallback_trace c path ++ Y)%list);
    [|intros s [H _]; exact H|auto].
  unfold fallback_trace.
  destruct (String.eqb (OCR_API_ENDPOINT c) (FALLBACK_OCR_API_ENDPOINT c)); simpl negb; cbv iota.
  - apply (quietly _ Y). walk.
    apply (last_resort_stable h c fileId quiet _ (attempted_stable Y));
      auto using quiet_notify, quiet_unlink.
  - set (Z := (Post (FALLBACK_OCR_API_ENDPOINT c) :: CreateReadStream path :: Y)).
    change (([Post (FALLBACK_OCR_API_ENDPOINT c); CreateReadStream path] ++ Y)%list)
      with Z.
    eapply hoare_bind with (Q := fun _ => attempted Z); [|auto|].
    + eapply hoare_try with (Q := fun _ => attempted Z); [|auto|].
      * eapply hoare_bind;
          [apply (reset_stream_trace path Y)| |intros []].
        { intros e s [_ H]. discriminate H. }
        eapply hoare_conseq with (P' := attempted (CreateReadStream path :: Y))
                                 (Q' := fun _ => attempted Z);
          [|intros s [H _]; exact H|auto].
        eapply hoare_bind with (Q := fun _ => attempted Z); [|auto|intros a].
        -- eapply hoare_conseq;
             [apply (axios_post_trace fileInfo _ (CreateReadStream path :: Y) Hfi)|auto|].
           intros r s [H _]. exact H.
        -- apply (quietly _ Z). apply preserves_ret.
      * intros e. apply (quietly _ Z). apply preserves_ret.
    + intros [fallbackError|ocrData]; apply (quietly _ Z); walk.
      * apply (notify_stable h fileId quiet _ (attempted_stable Z) quiet_notify).
      * apply (last_resort_stable h c fileId quiet _ (attempted_stable Z));
          auto using quiet_notify, quiet_unlink.
Qed.

Lemma hoare_bind_unit {B} (P Q : state -> Prop) (m : M unit) (k : unit -> M B)
    (R : exn + B -> state -> Prop) :
  hoare P m (fun r s => Q s /\ r = inr tt) -> hoare Q (k tt) R ->
  hoare P (bind m k) R.
Proof.
  intros Hm Hk. eapply hoare_bind; [exact Hm| |].
  - intros e s [_ H]. discriminate H.
  - intros []. eapply hoare_conseq; [exact Hk|intros s [H _]; exact H|auto].
Qed.

Lemma updateStatus_trace status result p fileInfo X :
  hoare (attempted X) (updateStatus h fileId status result p fileInfo)
    (fun r s => attempted X s /\ r = inr tt).
Proof. intros s H. simpl. split; [exact H|reflexivity]. Qed.

Lemma setInterval_trace X :
  hoare (attempted X) setInterval (fun r s => attempted X s /\ r = inr tt).
Proof. intros s H. simpl. split; [exact H|reflexivity]. Qed.

Lemma worker_trace filePath originalname store t :
  USE_MOCK_DATA c = false -> always_fails h (OCR_API_ENDPOINT c) ->
  attempted
    (fallback_trace c filePath ++
     loop_trace c filePath (S MAX_RETRIES) 0 ++ [CreateReadStream filePath])%list
    (snd (processingQueue h c fileId filePath originalname store t)).
Proof.
  intros Hmock Hfail. unfold processingQueue.
  set (W := (fallback_trace c filePath ++
             loop_trace c filePath (S MAX_RETRIES) 0 ++ [CreateReadStream filePath])%list).
  set (fileInfo := VObj [("id", VStr fileId); ("name", VStr originalname);
                         ("path", VStr filePath)]).
  assert (Hfi : null_or_object fileInfo) by (right; eexists; reflexivity).
  assert (H : hoare (attempted []) (worker_body h c fileId filePath originalname)
                (fun _ => attempted W)).
  { unfold worker_body. fold fileInfo. rewrite Hmock.
    eapply hoare_bind_unit; [apply updateStatus_trace|].
    eapply hoare_bind_unit; [apply setInterval_trace|].
    eapply hoare_try with (Q := fun _ => attempted W); [|auto|].
    - eapply hoare_bind_unit; [apply (open_trace filePath [])|].
      eapply hoare_bind with (Q := fun _ => attempted W); [|auto|].
      + apply call_ocr_trace; auto. intros Z. apply preserves_ret.
      + intros [o|ocrData]; apply (quietly _ W).
        * apply preserves_ret.
        * apply (finish_worker_stable h fileId quiet _ (attempted_stable W)); auto.
    - intros e. apply (quietly _ W).
      apply (handler_stable h fileId quiet _ (attempted_stable W)). }
  specialize (H (start store t) eq_refl).
  destruct (worker_body h c fileId filePath originalname (start store t)) as [r s].
  simpl in *.
  apply (wait_stable h fileId quiet _ (attempted_stable W)); auto.
Qed.

Lemma trigger_trace q store t :
  store !! fileId = Some (Buffered q) -> write_fault h = None ->
  always_fails h (OCR_API_ENDPOINT c) ->
  let path := path_join h (tempDir h) (q_originalFilename q) in
  attempted
    (fallback_trace c path ++
     loop_trace c path (S MAX_RETRIES) 0 ++ [CreateReadStream path])%list
    (snd (processQueuedFile h c fileId store t)).
Proof.
  intros Hq Hw Hfail path. unfold processQueuedFile.
  set (W := (fallback_trace c path ++
             loop_trace c path (S MAX_RETRIES) 0 ++ [CreateReadStream path])%list).
  assert (Hp : hoare (attempted []) (trigger_pipeline h c fileId q)
                 (fun _ => attempted W)).
  { unfold trigger_pipeline. fold path. unfold write_temp. rewrite Hw.
    eapply hoare_bind_unit; [apply updateStatus_trace|].
    eapply hoare_bind_unit; [apply setInterval_trace|].
    eapply hoare_bind_unit with (Q := attempted []).
    { intros s H. simpl. split; [exact H|reflexivity]. }
    eapply hoare_bind_unit; [apply (open_trace path [])|].
    eapply hoare_bind with (Q := fun _ => attempted W); [|auto|].
    - apply call_ocr_trace; auto; [now left|].
      intros Z. apply (unlink_stable h fileId quiet _ (attempted_stable Z) quiet_unlink).
    - intros [o|ocrData]; apply (quietly _ W).
      + apply preserves_ret.
      + apply (finish_trigger_stable h fileId quiet _ (attempted_stable W) quiet_unlink). }
  assert (H : hoare (eq (start store t)) (trigger_body h c fileId)
                (fun _ => attempted W)).
  { unfold trigger_body. eapply hoare_try with (Q := fun _ => attempted W); [|auto|].
    - intros s <-. unfold bind at 1. cbn [fst snd processingStatus start].
      rewrite Hq. now apply Hp.
    - intros e. apply (quietly _ W).
      apply (handler_stable h fileId quiet _ (attempted_stable W)). }
  specialize (H (start store t) eq_refl).
  destruct (trigger_body h c fileId (start store t)) as [r s].
  simpl in *.
  apply (wait_stable h fileId quiet _ (attempted_stable W)); auto. now left.
Qed.

End Attempts.

Lemma run_attempted h c j store t path :
  source_path h c j store = Some path -> reset_fault h = None ->
  always_fails h (OCR_API_ENDPOINT c) ->
  attempted
    (fallback_trace c path ++
     loop_trace c path (S MAX_RETRIES) 0 ++ [CreateReadStream path])%list
    (snd (run h c j store t)).
Proof.
  destruct j as [fileId filePath originalname|fileId]; simpl;
    intros Hsrc Hreset Hfail.
  - destruct (USE_MOCK_DATA c) eqn:E; [discriminate|].
    inversion Hsrc; subst path. now apply worker_trace.
  - destruct (store !! fileId) as [[r|q]|] eqn:E; try discriminate.
    destruct (write_fault h) eqn:Ew; [discriminate|].
    inversion Hsrc; subst path. now apply trigger_trace.
Qed.

(** What the retry loop is written to do. If [formData.delete] did not
    throw, a run that gets to call the OCR service, with the primary
    endpoint failing every call, would open the file and post it to the
    primary endpoint [MAX_RETRIES + 1] times, one after the other, and only
    then turn to the fallback endpoint, if it is another endpoint. *)
Lemma retry_budget_with_reset h c j store t path :
  source_path h c j store = Some path -> reset_fault h = None ->
  always_fails h (OCR_API_ENDPOINT c) ->
  attempts (snd (run h c j store t))
  = (concat (replicate (MAX_RETRIES + 1)
               [CreateReadStream path; Post (OCR_API_ENDPOINT c)]) ++
     (if String.eqb (OCR_API_ENDPOINT c) (FALLBACK_OCR_API_ENDPOINT c) then []
      else [CreateReadStream path; Post (FALLBACK_OCR_API_ENDPOINT c)]))%list.
Proof.
  intros Hsrc Hreset Hfail. unfold attempts.
  rewrite (run_attempted h c j store t path Hsrc Hreset Hfail).
  unfold fallback_trace.
  destruct (String.eqb (OCR_API_ENDPOINT c) (FALLBACK_OCR_API_ENDPOINT c));
    reflexivity.
Qed.


(** ** Which endpoints a run posts to *)

Lemma posts_within_stable h c fileId :
  stable h fileId (endpoint_ok c) (posts_within c).
Proof.
  split; try (intros; assumption).
  - intros s e _ Hpost _ H u [Hu|Hu]; [|now apply H].
    exfalso. now apply (Hpost u).
  - intros s u Hok H u' [Hu|Hu]; [|now apply H].
    inversion Hu; subst u'. exact Hok.
  - intros s fileInfo H _ _ u [Hu|Hu]; [discriminate Hu|now apply H].
  - intros s status result p fileInfo H _ _ u [Hu|Hu]; [discriminate Hu|now apply H].
Qed.

Lemma run_posts_within h c j store t : posts_within c (snd (run h c j store t)).
Proof.
  destruct j as [fileId filePath originalname|fileId]; simpl.
  - apply (worker_run_stable h c fileId (endpoint_ok c) _
             (posts_within_stable h c fileId)); simpl; auto.
    intros u [Hu|[]]. discriminate Hu.
  - apply (trigger_run_stable h c fileId (endpoint_ok c) _
             (posts_within_stable h c fileId)); simpl; auto.
    + intros q _. split; [exact Logic.I|]. intros u [Hu|[]]. discriminate Hu.
    + intros _ u [].
Qed.

Lemma posted_in l u : In u (posted l) <-> In (Post u) l.
Proof.
  induction l as [|e l IH]; simpl; [tauto|].
  destruct e; simpl; rewrite IH; split; intros H;
    try (destruct H as [H|H]; [discriminate H|exact H]); try (right; exact H).
  - destruct H as [->|H]; [now left|now right].
  - destruct H as [H|H]; [inversion H; now left|now right].
Qed.

Lemma posted_attempts l : posted (List.filter is_attempt l) = posted l.
Proof.
  induction l as [|e l IH]; simpl; [reflexivity|].
  destruct e; simpl; auto. now rewrite IH.
Qed.

(** A run posts to the primary and the fallback endpoint only, so with
    the two configured alike no second endpoint is ever called. If
    [formData.delete] did not throw, a run that gets to call the OCR
    service, with the primary endpoint failing every call, would post
    [MAX_RETRIES + 1] times to the primary endpoint and then once to the
    fallback endpoint if it is another one, and not at all if it is the
    same. *)
Lemma fallback_once_with_reset h c j store t :
  (forall u, In u (posts (snd (run h c j store t))) ->
             u = OCR_API_ENDPOINT c \/ u = FALLBACK_OCR_API_ENDPOINT c) /\
  (OCR_API_ENDPOINT c = FALLBACK_OCR_API_ENDPOINT c ->
   forall u, In u (posts (snd (run h c j store t))) -> u = OCR_API_ENDPOINT c) /\
  (forall path,
     source_path h c j store = Some path -> reset_fault h = None ->
     always_fails h (OCR_API_ENDPOINT c) ->
     posts (snd (run h c j store t))
     = (replicate (MAX_RETRIES + 1) (OCR_API_ENDPOINT c) ++
        (if String.eqb (OCR_API_ENDPOINT c) (FALLBACK_OCR_API_ENDPOINT c) then []
         else [FALLBACK_OCR_API_ENDPOINT c]))%list).
Proof.
  assert (Hin : forall u, In u (posts (snd (run h c j store t))) ->
                  u = OCR_API_ENDPOINT c \/ u = FALLBACK_OCR_API_ENDPOINT c).
  { intros u Hu. unfold posts in Hu. apply in_rev in Hu. apply posted_in in Hu.
    now apply (run_posts_within h c j store t). }
  split; [exact Hin|]. split.
  - intros Heq u Hu. destruct (Hin u Hu) as [->| ->]; auto.
  - intros path Hsrc Hreset Hfail. unfold posts.
    rewrite <- posted_attempts.
    rewrite (run_attempted h c j store t path Hsrc Hreset Hfail).
    unfold fallback_trace.
    destruct (String.eqb (OCR_API_ENDPOINT c) (FALLBACK_OCR_API_ENDPOINT c));
      reflexivity.
Qed.


(** ** Payloads the normalizer does not absorb *)

(** C5 at its failing inputs. An empty array from the OCR endpoint ends a
    triggered job in state [error]: the merge of array elements calls
    [findPropertyInArray], which the body of [processQueuedFile] cannot
    see. The worker, where the helper is in scope, completes on the same
    payload. A [null] body ends both in state [error], as does an array
    whose first element is [null]. *)
Theorem unabsorbed_payloads :
  fst (processQueuedFile (answering_host (JArr []) 0) sample_config "job-1"
         sample_store 1740557731000)
  = Rejected (ReferenceError "findPropertyInArray is not defined") /\
  reply_status
    (getFileStatus
       (processingStatus
          (snd (processQueuedFile (answering_host (JArr []) 0) sample_config
                  "job-1" sample_store 1740557731000))) "job-1")
  = "error" /\
  reply_status
    (getFileStatus
       (processingStatus
          (snd (processingQueue (answering_host (JArr []) 0) sample_config
                  "job-2" "uploads/faktur.pdf" "faktur.pdf" ∅ 1740557731000)))
       "job-2")
  = "completed" /\
  fst (processingQueue (answering_host JNull 0) sample_config
         "job-2" "uploads/faktur.pdf" "faktur.pdf" ∅ 1740557731000)
  = Rejected (TypeError "Cannot read properties of null (reading 'output')") /\
  reply_status
    (getFileStatus
       (processingStatus
          (snd (processingQueue (answering_host JNull 0) sample_config
                  "job-2" "uploads/faktur.pdf" "faktur.pdf" ∅ 1740557731000)))
       "job-2")
  = "error" /\
  fst (processingQueue (answering_host (JArr [JNull]) 0) sample_config
         "job-2" "uploads/faktur.pdf" "faktur.pdf" ∅ 1740557731000)
  = Rejected (TypeError "Cannot read properties of null (reading 'output')").
Proof. repeat split; vm_compute; reflexivity. Qed.

(** After such an error nothing clears the progress timer: its next beat
    puts the job back into state [processing]. *)
Lemma error_then_processing :
  List.map rec_status
    (writes (snd (processQueuedFile (answering_host (JArr []) 2) sample_config
                    "job-1" sample_store 1740557731000)))
  = ["processing"; "processing"; "error"; "processing"; "processing"].
Proof. vm_compute. reflexivity. Qed.

(** Where [formData.delete] throws instead, each retry and the fallback
    fail before their request: the one post of the run is the first. *)
Lemma attempts_without_delete :
  attempts
    (snd (run sample_host_without_delete sample_config
            (FileJob "job-2" "uploads/faktur.pdf" "faktur.pdf") ∅ 1740557730000))
  = [CreateReadStream "uploads/faktur.pdf"; Post (OCR_API_ENDPOINT sample_config)].
Proof. vm_compute. reflexivity. Qed.

(** * Further properties *)

(** ** The normalizer on well-formed and on mixed payloads *)

Lemma essentials_object_like o : essentials o = true -> object_like o = true.
Proof.
  unfold essentials, has. destruct o; simpl; try discriminate; reflexivity.
Qed.

Lemma object_like_truthy o : object_like o = true -> truthy o = true.
Proof. destruct o; simpl; congruence. Qed.

(** X1. A single object whose [output] already holds the three essential
    fields and an item array comes out of the normalizer exactly as it went
    in, at either copy and at any time. *)
Theorem normalize_verbatim iso s t ms o :
  get (of_json (JObj ms)) "output" = inr o -> essentials o = true ->
  normalize iso s t (of_json (JObj ms)) = inr (of_json (JObj ms)).
Proof.
  intros Hget He.
  assert (Ho : truthy o = true)
    by now apply object_like_truthy, essentials_object_like.
  change (of_json (JObj ms)) with (VObj (spread (of_json (JObj ms)))) in *.
  pose proof (get_object_truthy _ _ _ Hget Ho) as Hown.
  rewrite (normalize_based iso s t _ o Hown Ho).
  now rewrite filled_id, upd_same.
Qed.

Lemma normalize_verbatim_witness :
  normalize sample_iso Trigger 1740557730000
    (of_json
       (JObj [("output",
               JObj [("nomor_referensi", JStr "SSP318905");
                     ("nama_supplier", JStr "PT SUKSES SEJATI PERKASA");
                     ("tanggal_faktur", JStr "26-02-2025");
                     ("items", JArr [])]);
              ("debug", JArr [])]))
  = inr (of_json
           (JObj [("output",
                   JObj [("nomor_referensi", JStr "SSP318905");
                         ("nama_supplier", JStr "PT SUKSES SEJATI PERKASA");
                         ("tanggal_faktur", JStr "26-02-2025");
                         ("items", JArr [])]);
                  ("debug", JArr [])])).
Proof.
  eapply normalize_verbatim.
  - reflexivity.
  - reflexivity.
Defined.

Lemma field_fill_kept o k' x k :
  k <> k' \/ has o k = true -> field (fill o k' x) k = field o k.
Proof.
  intros [Hne|Hk].
  - apply field_fill_other. congruence.
  - destruct (String.eqb k k') eqn:E.
    + apply String.eqb_eq in E. subst k'. now rewrite fill_id.
    + apply String.eqb_neq in E. apply field_fill_other. congruence.
Qed.

Lemma field_filled_kept iso t o k :
  k <> "items" -> has o k = true \/ ~ In k essential_names ->
  field (filled iso t o) k = field o k.
Proof.
  intros Hi Hk. unfold filled.
  rewrite field_fill_items_other by exact Hi.
  assert (H : forall o' k' x, In k' essential_names ->
                field o' k = field o k -> field (fill o' k' x) k = field o k).
  { intros o' k' x Hin Ho'. rewrite field_fill_kept; [exact Ho'|].
    destruct Hk as [Hk|Hk].
    - right. unfold has. now rewrite Ho'.
    - left. intros ->. now apply Hk. }
  apply H; [simpl; tauto|]. apply H; [simpl; tauto|]. apply H; [simpl; tauto|].
  reflexivity.
Qed.

Lemma field_filled_items iso t o :
  isArray (field o "items") = true ->
  field (filled iso t o) "items" = field o "items".
Proof.
  intros Hi. unfold filled.
  assert (H : field (fill (fill (fill o "nomor_referensi"
                                   (confident (inv_now t) true))
                             "nama_supplier"
                             (confident (VStr "Unknown Supplier") false))
                       "tanggal_faktur" (confident (today iso t) false)) "items"
              = field o "items")
    by now rewrite !field_fill_other by discriminate.
  rewrite fill_items_id; [exact H|]. now rewrite H.
Qed.

(** X2. The normalizer never overwrites what upstream sent. For an object
    with a truthy [output]: every property of [output] that is truthy, or
    that is not one of the three essential names, keeps its value ([items]
    keeps its value when it is an array), and every property of the object
    beside [output] is untouched. *)
Theorem normalize_keeps_supplied iso s t ms o r :
  get (of_json (JObj ms)) "output" = inr o -> truthy o = true ->
  normalize iso s t (of_json (JObj ms)) = inr r ->
  (forall k, k <> "items" -> has o k = true \/ ~ In k essential_names ->
             field (field r "output") k = field o k) /\
  (isArray (field o "items") = true ->
   field (field r "output") "items" = field o "items") /\
  (forall k, k <> "output" -> field r k = field (of_json (JObj ms)) k).
Proof.
  intros Hget Ho Hn.
  change (of_json (JObj ms)) with (VObj (spread (of_json (JObj ms)))) in *.
  remember (spread (of_json (JObj ms))) as ps eqn:Eps. clear Eps.
  pose proof (get_object_truthy _ _ _ Hget Ho) as Hown.
  rewrite (normalize_based iso s t _ o Hown Ho) in Hn.
  injection Hn as <-.
  assert (Hout : field (VObj (upd ps "output" (filled iso t o))) "output"
                 = filled iso t o) by (simpl; now rewrite own_upd_eq).
  rewrite Hout.
  split; [|split].
  - intros k Hi Hk. now apply field_filled_kept.
  - apply field_filled_items.
  - intros k Hk. simpl. rewrite own_upd_ne by congruence. reflexivity.
Qed.

Lemma normalize_keeps_supplied_witness :
  exists r,
    normalize sample_iso Worker 1740557730000 (of_json sample_invoice) = inr r /\
    field (field r "output") "nama_supplier"
    = confident (VStr "PT SUKSES SEJATI PERKASA") true.
Proof.
  eexists. split; [vm_compute; reflexivity|].
  edestruct (normalize_keeps_supplied sample_iso Worker 1740557730000
               [("output",
                 JObj [("nama_supplier",
                        JObj [("value", JStr "PT SUKSES SEJATI PERKASA");
                              ("is_confident", JBool true)])])])
    as (H & _ & _).
  - reflexivity.
  - reflexivity.
  - vm_compute. reflexivity.
  - apply (H "nama_supplier"); [discriminate|now left].
Defined.

(** ** Array payloads *)

Lemma find_output_passes l1 l2 :
  Forall no_output l1 -> find_output (l1 ++ l2) = find_output l2.
Proof.
  induction 1 as [|x l1 (o & Hget & Ho) _ IH]; simpl; [reflexivity|].
  rewrite Hget. simpl. now rewrite Ho.
Qed.

Lemma find_output_none l : Forall no_output l -> find_output l = inr VUndef.
Proof.
  intros H. rewrite <- (app_nil_r l). now rewrite find_output_passes.
Qed.

Lemma find_output_undef_json l :
  find_output (List.map of_json l) = inr VUndef ->
  Forall (fun y => no_output (of_json y)) l.
Proof.
  induction l as [|j l IH]; simpl; intros H; [constructor|].
  destruct (get (of_json j) "output") as [e|o] eqn:E; simpl in H; [discriminate|].
  destruct (truthy o) eqn:Ho.
  - inversion H as [H']. destruct j; simpl in H'; discriminate.
  - constructor; [now exists o|auto].
Qed.

Lemma Forall_map_no_output l :
  Forall (fun y => no_output (of_json y)) l -> Forall no_output (List.map of_json l).
Proof. induction 1; simpl; constructor; auto. Qed.

Lemma has_output_object j :
  has (of_json j) "output" = true ->
  exists ps o, of_json j = VObj ps /\ own ps "output" = Some o /\ truthy o = true.
Proof.
  unfold has. destruct j; simpl; try discriminate.
  destruct (own _ "output") as [o|] eqn:E; simpl; [|discriminate].
  intros Ho. now eexists _, o.
Qed.

(** X3. An array payload is not merged when one of its elements carries an
    [output]: the first such element, with only elements without [output]
    before it, is normalized as if it had been sent alone, and the other
    elements are dropped. *)
Theorem first_output_element_adopted iso s t l1 x l2 :
  Forall (fun y => no_output (of_json y)) l1 ->
  has (of_json x) "output" = true ->
  normalize iso s t (of_json (JArr (l1 ++ x :: l2)))
  = normalize iso s t (of_json x).
Proof.
  intros Hl1 Hx. destruct (has_output_object x Hx) as (ps & o & Ex & Hps & Ho).
  unfold normalize. cbn [of_json select_base].
  rewrite List.map_app. cbn [List.map].
  rewrite find_output_passes by now apply Forall_map_no_output.
  cbn [find_output]. rewrite Ex. simpl get. rewrite Hps. simpl. rewrite Ho.
  reflexivity.
Qed.

Lemma first_output_element_adopted_witness :
  normalize sample_iso Worker 1740557730000
    (of_json (JArr [JObj [("nomor_referensi", JStr "SSP318905")]; JStr "page 2";
                    sample_invoice; JObj [("output", JObj [])]]))
  = normalize sample_iso Worker 1740557730000 (of_json sample_invoice).
Proof.
  apply (first_output_element_adopted sample_iso Worker 1740557730000
           [JObj [("nomor_referensi", JStr "SSP318905")]; JStr "page 2"]
           sample_invoice [JObj [("output", JObj [])]]).
  - repeat constructor; exists VUndef; split; reflexivity.
  - reflexivity.
Defined.

Lemma find_output_throws_json l e :
  find_output (List.map of_json l) = inl e ->
  e = TypeError "Cannot read properties of null (reading 'output')" /\
  exists l1 l2, l = (l1 ++ JNull :: l2)%list /\
                Forall (fun y => no_output (of_json y)) l1.
Proof.
  induction l as [|j l IH]; simpl; intros H; [discriminate|].
  destruct (get (of_json j) "output") as [e'|o] eqn:E; simpl in H.
  - destruct j; simpl in E; try discriminate. inversion E; subst e'.
    inversion H; subst e. split; [reflexivity|]. now exists [], l.
  - destruct (truthy o) eqn:Ho; [discriminate|].
    destruct (IH H) as (He & l1 & l2 & -> & Hl1). split; [exact He|].
    exists (j :: l1), l2. split; [reflexivity|]. constructor; [now exists o|exact Hl1].
Qed.

Lemma no_output_get x k : no_output x -> get x k = inr (field x k).
Proof. intros (o & Hget & _). destruct x; simpl in *; congruence. Qed.

Lemma no_output_misses x k : no_output x -> has x k = false -> misses k x.
Proof.
  intros Hx Hk. pose proof (no_output_get x k Hx) as Hg.
  destruct Hx as (o & Hget & Ho). exists (field x k), o.
  repeat split; auto. congruence.
Qed.

Lemma findPropertyInArray_passes k l1 l2 :
  Forall (misses k) l1 ->
  findPropertyInArray (l1 ++ l2) k = findPropertyInArray l2 k.
Proof.
  induction 1 as [|x l1 (p & o & Hp & Hpf & Ho & Hn) _ IH]; simpl; [reflexivity|].
  rewrite Hp. simpl. rewrite Hpf, Ho. simpl.
  destruct (truthy o) eqn:E; [|exact IH].
  rewrite (get_truthy o k E). simpl. fold (has o k). now rewrite (Hn eq_refl).
Qed.

Lemma findPropertyInArray_no_output k l :
  Forall no_output l ->
  exists v, findPropertyInArray l k = inr v /\ (v = VNull \/ truthy v = true).
Proof.
  induction 1 as [|x l Hx _ (v & IH & Hv)]; simpl.
  - exists VNull. auto.
  - rewrite (no_output_get x k Hx). simpl.
    destruct (truthy (field x k)) eqn:E.
    + eexists. split; [reflexivity|]. now right.
    + destruct Hx as (o & Hget & Ho). rewrite Hget. simpl. rewrite Ho. now exists v.
Qed.

Lemma nth_no_output l n :
  Forall no_output l -> truthy (nth n l VUndef) = true ->
  no_output (nth n l VUndef).
Proof.
  intros Hl. revert n. induction Hl as [|x l Hx _ IH]; intros [|n]; simpl;
    try discriminate; auto.
Qed.

(** The merge of an array without any [output]: what each field becomes. *)
Lemma merge_items_no_output iso t l :
  Forall no_output l ->
  exists nr ns tf jt,
    findPropertyInArray l "nomor_referensi" = inr nr /\
    findPropertyInArray l "nama_supplier" = inr ns /\
    findPropertyInArray l "tanggal_faktur" = inr tf /\
    findPropertyInArray l "tgl_jatuh_tempo" = inr jt /\
    merge_items iso Worker t l
    = inr (VObj [("output",
                  VObj [("nomor_referensi", or_else nr (confident (inv_now t) false));
                        ("nama_supplier",
                         or_else ns (confident (VStr "Unknown Supplier") false));
                        ("tanggal_faktur",
                         or_else tf (confident (today iso t) false));
                        ("tgl_jatuh_tempo", or_else jt (confident (VStr "") false));
                        ("items", VArr [] [])])]).
Proof.
  intros Hl.
  destruct (findPropertyInArray_no_output "nomor_referensi" l Hl) as (nr & Hnr & _).
  destruct (findPropertyInArray_no_output "nama_supplier" l Hl) as (ns & Hns & _).
  destruct (findPropertyInArray_no_output "tanggal_faktur" l Hl) as (tf & Htf & _).
  destruct (findPropertyInArray_no_output "tgl_jatuh_tempo" l Hl) as (jt & Hjt & _).
  exists nr, ns, tf, jt. repeat (split; [assumption|]).
  unfold merge_items, call_findPropertyInArray. rewrite Hnr, Hns, Htf, Hjt. simpl.
  destruct (truthy (nth 2 l VUndef)) eqn:E; [|reflexivity].
  destruct (nth_no_output l 2 Hl E) as (o & Hget & Ho). rewrite Hget. simpl.
  now rewrite Ho.
Qed.

(** The base the worker merges from an array without any
    [output]-carrying element. *)
Lemma merge_base iso t l :
  Forall no_output (List.map of_json l) ->
  exists nr ns tf jt,
    findPropertyInArray (List.map of_json l) "nomor_referensi" = inr nr /\
    findPropertyInArray (List.map of_json l) "nama_supplier" = inr ns /\
    findPropertyInArray (List.map of_json l) "tanggal_faktur" = inr tf /\
    findPropertyInArray (List.map of_json l) "tgl_jatuh_tempo" = inr jt /\
    let out :=
      VObj [("nomor_referensi", or_else nr (confident (inv_now t) false));
            ("nama_supplier",
             or_else ns (confident (VStr "Unknown Supplier") false));
            ("tanggal_faktur", or_else tf (confident (today iso t) false));
            ("tgl_jatuh_tempo", or_else jt (confident (VStr "") false));
            ("items", VArr [] [])] in
    essentials out = true /\
    select_base iso Worker t (of_json (JArr l)) = inr (VObj [("output", out)]).
Proof.
  intros Hl.
  destruct (merge_items_no_output iso t _ Hl)
    as (nr & ns & tf & jt & Hnr & Hns & Htf & Hjt & Hm).
  exists nr, ns, tf, jt. repeat (split; [assumption|]).
  cbv zeta. split.
  - unfold essentials, has. simpl. now rewrite !truthy_or_else by reflexivity.
  - cbn [of_json select_base]. rewrite (find_output_none _ Hl).
    cbn [bindE truthy]. exact Hm.
Qed.

(** Such an array is absorbed by the worker. *)
Lemma merge_absorbed iso t l :
  Forall (fun y => no_output (of_json y)) l ->
  exists r, normalize iso Worker t (of_json (JArr l)) = inr r.
Proof.
  intros Hl. apply Forall_map_no_output in Hl.
  destruct (merge_base iso t l Hl) as (nr & ns & tf & jt & _ & _ & _ & _ & He & Hsel).
  cbv zeta in He, Hsel. unfold normalize. rewrite Hsel. cbn [bindE].
  rewrite ensure_output_based by (eexists _, _; split; [reflexivity|]; split; reflexivity).
  cbn [bindE]. erewrite backfill_spec by reflexivity. eexists. reflexivity.
Qed.

(** X4. When no element of an array payload carries an [output], the
    worker builds the result from scratch: [output] holds the four invoice
    fields, each the first match of [findPropertyInArray] or else its
    placeholder, and an empty [items]; nothing else of the elements
    survives, and the items of the third element are never taken over
    (that element has no [output] to take them from). *)
Theorem merged_result iso t l :
  Forall (fun y => no_output (of_json y)) l ->
  exists nr ns tf jt,
    findPropertyInArray (List.map of_json l) "nomor_referensi" = inr nr /\
    findPropertyInArray (List.map of_json l) "nama_supplier" = inr ns /\
    findPropertyInArray (List.map of_json l) "tanggal_faktur" = inr tf /\
    findPropertyInArray (List.map of_json l) "tgl_jatuh_tempo" = inr jt /\
    normalize iso Worker t (of_json (JArr l))
    = inr (VObj [("output",
                  VObj [("nomor_referensi", or_else nr (confident (inv_now t) false));
                        ("nama_supplier",
                         or_else ns (confident (VStr "Unknown Supplier") false));
                        ("tanggal_faktur",
                         or_else tf (confident (today iso t) false));
                        ("tgl_jatuh_tempo", or_else jt (confident (VStr "") false));
                        ("items", VArr [] [])])]).
Proof.
  intros Hl. apply Forall_map_no_output in Hl.
  destruct (merge_base iso t l Hl)
    as (nr & ns & tf & jt & Hnr & Hns & Htf & Hjt & He & Hsel).
  exists nr, ns, tf, jt. repeat (split; [assumption|]).
  cbv zeta in He, Hsel.
  set (out := VObj [("nomor_referensi", _); _; _; _; _]) in *.
  unfold normalize. rewrite Hsel. cbn [bindE].
  rewrite (ensure_output_based (VObj [("output", out)]))
    by (now exists [("output", out)], out).
  cbn [bindE].
  rewrite (backfill_spec iso t [("output", out)] out) by reflexivity.
  now rewrite filled_id.
Qed.

Lemma merged_result_witness :
  normalize sample_iso Worker 1740557730000
    (of_json (JArr [JObj [("nomor_referensi", JStr "SSP318905")];
                    JObj [("nama_supplier", JStr "PT SUKSES SEJATI PERKASA")];
                    JObj [("items", JArr [JNum 1])]]))
  = inr (VObj [("output",
                VObj [("nomor_referensi", VStr "SSP318905");
                      ("nama_supplier", VStr "PT SUKSES SEJATI PERKASA");
                      ("tanggal_faktur", confident (VStr "2025-02-26") false);
                      ("tgl_jatuh_tempo", confident (VStr "") false);
                      ("items", VArr [] [])])]).
Proof.
  destruct (merged_result sample_iso 1740557730000
              [JObj [("nomor_referensi", JStr "SSP318905")];
               JObj [("nama_supplier", JStr "PT SUKSES SEJATI PERKASA")];
               JObj [("items", JArr [JNum 1])]])
    as (nr & ns & tf & jt & Hnr & Hns & Htf & Hjt & H).
  - repeat constructor; exists VUndef; split; reflexivity.
  - rewrite H. vm_compute in Hnr, Hns, Htf, Hjt.
    inversion Hnr; inversion Hns; inversion Htf; inversion Hjt; subst.
    reflexivity.
Defined.

Lemma normalize_single_ok iso s t j :
  j <> JNull -> (forall l, j <> JArr l) ->
  exists r, normalize iso s t (of_json j) = inr r.
Proof.
  intros Hnull Harr. unfold normalize.
  assert (Hb : select_base iso s t (of_json j) = inr (of_json j))
    by (destruct j; try reflexivity; now elim (Harr elems)).
  rewrite Hb. cbn [bindE].
  assert (Hw : exists w, ensure_output (of_json j) = inr w).
  { unfold ensure_output. destruct j; simpl; try (eexists; reflexivity).
    - now elim Hnull.
    - destruct (truthy _); eexists; reflexivity. }
  destruct Hw as [w Hw]. rewrite Hw. cbn [bindE].
  destruct (ensure_output_json j w Hw) as (ps & o & -> & Hps & Ho).
  rewrite (backfill_spec iso t ps o Hps Ho). eexists. reflexivity.
Qed.

(** X5. The only payloads the worker's normalizer throws on are [null]
    and arrays in which a [null] element comes before any element with an
    [output]; the error is the TypeError of reading [output] of [null].
    Everything else, primitives and empty arrays included, is absorbed. *)
Theorem worker_normalize_throws iso t j e :
  normalize iso Worker t (of_json j) = inl e <->
  e = TypeError "Cannot read properties of null (reading 'output')" /\
  (j = JNull \/
   exists l1 l2, j = JArr (l1 ++ JNull :: l2) /\
                 Forall (fun y => no_output (of_json y)) l1).
Proof.
  split.
  - intros H. destruct j as [| | | |l|ms].
    + inversion H. auto.
    + destruct (normalize_single_ok iso Worker t (JBool b)) as [r Hr];
        [discriminate|discriminate|congruence].
    + destruct (normalize_single_ok iso Worker t (JNum n)) as [r Hr];
        [discriminate|discriminate|congruence].
    + destruct (normalize_single_ok iso Worker t (JStr s)) as [r Hr];
        [discriminate|discriminate|congruence].
    + destruct (find_output (List.map of_json l)) as [e'|v] eqn:E.
      * unfold normalize in H. cbn [of_json select_base] in H. rewrite E in H.
        simpl in H. inversion H; subst e'.
        destruct (find_output_throws_json l e E) as (He & l1 & l2 & -> & Hl1).
        split; [exact He|]. right. now exists l1, l2.
      * exfalso. destruct (find_output_json l v E) as [->|Hb].
        -- apply find_output_undef_json in E.
           destruct (merge_absorbed iso t l E) as [r Hn]. congruence.
        -- destruct Hb as (ps & o & -> & Hps & Ho).
           unfold normalize in H. cbn [of_json select_base] in H. rewrite E in H.
           cbn [bindE truthy] in H.
           rewrite (ensure_output_based (VObj ps)) in H by now exists ps, o.
           cbn [bindE] in H. rewrite (backfill_spec iso t ps o Hps Ho) in H.
           discriminate.
    + destruct (normalize_single_ok iso Worker t (JObj ms)) as [r Hr];
        [discriminate|discriminate|congruence].
  - intros (-> & [->|(l1 & l2 & -> & Hl1)]); [reflexivity|].
    unfold normalize. cbn [of_json select_base].
    rewrite List.map_app. rewrite find_output_passes by now apply Forall_map_no_output.
    reflexivity.
Qed.

(** X6. The two copies of the normalizer give the same answer on every
    payload except arrays without any [output]-carrying element: there the
    copy in [processQueuedFile] throws a ReferenceError where the worker
    returns the merged result. *)
Theorem trigger_copy_differs iso t j :
  ((forall l, j = JArr l -> ~ Forall (fun y => no_output (of_json y)) l) ->
   normalize iso Trigger t (of_json j) = normalize iso Worker t (of_json j)) /\
  (forall l, j = JArr l -> Forall (fun y => no_output (of_json y)) l ->
     normalize iso Trigger t (of_json j)
     = inl (ReferenceError "findPropertyInArray is not defined") /\
     exists r, normalize iso Worker t (of_json j) = inr r).
Proof.
  split.
  - intros Hno. destruct j as [| | | |l|ms]; try reflexivity.
    unfold normalize. cbn [of_json select_base].
    destruct (find_output (List.map of_json l)) as [e|v] eqn:E; [reflexivity|].
    destruct (find_output_json l v E) as [->|(ps & o & -> & _)]; [|reflexivity].
    exfalso. apply (Hno l eq_refl). now apply find_output_undef_json.
  - intros l -> Hl. split.
    + unfold normalize. cbn [of_json select_base].
      rewrite (find_output_none _ (Forall_map_no_output l Hl)). reflexivity.
    + exact (merge_absorbed iso t l Hl).
Qed.

(** X7. [findPropertyInArray] goes through the elements in order and, in
    each, looks at the element before its [output]: past elements that
    have the property neither way, it returns the first element's own
    property if that is truthy, else the one under the element's [output];
    if every element misses the property it returns [null]. *)
Theorem findPropertyInArray_order k l1 x l2 :
  Forall (misses k) l1 ->
  (has x k = true -> x <> VNull -> x <> VUndef ->
   findPropertyInArray (l1 ++ x :: l2) k = inr (field x k)) /\
  (forall o, has x k = false -> get x "output" = inr o -> truthy o = true ->
             has o k = true ->
             findPropertyInArray (l1 ++ x :: l2) k = inr (field o k)) /\
  findPropertyInArray l1 k = inr VNull.
Proof.
  intros Hl1. split; [|split].
  - intros Hk Hn Hu. rewrite findPropertyInArray_passes by exact Hl1. simpl.
    assert (Hg : get x k = inr (field x k)) by (destruct x; simpl; congruence).
    rewrite Hg. simpl. unfold has in Hk. now rewrite Hk.
  - intros o Hk Hget Ho Hok. rewrite findPropertyInArray_passes by exact Hl1. simpl.
    assert (Hg : get x k = inr (field x k))
      by (destruct x; simpl in *; congruence).
    rewrite Hg. simpl. unfold has in Hk. rewrite Hk, Hget. simpl. rewrite Ho.
    rewrite (get_truthy o k Ho). simpl. unfold has in Hok. now rewrite Hok.
  - rewrite <- (app_nil_r l1). now rewrite findPropertyInArray_passes.
Qed.

Lemma findPropertyInArray_order_witness :
  findPropertyInArray
    [VObj [("output", VObj [("nama_supplier", VStr "PT A")])];
     VObj [("nomor_referensi", VStr "SSP318905");
           ("output", VObj [("nomor_referensi", VStr "nested")])]]
    "nomor_referensi"
  = inr (VStr "SSP318905").
Proof.
  destruct (findPropertyInArray_order "nomor_referensi"
              [VObj [("output", VObj [("nama_supplier", VStr "PT A")])]]
              (VObj [("nomor_referensi", VStr "SSP318905");
                     ("output", VObj [("nomor_referensi", VStr "nested")])]) [])
    as (H & _ & _).
  - repeat constructor. eexists _, _. repeat split; reflexivity.
  - apply H; [reflexivity|discriminate|discriminate].
Defined.

(** ** One job, one record *)

Lemma replay_other fileId store l id :
  Forall (ok_event fileId) l -> id <> fileId ->
  replay store l !! id = store !! id.
Proof.
  intros Hl Hid. induction Hl as [|e l He _ IH]; simpl; [reflexivity|].
  destruct e as [i [r|q]| | | | |]; simpl in *; auto; try contradiction.
  destruct He as [-> _]. now rewrite lookup_insert_ne.
Qed.

Lemma replay_keeps store l id :
  is_Some (store !! id) -> is_Some (replay store l !! id).
Proof.
  intros Hs. induction l as [|e l IH]; simpl; [exact Hs|].
  destruct e; auto.
  destruct (decide (fileId = id)) as [->|Hne].
  - rewrite lookup_insert_eq. eauto.
  - now rewrite lookup_insert_ne.
Qed.

(** X8. A run writes no record but its own job's: the records of all
    other ids are after the run what they were before it, and no record is
    ever removed from the store. *)
Theorem run_touches_own_record h c j store t :
  (forall id, id <> job_id j ->
     processingStatus (snd (run h c j store t)) !! id = store !! id) /\
  (forall id, is_Some (store !! id) ->
     is_Some (processingStatus (snd (run h c j store t)) !! id)).
Proof.
  destruct (run_disciplined h c j store t) as (H1 & _ & H3 & _).
  rewrite H1. split.
  - intros id Hid. eapply replay_other; eauto.
  - intros id. apply replay_keeps.
Qed.

(** ** Mock data on request *)

(** X9. With mock data asked for (development mode and
    [USE_MOCK_DATA=true]) the worker never opens the file and sends no
    request: it records [processing], then [completed] with the mock
    result, deletes the upload, and hands that result to its caller. *)
Theorem mock_mode_skips_ocr h c fileId filePath originalname store t :
  USE_MOCK_DATA c = true ->
  let mockResult := createMockResult (toISOString h t) fileId originalname in
  let fileInfo := VObj [("id", VStr fileId); ("name", VStr originalname);
                        ("path", VStr filePath)] in
  fst (processingQueue h c fileId filePath originalname store t)
  = Resolved mockResult /\
  rev (log (snd (processingQueue h c fileId filePath originalname store t)))
  = [StoreSet fileId (beat_record fileId 0 fileInfo (toISOString h t));
     StoreSet fileId (completed_record fileId mockResult fileInfo (toISOString h t));
     Unlink filePath] /\
  getFileStatus
    (processingStatus (snd (processingQueue h c fileId filePath originalname store t)))
    fileId
  = Stored (completed_record fileId mockResult fileInfo (toISOString h t)).
Proof.
  intros Hmock mockResult fileInfo. unfold processingQueue.
  destruct (worker_body h c fileId filePath originalname (start store t))
    as [r s] eqn:E.
  assert (H : r = inr (Resolved mockResult) /\ progressInterval s = false /\
              log s = [Unlink filePath;
                       StoreSet fileId
                         (completed_record fileId mockResult fileInfo (toISOString h t));
                       StoreSet fileId
                         (beat_record fileId 0 fileInfo (toISOString h t))] /\
              processingStatus s !! fileId
              = Some (completed_record fileId mockResult fileInfo (toISOString h t))).
  { unfold worker_body, try_catch, bind in E. rewrite Hmock in E.
    cbn in E. inversion E; subst r s. repeat split. cbn.
    apply lookup_insert_eq. }
  destruct H as (-> & Hoff & Hlog & Hrec).
  destruct (wait_off h fileId fileInfo (idle h) s Hoff) as [Hs Hl].
  cbn [fst snd]. fold fileInfo. rewrite Hl, Hlog.
  split; [reflexivity|]. split; [reflexivity|].
  unfold getFileStatus. now rewrite Hs, Hrec.
Qed.

Lemma mock_mode_skips_ocr_witness :
  fst (processingQueue sample_host
         {| OCR_API_ENDPOINT := OCR_API_ENDPOINT sample_config;
            FALLBACK_OCR_API_ENDPOINT := FALLBACK_OCR_API_ENDPOINT sample_config;
            IS_DEV_MODE := true; mock_requested := true |}
         "job-2" "uploads/faktur.pdf" "faktur.pdf" ∅ 1740557730000)
  = Resolved (createMockResult (sample_iso 1740557730000) "job-2" "faktur.pdf").
Proof.
  apply (mock_mode_skips_ocr sample_host
           {| OCR_API_ENDPOINT := OCR_API_ENDPOINT sample_config;
              FALLBACK_OCR_API_ENDPOINT := FALLBACK_OCR_API_ENDPOINT sample_config;
              IS_DEV_MODE := true; mock_requested := true |}
           "job-2" "uploads/faktur.pdf" "faktur.pdf" ∅ 1740557730000).
  reflexivity.
Defined.

(** ** What the caller hears and what the store says *)

Lemma hoare_any {A} (m : M A) : hoare (fun _ => True) m (fun _ _ => True).
Proof. intros s _. exact Logic.I. Qed.

Lemma hoare_bind_loose {A B} (P : state -> Prop) (m : M A) (k : A -> M B)
    (Q : exn + A -> state -> Prop) (R : exn + B -> state -> Prop) :
  hoare P m Q -> (forall e s, R (inl e) s) ->
  (forall a, hoare (Q (inr a)) (k a) R) ->
  hoare P (bind m k) R.
Proof. intros Hm He Hk. eapply hoare_bind; eauto. Qed.

Lemma written_in i r l : In (StoreSet i (Updated r)) l -> In r (written l).
Proof.
  induction l as [|e l IH]; simpl; [tauto|].
  intros [->|H]; [now left|].
  destruct e as [? [?|?]| | | | |]; simpl; auto.
Qed.

Section Accounting.

Variable h : host.
Variable c : config.
Variable fileId : string.

Lemma period_log_grows fileInfo e s :
  In e (log s) -> In e (log (period h fileId fileInfo s)).
Proof.
  intros H. unfold period. cbn [progressInterval with_clock].
  destruct (progressInterval s); [|exact H].
  unfold on_interval. cbn [progress with_progress with_clock].
  destruct (progress s + 5 <=? 90)%Z; cbn; auto.
Qed.

Lemma wait_log_grows fileInfo n e s :
  In e (log s) -> In e (log (wait h fileId fileInfo n s)).
Proof.
  revert s. induction n as [|n IH]; simpl; intros s H; [exact H|].
  apply IH. now apply period_log_grows.
Qed.

Lemma last_resort_accounted filename fileInfo cleanup lastError :
  preserves (fun s => progressInterval s = false) cleanup ->
  hoare (fun _ => True)
    (last_resort h c fileId filename fileInfo cleanup lastError)
    (accounted_or_thrown fileId).
Proof.
  intros Hclean s _. unfold last_resort.
  destruct (IS_DEV_MODE c).
  - unfold bind, now, clearInterval. cbn [fst snd].
    pose proof (Hclean (with_interval false s) eq_refl) as Hc.
    destruct (cleanup (with_interval false s)) as [[e|[]] s1]; cbn in *;
      [exact Logic.I|].
    split; [exact Hc|]. eexists _, _. apply lookup_insert_eq.
  - unfold bind, clearInterval. cbn [fst snd].
    destruct (cleanup (with_interval false s)) as [[e|[]] s1]; cbn;
      [exact Logic.I|].
    destruct lastError as [e|]; cbn; [|exact Logic.I].
    eexists. split; [left; reflexivity|]. repeat split.
Qed.

Lemma call_ocr_accounted filename fileInfo path cleanup :
  preserves (fun s => progressInterval s = false) cleanup ->
  hoare (fun _ => True) (call_ocr h c fileId filename fileInfo path cleanup)
    (accounted_if_settled fileId).
Proof.
  intros Hclean. unfold call_ocr.
  eapply hoare_bind_loose; [apply hoare_any|intros; exact Logic.I|].
  intros [[ocrData|] lastError].
  { apply hoare_ret. intros; exact Logic.I. }
  eapply hoare_bind_loose; [apply hoare_any|intros; exact Logic.I|intros ?].
  destruct (negb _).
  - eapply hoare_bind_loose; [apply hoare_any|intros; exact Logic.I|].
    intros [fallbackError|ocrData].
    + eapply hoare_bind_loose; [apply hoare_any|intros; exact Logic.I|intros ?].
      eapply hoare_bind_loose;
        [now apply last_resort_accounted|intros; exact Logic.I|].
      intros o. apply hoare_ret. intros s H. exact H.
    + apply hoare_ret. intros; exact Logic.I.
  - eapply hoare_bind_loose;
      [now apply last_resort_accounted|intros; exact Logic.I|].
    intros o. apply hoare_ret. intros s H. exact H.
Qed.

Lemma finish_worker_accounted filePath originalname fileInfo ocrData :
  hoare (fun _ => True)
    (finish_worker h fileId filePath originalname fileInfo ocrData)
    (accounted_or_thrown fileId).
Proof.
  intros s _. unfold finish_worker, bind, now, lift. cbn [fst snd].
  destruct (normalize _ _ _ _) as [e|p]; cbn [fst snd]; [exact Logic.I|].
  destruct (debug_log p) as [e|[]]; cbn; [exact Logic.I|].
  split; [reflexivity|]. eexists _, _. apply lookup_insert_eq.
Qed.

Lemma finish_trigger_accounted originalFilename tempFilePath ocrData :
  hoare (fun _ => True)
    (finish_trigger h fileId originalFilename tempFilePath ocrData)
    (accounted_or_thrown fileId).
Proof.
  intros s _. unfold finish_trigger, bind, now, lift. cbn [fst snd].
  destruct (normalize _ _ _ _); cbn; [exact Logic.I|].
  split; [reflexivity|]. eexists _, _. apply lookup_insert_eq.
Qed.

Lemma handler_accounted error :
  hoare (fun _ => True)
    (updateStatus h fileId "error" (VObj [("message", VStr (message error))]) 0
       VNull ;;;
     ret (Rejected error))
    (fun r s => exists o, r = inr o /\ accounted fileId o s).
Proof.
  intros s _. cbn. eexists. split; [reflexivity|].
  eexists. split; [left; reflexivity|]. repeat split.
Qed.

Lemma unit_step (m : M unit) :
  (forall s, fst (m s) = inr tt) ->
  hoare (fun _ : state => True) m (fun r _ => True /\ r = inr tt).
Proof. intros H s _. split; [exact Logic.I|apply H]. Qed.

Lemma worker_body_accounted filePath originalname :
  hoare (fun _ => True) (worker_body h c fileId filePath originalname)
    (fun r s => exists o, r = inr o /\ accounted fileId o s).
Proof.
  unfold worker_body.
  eapply hoare_bind_unit with (Q := fun _ => True); [now apply unit_step|].
  eapply hoare_bind_unit with (Q := fun _ => True); [now apply unit_step|].
  eapply hoare_try with (Q := accounted_or_thrown fileId).
  - destruct (USE_MOCK_DATA c).
    + intros s _. cbn. split; [reflexivity|]. eexists _, _. apply lookup_insert_eq.
    + eapply hoare_bind_loose; [apply hoare_any|intros; exact Logic.I|intros ?].
      eapply hoare_bind_loose;
        [apply call_ocr_accounted; apply preserves_ret|intros; exact Logic.I|].
      intros [o|ocrData].
      * apply hoare_ret. intros s H. exact H.
      * eapply hoare_conseq; [apply finish_worker_accounted|auto|auto].
  - intros o s H. now exists o.
  - intros e. eapply hoare_conseq; [apply handler_accounted|auto|auto].
Qed.

Lemma trigger_body_accounted :
  hoare (fun _ => True) (trigger_body h c fileId)
    (fun r s => exists o, r = inr o /\ accounted fileId o s).
Proof.
  unfold trigger_body.
  eapply hoare_try with (Q := accounted_or_thrown fileId).
  - eapply hoare_bind_loose; [apply hoare_any|intros; exact Logic.I|].
    intros [[r|q]|]; try (apply hoare_throw; intros; exact Logic.I).
    unfold trigger_pipeline.
    eapply hoare_bind_unit with (Q := fun _ => True); [now apply unit_step|].
    eapply hoare_bind_unit with (Q := fun _ => True); [now apply unit_step|].
    eapply hoare_bind_loose; [apply hoare_any|intros; exact Logic.I|intros ?].
    eapply hoare_bind_loose; [apply hoare_any|intros; exact Logic.I|intros ?].
    eapply hoare_bind_loose;
      [apply call_ocr_accounted|intros; exact Logic.I|].
    + intros s Hs. exact Hs.
    + intros [o|ocrData].
      * apply hoare_ret. intros s H. exact H.
      * eapply hoare_conseq; [apply finish_trigger_accounted|auto|auto].
  - intros o s H. now exists o.
  - intros e. eapply hoare_conseq; [apply handler_accounted|auto|auto].
Qed.

End Accounting.

Lemma run_accounted h c j store t :
  match fst (run h c j store t) with
  | Resolved v =>
      exists fileInfo updatedAt,
        processingStatus (snd (run h c j store t)) !! job_id j
        = Some (completed_record (job_id j) v fileInfo updatedAt)
  | Rejected e => failed_as (job_id j) e (snd (run h c j store t))
  end.
Proof.
  destruct j as [fileId filePath originalname|fileId]; simpl.
  - unfold processingQueue.
    pose proof (worker_body_accounted h c fileId filePath originalname
                  (start store t) Logic.I) as H.
    destruct (worker_body h c fileId filePath originalname (start store t))
      as [r s]. cbn [fst snd] in *.
    destruct H as (o & -> & Ho). destruct o as [v|e]; simpl in *.
    + destruct Ho as (Hoff & fi & ts & Hrec). exists fi, ts.
      destruct (wait_off h fileId
                  (VObj [("id", VStr fileId); ("name", VStr originalname);
                         ("path", VStr filePath)]) (idle h) s Hoff) as [Hs _].
      now rewrite Hs.
    + destruct Ho as (r & Hin & Hr). exists r. split; [|exact Hr].
      now apply wait_log_grows.
  - unfold processQueuedFile.
    pose proof (trigger_body_accounted h c fileId (start store t) Logic.I) as H.
    destruct (trigger_body h c fileId (start store t)) as [r s].
    cbn [fst snd] in *.
    destruct H as (o & -> & Ho). destruct o as [v|e]; simpl in *.
    + destruct Ho as (Hoff & fi & ts & Hrec). exists fi, ts.
      destruct (wait_off h fileId VNull (idle h) s Hoff) as [Hs _].
      now rewrite Hs.
    + destruct Ho as (r & Hin & Hr). exists r. split; [|exact Hr].
      now apply wait_log_grows.
Qed.

(** X10. What the caller hears agrees with what the store says. When a
    run resolves with a result, the record of the job is [completed] at
    progress 100 with exactly that result, and stays so (the timer is
    off); when a run rejects with an error, the run has written an [error]
    record at progress 0 carrying that error's message. *)
Theorem outcome_recorded h c j store t :
  (forall v, fst (run h c j store t) = Resolved v ->
     exists fileInfo updatedAt,
       getFileStatus (processingStatus (snd (run h c j store t))) (job_id j)
       = Stored (completed_record (job_id j) v fileInfo updatedAt)) /\
  (forall e, fst (run h c j store t) = Rejected e ->
     exists r, In r (writes (snd (run h c j store t))) /\
               rec_status r = "error" /\ rec_progress r = 0 /\
               rec_result r = VObj [("message", VStr (message e))]).
Proof.
  pose proof (run_accounted h c j store t) as H. split.
  - intros v Hv. rewrite Hv in H. destruct H as (fi & ts & H).
    exists fi, ts. unfold getFileStatus. now rewrite H.
  - intros e He. rewrite He in H. destruct H as (r & Hin & Hr).
    exists r. split; [|exact Hr]. unfold writes. apply in_rev.
    rewrite rev_involutive. eapply written_in; eauto.
Qed.

(** ** The progress timer after a caught error *)

Section Timer.

Variable h : host.
Variable fileId : string.
Variable fileInfo : value.

Lemma period_beats s k :
  progressInterval s = true -> progress s = 5 * k -> k <= 17 ->
  progressInterval (period h fileId fileInfo s) = true /\
  progress (period h fileId fileInfo s) = 5 * (k + 1) /\
  processingStatus (period h fileId fileInfo s) !! fileId
  = Some (beat_record fileId (5 * (k + 1)) fileInfo
            (toISOString h (clock s + 1000))).
Proof.
  intros Ha Hp Hk. unfold period. cbn [progressInterval with_clock]. rewrite Ha.
  unfold on_interval. cbn [progress with_progress with_clock]. rewrite Hp.
  destruct (Z.leb_spec (5 * k + 5) 90); [|lia].
  cbn. split; [exact Ha|]. split; [lia|].
  rewrite lookup_insert_eq. unfold beat_record. do 3 f_equal. lia.
Qed.

Lemma period_expires s :
  progressInterval s = true -> progress s = 90 ->
  progressInterval (period h fileId fileInfo s) = false /\
  progress (period h fileId fileInfo s) = 95 /\
  processingStatus (period h fileId fileInfo s) = processingStatus s.
Proof.
  intros Ha Hp. unfold period. cbn [progressInterval with_clock]. rewrite Ha.
  unfold on_interval. cbn [progress with_progress with_clock]. rewrite Hp.
  cbn. auto.
Qed.

Lemma wait_off_timer n s :
  progressInterval s = false ->
  progressInterval (wait h fileId fileInfo n s) = false /\
  progress (wait h fileId fileInfo n s) = progress s.
Proof.
  revert s. induction n as [|n IH]; simpl; intros s Hoff; [auto|].
  unfold period. cbn [progressInterval with_clock]. rewrite Hoff.
  destruct (IH (with_clock (clock s + 1000) s) Hoff) as [H1 H2].
  now rewrite H1, H2.
Qed.

Lemma wait_expired n s :
  progressInterval s = true -> progress s = 90 ->
  processingStatus (wait h fileId fileInfo n s) = processingStatus s.
Proof.
  intros Ha Hp. destruct n as [|n]; simpl; [reflexivity|].
  destruct (period_expires s Ha Hp) as (Hoff & _ & Hs).
  destruct (wait_off h fileId fileInfo n _ Hoff) as [H _]. now rewrite H.
Qed.

(** The timer after [n] periods, started armed at progress [5 * k]. *)
Lemma wait_timer n s k :
  progressInterval s = true -> progress s = 5 * k -> 0 <= k <= 18 ->
  progress (wait h fileId fileInfo n s) = 5 * Z.min (k + Z.of_nat n) 19 /\
  progressInterval (wait h fileId fileInfo n s) = (k + Z.of_nat n <=? 18)%Z.
Proof.
  revert s k. induction n as [|n IH]; intros s k Ha Hp Hk.
  - simpl. rewrite Z.add_0_r, Ha. split; [lia|].
    symmetry. apply Z.leb_le. lia.
  - cbn [wait]. destruct (Z.eq_dec k 18) as [->|Hne].
    + destruct (period_expires s Ha Hp) as (Hoff & Hp' & _).
      destruct (wait_off_timer n _ Hoff) as [H1 H2].
      rewrite H1, H2, Hp'. split; [lia|]. symmetry. apply Z.leb_gt. lia.
    + destruct (period_beats s k Ha Hp) as (Ha' & Hp' & _); [lia|].
      destruct (IH _ (k + 1) Ha' Hp') as [H1 H2]; [lia|].
      rewrite H1, H2. split; [f_equal; f_equal; lia|f_equal; lia].
Qed.

(** The record the timer leaves after [n >= 1] periods, started armed at
    progress [5 * k] below 90. *)
Lemma wait_beats n s k :
  progressInterval s = true -> progress s = 5 * k -> 0 <= k <= 17 ->
  (1 <= n)%nat ->
  exists updatedAt,
    processingStatus (wait h fileId fileInfo n s) !! fileId
    = Some (beat_record fileId (5 * Z.min (k + Z.of_nat n) 18) fileInfo updatedAt).
Proof.
  revert s k. induction n as [|n IH]; intros s k Ha Hp Hk Hn; [lia|].
  cbn [wait]. destruct (period_beats s k Ha Hp) as (Ha' & Hp' & Hs'); [lia|].
  destruct n as [|n].
  - simpl. eexists. rewrite Hs'. do 2 f_equal. lia.
  - destruct (Z.eq_dec k 17) as [->|Hne].
    + rewrite (wait_expired (S n) _ Ha' Hp'). eexists. rewrite Hs'.
      do 2 f_equal. lia.
    + destruct (IH _ (k + 1) Ha' Hp') as [ts Hts]; [lia|lia|].
      exists ts. rewrite Hts. do 2 f_equal. lia.
Qed.

End Timer.

(** X11. A triggered job whose temporary file cannot be written rejects
    with the file system's error without opening a file or sending a
    request, and records [error]. The timer armed before the write is never
    cleared: one second later the record says [processing] again, and
    progress climbs by 5 a second up to 90, where it stays. *)
Theorem write_fault_leaves_processing h c fileId store t q msg :
  store !! fileId = Some (Buffered q) -> write_fault h = Some msg ->
  fst (processQueuedFile h c fileId store t) = Rejected (Error msg) /\
  attempts (snd (processQueuedFile h c fileId store t)) = [] /\
  (idle h = 0%nat ->
   getFileStatus (processingStatus (snd (processQueuedFile h c fileId store t)))
     fileId
   = Stored (error_record h fileId msg t)) /\
  ((1 <= idle h)%nat ->
   exists updatedAt,
     getFileStatus (processingStatus (snd (processQueuedFile h c fileId store t)))
       fileId
     = Stored (beat_record fileId (5 * Z.min (Z.of_nat (idle h)) 18) VNull
                 updatedAt)).
Proof.
  intros Hq Hw. unfold processQueuedFile.
  destruct (trigger_body h c fileId (start store t)) as [r s] eqn:E.
  assert (H : r = inr (Rejected (Error msg)) /\ progressInterval s = true /\
              progress s = 5 * 0 /\ attempted [] s /\
              processingStatus s !! fileId = Some (error_record h fileId msg t)).
  { unfold trigger_body, try_catch, bind in E. cbn [start processingStatus] in E.
    rewrite Hq in E. unfold trigger_pipeline, write_temp, bind in E.
    rewrite Hw in E. cbn in E. inversion E; subst r s.
    repeat split. cbn. apply lookup_insert_eq. }
  destruct H as (-> & Ha & Hp & Hatt & Hrec). cbn [fst snd].
  split; [reflexivity|]. split.
  - unfold attempts.
    rewrite (wait_stable h fileId quiet _ (attempted_stable h fileId []) VNull
               (idle h) s); auto. now left.
  - split.
    + intros Hidle. rewrite Hidle. simpl. unfold getFileStatus. now rewrite Hrec.
    + intros Hidle.
      destruct (wait_beats h fileId VNull (idle h) s 0 Ha Hp) as [ts Hts];
        [lia|exact Hidle|].
      exists ts. unfold getFileStatus. rewrite Hts. reflexivity.
Qed.

Lemma write_fault_leaves_processing_witness :
  exists updatedAt,
    getFileStatus
      (processingStatus
         (snd (processQueuedFile
                 {| toISOString := sample_iso; http := http sample_host;
                    tempDir := tempDir sample_host;
                    path_join := path_join sample_host;
                    write_fault := Some "ENOSPC: no space left on device, write";
                    reset_fault := None; idle := 30 |}
                 sample_config "job-1" sample_store 1740557731000)))
      "job-1"
    = Stored (beat_record "job-1" 90 VNull updatedAt).
Proof.
  destruct (write_fault_leaves_processing
              {| toISOString := sample_iso; http := http sample_host;
                 tempDir := tempDir sample_host;
                 path_join := path_join sample_host;
                 write_fault := Some "ENOSPC: no space left on device, write";
                 reset_fault := None; idle := 30 |}
              sample_config "job-1" sample_store 1740557731000
              {| q_id := "job-1"; q_originalFilename := "faktur.pdf";
                 q_status := "queued"; q_mimetype := "application/pdf";
                 q_queuedAt := sample_iso 1740557730000; q_buffer := [];
                 q_dataSize := 0; q_results := VNull; q_error := VNull |}
              "ENOSPC: no space left on device, write")
    as (_ & _ & _ & H).
  - vm_compute. reflexivity.
  - reflexivity.
  - apply H. simpl. lia.
Defined.

(** X12. When the first answer of the primary endpoint is a body the
    worker's normalizer throws on, the job rejects with that error and
    records [error]; but the catch does not clear the timer. If the answer
    took less than 18 seconds, the next beat overwrites the record with
    [processing], and progress goes on to 90 and stays; only if the timer
    had already run out (18 seconds or more) does the record stay
    [error]. *)
Theorem unabsorbed_body_leaves_processing
    h c fileId filePath originalname store t body e :
  USE_MOCK_DATA c = false ->
  settled (http h (OCR_API_ENDPOINT c) 0) = inr body ->
  (forall t', normalize (toISOString h) Worker t' (of_json body) = inl e) ->
  let n := elapsed (http h (OCR_API_ENDPOINT c) 0) in
  let fileInfo := VObj [("id", VStr fileId); ("name", VStr originalname);
                        ("path", VStr filePath)] in
  fst (processingQueue h c fileId filePath originalname store t) = Rejected e /\
  (idle h = 0%nat \/ (18 <= n)%nat ->
   reply_status
     (getFileStatus
        (processingStatus
           (snd (processingQueue h c fileId filePath originalname store t)))
        fileId)
   = "error") /\
  ((1 <= idle h)%nat -> (n <= 17)%nat ->
   exists updatedAt,
     getFileStatus
       (processingStatus
          (snd (processingQueue h c fileId filePath originalname store t)))
       fileId
     = Stored (beat_record fileId (5 * Z.min (Z.of_nat (n + idle h)) 18)
                 fileInfo updatedAt)).
Proof.
  intros Hmock Hbody Hthrow n fileInfo. unfold processingQueue. fold fileInfo.
  destruct (worker_body h c fileId filePath originalname (start store t))
    as [r s] eqn:E.
  assert (H : r = inr (Rejected e) /\
              progress s = 5 * Z.min (0 + Z.of_nat n) 19 /\
              progressInterval s = (0 + Z.of_nat n <=? 18)%Z /\
              exists ts,
                processingStatus s !! fileId
                = Some (Updated {| rec_id := fileId; rec_status := "error";
                                   rec_result := VObj [("message", VStr (message e))];
                                   rec_progress := 0; rec_fileInfo := VNull;
                                   rec_updatedAt := ts |})).
  { unfold worker_body, try_catch, bind in E. rewrite Hmock in E.
    fold fileInfo in E.
    cbn [updateStatus setInterval emit fst snd start with_log with_store
         with_interval] in E.
    unfold call_ocr, bind in E. cbn [primary_attempts MAX_RETRIES] in E.
    unfold try_catch, bind, axios_post in E.
    cbn [Nat.ltb Nat.leb ret requests with_log with_store with_interval
         with_requests fst snd start] in E.
    fold n in E. rewrite Hbody in E. cbn [ret fst snd] in E.
    unfold finish_worker, bind, now, lift in E. rewrite Hthrow in E.
    cbn [updateStatus ret fst snd] in E.
    inversion E as [[Hr Hs]]. clear E Hr.
    match type of Hs with
    | with_log _ (with_store _ (wait h fileId fileInfo n ?s0)) = s =>
        destruct (wait_timer h fileId fileInfo n s0 0 eq_refl eq_refl)
          as [Hp Ha]; [lia|]
    end.
    subst s. split; [reflexivity|]. split; [exact Hp|]. split; [exact Ha|].
    eexists. cbn. apply lookup_insert_eq. }
  destruct H as (-> & Hp & Ha & ts & Hrec). cbn [fst snd].
  rewrite Z.add_0_l in Hp, Ha.
  split; [reflexivity|]. split.
  - intros [Hidle|Hn].
    + rewrite Hidle. simpl. unfold getFileStatus. now rewrite Hrec.
    + destruct (Nat.eq_dec n 18%nat) as [Hn18|Hne].
      * rewrite Hn18 in Hp, Ha.
        rewrite (wait_expired h fileId fileInfo (idle h) s Ha Hp).
        unfold getFileStatus. now rewrite Hrec.
      * assert (Hoff : progressInterval s = false)
          by (rewrite Ha; apply Z.leb_gt; lia).
        destruct (wait_off h fileId fileInfo (idle h) s Hoff) as [Hs _].
        rewrite Hs. unfold getFileStatus. now rewrite Hrec.
  - intros Hidle Hn.
    assert (Ha' : progressInterval s = true) by (rewrite Ha; apply Z.leb_le; lia).
    assert (Hp' : progress s = 5 * Z.of_nat n) by (rewrite Hp; f_equal; lia).
    destruct (wait_beats h fileId fileInfo (idle h) s (Z.of_nat n) Ha' Hp')
      as [ts' Hts]; [lia|exact Hidle|].
    exists ts'. unfold getFileStatus. rewrite Hts. do 3 f_equal. lia.
Qed.

Lemma unabsorbed_body_leaves_processing_witness :
  fst (processingQueue (answering_host JNull 3) sample_config
         "job-2" "uploads/faktur.pdf" "faktur.pdf" ∅ 1740557731000)
  = Rejected (TypeError "Cannot read properties of null (reading 'output')") /\
  exists updatedAt,
    getFileStatus
      (processingStatus
         (snd (processingQueue (answering_host JNull 3) sample_config
                 "job-2" "uploads/faktur.pdf" "faktur.pdf" ∅ 1740557731000)))
      "job-2"
    = Stored (beat_record "job-2" 20
                (VObj [("id", VStr "job-2"); ("name", VStr "faktur.pdf");
                       ("path", VStr "uploads/faktur.pdf")]) updatedAt).
Proof.
  destruct (unabsorbed_body_leaves_processing (answering_host JNull 3)
              sample_config "job-2" "uploads/faktur.pdf" "faktur.pdf" ∅
              1740557731000 JNull
              (TypeError "Cannot read properties of null (reading 'output')"))
    as (H1 & _ & H3).
  - reflexivity.
  - reflexivity.
  - intros t'. reflexivity.
  - split; [exact H1|]. apply H3; simpl; lia.
Defined.

(** ** The calls of a run, one by one *)

Section Calls.

Variable h : host.
Variable c : config.
Variable fileId : string.

Lemma called_stable X n : stable h fileId silent (called X n).
Proof.
  split; try (intros; assumption).
  - intros s e He _ _ [H1 H2]. split; [|exact H2]. simpl.
    unfold silent in He. now rewrite He.
  - intros s u He. discriminate He.
Qed.

Lemma open_called path X n :
  hoare (called X n) (emit (CreateReadStream path))
    (fun r s => called (CreateReadStream path :: X) n s /\ r = inr tt).
Proof.
  intros s [H1 H2]. split; [|reflexivity]. split; [|exact H2].
  simpl. now rewrite H1.
Qed.

Lemma notify_called filename e k X n :
  hoare (called X n) (sendFailureNotification fileId filename e k)
    (fun r s => called (Notify fileId filename e k :: X) n s /\ r = inr tt).
Proof.
  intros s [H1 H2]. split; [|reflexivity]. split; [|exact H2].
  simpl. now rewrite H1.
Qed.

Lemma updateStatus_called status result p fileInfo X n :
  hoare (called X n) (updateStatus h fileId status result p fileInfo)
    (fun r s => called X n s /\ r = inr tt).
Proof. intros s H. split; [exact H|reflexivity]. Qed.

Lemma axios_called fileInfo u X n :
  null_or_object fileInfo ->
  hoare (called X n) (axios_post h fileId fileInfo u)
    (fun r s => called (Post u :: X) (S n) s /\
                r = match settled (http h u n) with
                    | inl msg => inl (Error msg)
                    | inr body => inr (of_json body)
                    end).
Proof.
  intros Hfi s [H1 H2]. unfold axios_post. rewrite H2.
  assert (H : called (Post u :: X) (S n)
                (wait h fileId fileInfo (elapsed (http h u n))
                   (with_requests (S n) (with_log (cons (Post u)) s)))).
  { apply (wait_stable h fileId silent _ (called_stable (Post u :: X) (S n))); auto.
    split; [simpl; now rewrite H1|reflexivity]. }
  destruct (settled (http h u n)); simpl; split; auto.
Qed.

Lemma primary_answered fileInfo path budget lastError body X n :
  null_or_object fileInfo ->
  settled (http h (OCR_API_ENDPOINT c) n) = inr body ->
  hoare (called X n)
    (primary_attempts h c fileId fileInfo path (S budget) 0 lastError)
    (fun r s => r = inr (Some (of_json body), lastError) /\
                called (Post (OCR_API_ENDPOINT c) :: X) (S n) s).
Proof.
  intros Hfi Hb. cbn [primary_attempts Nat.ltb Nat.leb].
  set (P := OCR_API_ENDPOINT c) in *.
  eapply hoare_bind with
    (Q := fun (r : exn + (exn + value)) s =>
            called (Post P :: X) (S n) s /\ r = inr (inr (of_json body))).
  - eapply hoare_try with
      (Q := fun (r : exn + (exn + value)) s =>
              called (Post P :: X) (S n) s /\ r = inr (inr (of_json body))).
    + eapply hoare_bind_unit with (Q := called X n).
      { intros s H. simpl. auto. }
      eapply hoare_bind; [apply (axios_called fileInfo P X n Hfi)| |].
      * rewrite Hb. intros e s [_ H]. discriminate H.
      * rewrite Hb. intros a. apply hoare_ret. intros s [H1 H2].
        split; [exact H1|congruence].
    + intros a s H. exact H.
    + intros e s [_ H]. discriminate H.
  - intros e s [_ H]. discriminate H.
  - intros [error|ocrData]; intros s [H1 H2]; [discriminate H2|].
    injection H2 as ->. simpl. auto.
Qed.

(** Where [formData.delete] throws, a turn of the loop after the first
    ends in its [catch] before anything is read or sent. *)
Lemma retries_blocked fileInfo path msg budget retryCount lastError s :
  reset_fault h = Some msg ->
  primary_attempts h c fileId fileInfo path budget (S retryCount) lastError s
  = (inr (None, match budget with
                | O => lastError
                | S _ => Some (TypeError msg)
                end), s).
Proof.
  intros Hr. revert retryCount lastError.
  induction budget as [|budget IH]; intros retryCount lastError; [reflexivity|].
  cbn [primary_attempts Nat.ltb Nat.leb].
  unfold bind at 1. unfold try_catch, bind at 1, reset_stream. rewrite Hr.
  cbn [throw ret fst snd]. rewrite IH. now destruct budget.
Qed.

Lemma primary_blocked fileInfo path msg m budget lastError X n :
  null_or_object fileInfo -> reset_fault h = Some msg ->
  settled (http h (OCR_API_ENDPOINT c) n) = inl m ->
  hoare (called X n)
    (primary_attempts h c fileId fileInfo path (S budget) 0 lastError)
    (fun r s => r = inr (None, match budget with
                               | O => Some (Error m)
                               | S _ => Some (TypeError msg)
                               end) /\
                called (Post (OCR_API_ENDPOINT c) :: X) (S n) s).
Proof.
  intros Hfi Hr Hm. cbn [primary_attempts Nat.ltb Nat.leb].
  set (P := OCR_API_ENDPOINT c) in *.
  eapply hoare_bind with
    (Q := fun (r : exn + (exn + value)) s =>
            called (Post P :: X) (S n) s /\ r = inr (inl (Error m))).
  - eapply hoare_try with
      (Q := fun (r : exn + (exn + value)) s =>
              called (Post P :: X) (S n) s /\ r = inl (Error m)).
    + eapply hoare_bind_unit with (Q := called X n).
      { intros s H. simpl. auto. }
      eapply hoare_bind; [apply (axios_called fileInfo P X n Hfi)| |].
      * rewrite Hm. intros e s [H1 H2]. split; [exact H1|congruence].
      * rewrite Hm. intros a s [_ H]. discriminate H.
    + intros a s [_ H]. discriminate H.
    + intros e. apply hoare_ret. intros s [H1 H2]. split; [exact H1|congruence].
  - intros e s [_ H]. discriminate H.
  - intros [error|ocrData]; intros s [H1 H2]; [|discriminate H2].
    injection H2 as ->. rewrite (retries_blocked fileInfo path msg) by exact Hr.
    simpl. auto.
Qed.

Lemma last_resort_called filename fileInfo cleanup U e X n :
  tidy U cleanup ->
  hoare (called X n) (last_resort h c fileId filename fileInfo cleanup (Some e))
    (fun r s =>
       called (U ++ X)%list n s /\
       if IS_DEV_MODE c
       then exists ts, r = inr (Resolved (createMockResult ts fileId filename))
       else r = inr (Rejected e) /\ failed_for_good fileId e s).
Proof.
  intros Ht s [H1 H2]. unfold last_resort.
  destruct (Ht (with_interval false s)) as (Hr & Hl & Hq & Hi).
  destruct (IS_DEV_MODE c).
  - unfold bind, now, clearInterval.
    destruct (cleanup (with_interval false s)) as [r s'].
    simpl in Hr, Hl, Hq, Hi. subst r. simpl.
    split; [split; simpl; congruence|]. eexists. reflexivity.
  - unfold bind, clearInterval.
    destruct (cleanup (with_interval false s)) as [r s'].
    simpl in Hr, Hl, Hq, Hi. subst r. simpl.
    split; [split; simpl; congruence|]. split; [reflexivity|].
    split; [exact Hi|]. eexists. apply lookup_insert_eq.
Qed.

(** An answer to the first request comes back as [ocrData]: nobody is
    notified and the fallback is not tried. *)
Lemma call_ocr_answered filename fileInfo path cleanup body X :
  null_or_object fileInfo ->
  settled (http h (OCR_API_ENDPOINT c) 0) = inr body ->
  hoare (called X 0) (call_ocr h c fileId filename fileInfo path cleanup)
    (fun r s => r = inr (inr (of_json body)) /\
                called (Post (OCR_API_ENDPOINT c) :: X) 1 s).
Proof.
  intros Hfi Hb. unfold call_ocr.
  eapply hoare_bind;
    [apply (primary_answered fileInfo path MAX_RETRIES None body X 0 Hfi Hb)| |].
  - intros e s [H _]. discriminate H.
  - intros [[ocrData|] lastError]; intros s [H1 H2]; [|discriminate H1].
    injection H1 as -> ->. simpl. auto.
Qed.

(** Where [formData.delete] throws and the first request fails, no other
    request is sent: the retries and the fallback end in their [catch]
    before their request, and the error notified and reported is the
    TypeError of the missing method. *)
Lemma call_ocr_blocked filename fileInfo path cleanup U msg m X :
  null_or_object fileInfo -> tidy U cleanup ->
  reset_fault h = Some msg ->
  settled (http h (OCR_API_ENDPOINT c) 0) = inl m ->
  let same := String.eqb (OCR_API_ENDPOINT c) (FALLBACK_OCR_API_ENDPOINT c) in
  let e := TypeError msg in
  hoare (called X 0) (call_ocr h c fileId filename fileInfo path cleanup)
    (fun r s =>
       List.filter is_call (log s)
       = (U ++
          (if same then []
           else [Notify fileId filename (Some e) (MAX_RETRIES + 2)]) ++
          Notify fileId filename (Some e) (MAX_RETRIES + 1) ::
          Post (OCR_API_ENDPOINT c) :: X)%list /\
       if IS_DEV_MODE c
       then exists ts,
              r = inr (inl (Resolved (createMockResult ts fileId filename)))
       else r = inr (inl (Rejected e)) /\ failed_for_good fileId e s).
Proof.
  intros Hfi Ht Hr Hm same e. unfold call_ocr.
  set (Y := Post (OCR_API_ENDPOINT c) :: X).
  set (N1 := Notify fileId filename (Some e) (MAX_RETRIES + 1)).
  eapply hoare_bind with
    (Q := fun r s => r = inr (None, Some e) /\ called Y 1 s).
  { apply (primary_blocked fileInfo path msg m MAX_RETRIES None X 0 Hfi Hr Hm). }
  { intros e0 s [H _]. discriminate H. }
  intros [[ocrData|] lastError];
    [intros s [H _]; discriminate H|].
  eapply hoare_conseq with
    (P' := fun s => lastError = Some e /\ called Y 1 s);
    [|intros s [H1 H2]; split; [congruence|exact H2]|intros r s H; exact H].
  intros s0 [-> Hs0]. revert s0 Hs0.
  change (hoare (called Y 1)
            (sendFailureNotification fileId filename (Some e)
               (MAX_RETRIES + 1) ;;;
             if negb same
             then
               f <~ try_catch
                      (reset_stream h path ;;;
                       ocrData <~ axios_post h fileId fileInfo
                                    (FALLBACK_OCR_API_ENDPOINT c) ;;
                       ret (inr ocrData))
                      (fun fallbackError => ret (inl fallbackError)) ;;
               match f with
               | inr ocrData => ret (inr ocrData)
               | inl fallbackError =>
                   sendFailureNotification fileId filename (Some fallbackError)
                     (MAX_RETRIES + 2) ;;;
                   o <~ last_resort h c fileId filename fileInfo cleanup
                          (Some fallbackError) ;;
                   ret (inl o)
               end
             else
               o <~ last_resort h c fileId filename fileInfo cleanup (Some e) ;;
               ret (inl o))
            (fun r s =>
               List.filter is_call (log s)
               = (U ++
                  (if same then []
                   else [Notify fileId filename (Some e) (MAX_RETRIES + 2)]) ++
                  N1 :: Y)%list /\
               if IS_DEV_MODE c
               then exists ts,
                      r = inr (inl (Resolved (createMockResult ts fileId filename)))
               else r = inr (inl (Rejected e)) /\ failed_for_good fileId e s)).
  eapply hoare_bind_unit; [apply notify_called|]. fold N1.
  assert (Hend : forall Z n,
            hoare (called Z n)
              (o <~ last_resort h c fileId filename fileInfo cleanup (Some e) ;;
               ret (inl o : outcome + value))
              (fun r s =>
                 List.filter is_call (log s) = (U ++ Z)%list /\
                 if IS_DEV_MODE c
                 then exists ts,
                        r = inr (inl (Resolved (createMockResult ts fileId filename)))
                 else r = inr (inl (Rejected e)) /\ failed_for_good fileId e s)).
  { intros Z n.
    eapply hoare_bind; [apply (last_resort_called filename fileInfo cleanup U
                                 e Z n Ht)| |].
    - intros e0 s [_ H].
      destruct (IS_DEV_MODE c); [destruct H as [ts H]|destruct H as [H _]];
        discriminate H.
    - intros o. apply hoare_ret. intros s [[H1 _] H2]. split; [exact H1|].
      destruct (IS_DEV_MODE c).
      + destruct H2 as [ts H2]. exists ts. congruence.
      + destruct H2 as [H2 H3]. split; [congruence|exact H3]. }
  destruct same; cbn [negb app].
  - apply Hend.
  - eapply hoare_bind with
      (Q := fun (r : exn + (exn + value)) s =>
              called (N1 :: Y) 1 s /\ r = inr (inl e)).
    + intros s H. unfold try_catch, bind, reset_stream. rewrite Hr.
      cbn [throw ret fst snd]. auto.
    + intros e0 s [_ H]. discriminate H.
    + intros [fallbackError|ocrData]; [|intros s [_ H]; discriminate H].
      eapply hoare_conseq with
        (P' := fun s => fallbackError = e /\ called (N1 :: Y) 1 s);
        [|intros s [H1 H2]; split; [congruence|exact H1]|intros r s H; exact H].
      intros s0 [-> Hs0]. revert s0 Hs0.
      change (hoare (called (N1 :: Y) 1)
                (sendFailureNotification fileId filename (Some e)
                   (MAX_RETRIES + 2) ;;;
                 o <~ last_resort h c fileId filename fileInfo cleanup (Some e) ;;
                 ret (inl o : outcome + value))
                (fun r s =>
                   List.filter is_call (log s)
                   = (U ++ Notify fileId filename (Some e) (MAX_RETRIES + 2)
                      :: N1 :: Y)%list /\
                   if IS_DEV_MODE c
                   then exists ts,
                          r = inr (inl (Resolved (createMockResult ts fileId filename)))
                   else r = inr (inl (Rejected e)) /\
                        failed_for_good fileId e s)).
      eapply hoare_bind_unit; [apply notify_called|]. apply Hend.
Qed.

Lemma tidy_ret : tidy [] (ret tt).
Proof. intros s. simpl. auto. Qed.

Lemma tidy_unlink p : tidy [Unlink p] (unlink p).
Proof. intros s. simpl. auto. Qed.

Lemma finish_worker_finishes filePath originalname fileInfo :
  finishes (toISOString h) Worker fileId []
    (finish_worker h fileId filePath originalname fileInfo).
Proof.
  intros ocrData X n s H. exists (clock s).
  unfold processed, finish_worker, bind, now, lift. cbv beta iota.
  destruct (normalize (toISOString h) Worker (clock s) ocrData) as [e|p];
    cbn [bindE]; cbv beta iota; [split; [reflexivity|exact H]|].
  destruct (debug_log p) as [e|[]]; cbn [bindE]; cbv beta iota;
    [split; [reflexivity|exact H]|].
  eexists. split; [reflexivity|]. split; [reflexivity|]. destruct H as [H1 H2].
  split; [|split; [simpl; now rewrite H1|exact H2]].
  split; [reflexivity|]. eexists _, _. apply lookup_insert_eq.
Qed.

Lemma finish_trigger_finishes originalFilename tempFilePath :
  finishes (toISOString h) Trigger fileId [Unlink tempFilePath]
    (finish_trigger h fileId originalFilename tempFilePath).
Proof.
  intros ocrData X n s H. exists (clock s).
  unfold processed, finish_trigger, bind, now, lift. cbv beta iota.
  destruct (normalize (toISOString h) Trigger (clock s) ocrData) as [e|p];
    cbn [bindE]; cbv beta iota; [split; [reflexivity|exact H]|].
  eexists. split; [reflexivity|]. split; [reflexivity|]. destruct H as [H1 H2].
  split; [|split; [simpl; now rewrite H1|exact H2]].
  split; [reflexivity|]. eexists _, _. apply lookup_insert_eq.
Qed.

(** A run whose first request is answered. *)
Lemma pipeline_answered st filename fileInfo path cleanup U finish body X0 :
  null_or_object fileInfo -> finishes (toISOString h) st fileId U finish ->
  settled (http h (OCR_API_ENDPOINT c) 0) = inr body ->
  hoare (called X0 0)
    (pipeline h c fileId filename fileInfo path cleanup finish)
    (fun r s =>
       exists t',
         match processed (toISOString h) st t' (of_json body) with
         | inl e =>
             r = inr (Rejected e) /\
             called (Post (OCR_API_ENDPOINT c) :: CreateReadStream path :: X0) 1 s
         | inr p =>
             exists res, r = inr (Resolved res) /\ field res "ocrData" = p /\
                         completed_as fileId res s /\
                         called (U ++ Post (OCR_API_ENDPOINT c) ::
                                 CreateReadStream path :: X0)%list 1 s
         end).
Proof.
  intros Hfi Hfin Hb. unfold pipeline.
  set (W := Post (OCR_API_ENDPOINT c) :: CreateReadStream path :: X0).
  eapply hoare_try with
    (Q := fun r s =>
            exists t',
              match processed (toISOString h) st t' (of_json body) with
              | inl e => r = inl e /\ called W 1 s
              | inr p =>
                  exists res, r = inr (Resolved res) /\ field res "ocrData" = p /\
                              completed_as fileId res s /\
                              called (U ++ W)%list 1 s
              end).
  - eapply hoare_bind_unit; [apply (open_called path X0 0)|].
    eapply hoare_bind;
      [apply (call_ocr_answered filename fileInfo path cleanup body
                (CreateReadStream path :: X0) Hfi Hb)| |].
    + intros e s [H _]. discriminate H.
    + intros [o|ocrData]; intros s [H1 H2]; [discriminate H1|].
      injection H1 as ->. now apply Hfin.
  - intros a s [t' H2]. exists t'.
    destruct (processed (toISOString h) st t' (of_json body));
      [destruct H2 as [H2 _]; discriminate H2|exact H2].
  - intros e s [t' H2]. exists t'.
    destruct (processed (toISOString h) st t' (of_json body)) as [e0|p].
    + destruct H2 as [H2 H3]. injection H2 as ->. split; [reflexivity|exact H3].
    + destruct H2 as (res & H2 & _). discriminate H2.
Qed.

(** A run whose first request fails, where [formData.delete] throws. *)
Lemma pipeline_blocked filename fileInfo path cleanup U finish msg m X0 :
  null_or_object fileInfo -> tidy U cleanup ->
  reset_fault h = Some msg ->
  settled (http h (OCR_API_ENDPOINT c) 0) = inl m ->
  let same := String.eqb (OCR_API_ENDPOINT c) (FALLBACK_OCR_API_ENDPOINT c) in
  let e := TypeError msg in
  hoare (called X0 0)
    (pipeline h c fileId filename fileInfo path cleanup finish)
    (fun r s =>
       List.filter is_call (log s)
       = (U ++
          (if same then []
           else [Notify fileId filename (Some e) (MAX_RETRIES + 2)]) ++
          Notify fileId filename (Some e) (MAX_RETRIES + 1) ::
          Post (OCR_API_ENDPOINT c) :: CreateReadStream path :: X0)%list /\
       if IS_DEV_MODE c
       then exists ts,
              r = inr (Resolved (createMockResult ts fileId filename))
       else r = inr (Rejected e) /\ failed_for_good fileId e s).
Proof.
  intros Hfi Ht Hr Hm same e. unfold pipeline.
  assert (Hno : forall A (e0 : exn) (s : state) (f : string -> A) (g : A),
             (if IS_DEV_MODE c then exists ts, inl e0 = inr (f ts)
              else inl e0 = inr g /\ failed_for_good fileId e s) -> False).
  { intros A e0 s f g H.
    destruct (IS_DEV_MODE c); [destruct H as [ts H]|destruct H as [H _]];
      discriminate H. }
  match goal with
  | |- hoare _ _ ?post => eapply hoare_try with (Q := post)
  end.
  - eapply hoare_bind_unit; [apply (open_called path X0 0)|].
    eapply hoare_bind;
      [apply (call_ocr_blocked filename fileInfo path cleanup U msg m
                (CreateReadStream path :: X0) Hfi Ht Hr Hm)| |].
    + intros e0 s [_ H]. exfalso. fold same e in H.
      exact (Hno _ e0 s _ _ H).
    + intros [o|ocrData].
      * apply hoare_ret. fold same e. intros s [H1 H2]. split; [exact H1|].
        destruct (IS_DEV_MODE c).
        -- destruct H2 as [ts H2]. exists ts. congruence.
        -- destruct H2 as [H2 H3]. split; [congruence|exact H3].
      * intros s [_ H]. exfalso. fold same e in H.
        destruct (IS_DEV_MODE c); [destruct H as [ts H]|destruct H as [H _]];
          discriminate H.
  - intros a s H. exact H.
  - intros e0 s [_ H]. exfalso. exact (Hno _ e0 s _ _ H).
Qed.

End Calls.

(** A run that gets to call the OCR service is the pipeline, from the
    state its first steps leave, followed by the idle periods. *)
Lemma run_pipeline h c j store t path :
  source_path h c j store = Some path ->
  exists s1 fileInfo fileInfo' cleanup finish,
    called (staged j path) 0 s1 /\
    null_or_object fileInfo /\ null_or_object fileInfo' /\
    tidy (cleared j path) cleanup /\
    finishes (toISOString h) (site_of j) (job_id j) (cleared j path) finish /\
    forall o s,
      pipeline h c (job_id j) (job_filename j store) fileInfo path cleanup
        finish s1 = (inr o, s) ->
      run h c j store t = (o, wait h (job_id j) fileInfo' (idle h) s).
Proof.
  destruct j as [fileId filePath originalname|fileId]; simpl; intros Hsrc.
  - destruct (USE_MOCK_DATA c) eqn:Hmock; [discriminate|].
    injection Hsrc as <-.
    set (fileInfo := VObj [("id", VStr fileId); ("name", VStr originalname);
                           ("path", VStr filePath)]).
    exists (with_interval true
              (snd (updateStatus h fileId "processing" VNull 0 fileInfo
                      (start store t)))),
      fileInfo, fileInfo, (ret tt),
      (finish_worker h fileId filePath originalname fileInfo).
    split; [split; reflexivity|].
    split; [right; eexists; reflexivity|].
    split; [right; eexists; reflexivity|].
    split; [apply tidy_ret|].
    split; [apply finish_worker_finishes|].
    intros o s Hp. unfold processingQueue. fold fileInfo.
    assert (Hb : worker_body h c fileId filePath originalname (start store t)
                 = (inr o, s)).
    { rewrite <- Hp. unfold worker_body, pipeline. rewrite Hmock. reflexivity. }
    now rewrite Hb.
  - destruct (store !! fileId) as [[r|q]|] eqn:Hq; try discriminate.
    destruct (write_fault h) eqn:Hw; [discriminate|].
    injection Hsrc as <-.
    set (path := path_join h (tempDir h) (q_originalFilename q)).
    exists (with_log (cons (WriteFile path))
              (with_interval true
                 (snd (updateStatus h fileId "processing" VNull 0
                         (VObj [("id", VStr fileId);
                                ("name", VStr (q_originalFilename q));
                                ("mimetype", VStr (q_mimetype q))])
                         (start store t))))),
      VNull, VNull, (unlink path),
      (finish_trigger h fileId (q_originalFilename q) path).
    split; [split; reflexivity|].
    split; [now left|]. split; [now left|].
    split; [apply tidy_unlink|].
    split; [apply finish_trigger_finishes|].
    intros o s Hp. unfold processQueuedFile.
    assert (Hb : trigger_body h c fileId (start store t) = (inr o, s)).
    { rewrite <- Hp. unfold trigger_body, pipeline, try_catch.
      unfold bind at 1. cbn [fst snd processingStatus start]. rewrite Hq.
      unfold trigger_pipeline, write_temp. rewrite Hw. reflexivity. }
    now rewrite Hb.
Qed.

Lemma rev_staged j path : rev (staged j path) = staged j path.
Proof. destruct j; reflexivity. Qed.

Lemma rev_cleared j path : rev (cleared j path) = cleared j path.
Proof. destruct j; reflexivity. Qed.

Lemma attempts_of_calls l :
  List.filter is_attempt (List.filter is_call l) = List.filter is_attempt l.
Proof.
  induction l as [|e l IH]; [reflexivity|].
  destruct e; simpl; now rewrite IH.
Qed.

Lemma posted_of_calls l : posted (List.filter is_call l) = posted l.
Proof.
  induction l as [|e l IH]; [reflexivity|].
  destruct e; simpl; now rewrite IH.
Qed.

(** Time going by after a run adds no call. *)
Lemma wait_calls h fileId fileInfo n s :
  null_or_object fileInfo ->
  List.filter is_call (log (wait h fileId fileInfo n s))
  = List.filter is_call (log s).
Proof.
  intros Hfi.
  assert (H : called (List.filter is_call (log s)) (requests s)
                (wait h fileId fileInfo n s)).
  { apply (wait_stable h fileId silent _ (called_stable h fileId _ _));
      [exact Hfi|split; reflexivity]. }
  now destruct H.
Qed.

(** A run whose first request fails, where [formData.delete] throws: its
    calls, newest first, and how it ends. *)
Lemma run_blocked h c j store t path msg m :
  source_path h c j store = Some path -> reset_fault h = Some msg ->
  settled (http h (OCR_API_ENDPOINT c) 0) = inl m ->
  let fileId := job_id j in
  let filename := job_filename j store in
  let same := String.eqb (OCR_API_ENDPOINT c) (FALLBACK_OCR_API_ENDPOINT c) in
  let e := TypeError msg in
  List.filter is_call (log (snd (run h c j store t)))
  = (cleared j path ++
     (if same then []
      else [Notify fileId filename (Some e) (MAX_RETRIES + 2)]) ++
     Notify fileId filename (Some e) (MAX_RETRIES + 1) ::
     Post (OCR_API_ENDPOINT c) :: CreateReadStream path :: staged j path)%list /\
  if IS_DEV_MODE c
  then exists ts,
         fst (run h c j store t) = Resolved (createMockResult ts fileId filename)
  else fst (run h c j store t) = Rejected e /\
       exists updatedAt,
         processingStatus (snd (run h c j store t)) !! fileId
         = Some (failure_record fileId msg updatedAt).
Proof.
  intros Hsrc Hr Hm fileId filename same e.
  destruct (run_pipeline h c j store t path Hsrc)
    as (s1 & fi & fi' & cleanup & finish & Hs1 & Hfi & Hfi' & Htidy & _ & Hrun).
  pose proof (pipeline_blocked h c fileId filename fi path cleanup
                (cleared j path) finish msg m (staged j path)
                Hfi Htidy Hr Hm s1 Hs1) as [Hc Hout].
  fold fileId filename in Hrun.
  destruct (pipeline h c fileId filename fi path cleanup finish s1) as [r s].
  cbn [fst snd] in Hc, Hout. fold same e in Hc, Hout.
  assert (Ho : exists o, r = inr o).
  { destruct (IS_DEV_MODE c).
    - destruct Hout as [ts Ho]. eexists. exact Ho.
    - destruct Hout as [Ho _]. eexists. exact Ho. }
  destruct Ho as [o ->]. rewrite (Hrun o s eq_refl). cbn [fst snd].
  split.
  - rewrite (wait_calls h fileId fi' (idle h) s Hfi'). exact Hc.
  - destruct (IS_DEV_MODE c).
    + destruct Hout as [ts Ho]. exists ts. now injection Ho as ->.
    + destruct Hout as [Ho [Hoff [ts Hlk]]]. injection Ho as ->.
      split; [reflexivity|]. exists ts.
      destruct (wait_off h fileId fi' (idle h) s Hoff) as [Hs _].
      now rewrite Hs, Hlk.
Qed.

(** C3. The retry loop does not retry. [formData.delete('file')], the
    first statement of every retry ("Reset the file stream for retry"), is
    no method of the form-data package, so it throws and the turn ends in
    the loop's [catch] before the file is read again or a request is sent.
    For a run that gets to call the OCR service and whose first request
    fails, the reads and requests of the whole run are one read and one
    post to the primary endpoint, not [MAX_RETRIES + 1] of each. *)
Theorem retries_send_no_request h c j store t path msg m :
  source_path h c j store = Some path -> reset_fault h = Some msg ->
  settled (http h (OCR_API_ENDPOINT c) 0) = inl m ->
  attempts (snd (run h c j store t))
  = [CreateReadStream path; Post (OCR_API_ENDPOINT c)].
Proof.
  intros Hsrc Hr Hm.
  destruct (run_blocked h c j store t path msg m Hsrc Hr Hm) as [Hc _].
  unfold attempts. rewrite <- attempts_of_calls, Hc.
  destruct (String.eqb (OCR_API_ENDPOINT c) (FALLBACK_OCR_API_ENDPOINT c));
    destruct j; reflexivity.
Qed.

Lemma retries_send_no_request_witness :
  attempts
    (snd (run sample_host_without_delete sample_config (BufferJob "job-1")
            sample_store 1740557731000))
  = [CreateReadStream "/app/uploads/temp/faktur.pdf";
     Post (OCR_API_ENDPOINT sample_config)].
Proof.
  apply (retries_send_no_request sample_host_without_delete sample_config
           (BufferJob "job-1") sample_store 1740557731000
           "/app/uploads/temp/faktur.pdf" "formData.delete is not a function"
           "timeout of 600000ms exceeded").
  - reflexivity.
  - reflexivity.
  - reflexivity.
Defined.

(** C4. A fallback endpoint that differs from the primary is never
    called. The fallback's [try] starts with the same
    [formData.delete('file')], which throws before [axios.post]: for a run
    that gets to call the OCR service and whose first request fails, the
    one request of the run is the first, to the primary endpoint, and yet
    the failure of the fallback is notified, with count
    [MAX_RETRIES + 2]. *)
Theorem fallback_sends_no_request h c j store t path msg m :
  source_path h c j store = Some path -> reset_fault h = Some msg ->
  settled (http h (OCR_API_ENDPOINT c) 0) = inl m ->
  OCR_API_ENDPOINT c <> FALLBACK_OCR_API_ENDPOINT c ->
  posts (snd (run h c j store t)) = [OCR_API_ENDPOINT c] /\
  In (Notify (job_id j) (job_filename j store) (Some (TypeError msg))
        (MAX_RETRIES + 2))
     (log (snd (run h c j store t))).
Proof.
  intros Hsrc Hr Hm Hne.
  destruct (run_blocked h c j store t path msg m Hsrc Hr Hm) as [Hc _].
  apply String.eqb_neq in Hne. rewrite Hne in Hc. split.
  - unfold posts. rewrite <- posted_of_calls, Hc. destruct j; reflexivity.
  - apply (proj1 (filter_In is_call _ _)).
    rewrite Hc. apply in_or_app. right. left. reflexivity.
Qed.

Lemma fallback_sends_no_request_witness :
  posts
    (snd (run sample_host_without_delete sample_config
            (FileJob "job-2" "uploads/faktur.pdf" "faktur.pdf") ∅ 1740557731000))
  = [OCR_API_ENDPOINT sample_config].
Proof.
  apply (fallback_sends_no_request sample_host_without_delete sample_config
           (FileJob "job-2" "uploads/faktur.pdf" "faktur.pdf") ∅ 1740557731000
           "uploads/faktur.pdf" "formData.delete is not a function"
           "timeout of 600000ms exceeded").
  - reflexivity.
  - reflexivity.
  - reflexivity.
  - discriminate.
Defined.

(** X13. When the first request to the primary endpoint is answered, the
    run reads the file once and posts it once: nobody is notified and the
    fallback is not called. What the run makes of the answer decides the
    outcome: the job's normalizer and, in the worker, the debug log after
    it. If that throws, the run rejects with the error, and a buffered
    job's temporary file is left behind: the [catch] does not remove it.
    Otherwise the run resolves with a result around the normalized data,
    the record reads [completed], and the temporary file is removed. *)
Theorem first_answer_decides h c j store t path body :
  source_path h c j store = Some path ->
  settled (http h (OCR_API_ENDPOINT c) 0) = inr body ->
  exists t',
    match processed (toISOString h) (site_of j) t' (of_json body) with
    | inl e =>
        fst (run h c j store t) = Rejected e /\
        calls (snd (run h c j store t))
        = (staged j path ++
           [CreateReadStream path; Post (OCR_API_ENDPOINT c)])%list
    | inr p =>
        exists res fileInfo updatedAt,
          fst (run h c j store t) = Resolved res /\
          field res "ocrData" = p /\
          getFileStatus (processingStatus (snd (run h c j store t))) (job_id j)
          = Stored (completed_record (job_id j) res fileInfo updatedAt) /\
          calls (snd (run h c j store t))
          = (staged j path ++
             [CreateReadStream path; Post (OCR_API_ENDPOINT c)] ++
             cleared j path)%list
    end.
Proof.
  intros Hsrc Hb.
  destruct (run_pipeline h c j store t path Hsrc)
    as (s1 & fi & fi' & cleanup & finish & Hs1 & Hfi & Hfi' & _ & Hfin & Hrun).
  pose proof (pipeline_answered h c (job_id j) (site_of j)
                (job_filename j store) fi path cleanup (cleared j path) finish
                body (staged j path) Hfi Hfin Hb s1 Hs1) as [t' Hout].
  destruct (pipeline h c (job_id j) (job_filename j store) fi path cleanup
              finish s1) as [r s].
  cbn [fst snd] in Hout.
  assert (Hr : exists o, r = inr o).
  { destruct (processed (toISOString h) (site_of j) t' (of_json body)).
    - destruct Hout as [Hr _]. eexists. exact Hr.
    - destruct Hout as (res & Hr & _). eexists. exact Hr. }
  destruct Hr as [o ->]. rewrite (Hrun o s eq_refl). cbn [fst snd].
  unfold calls. rewrite (wait_calls h (job_id j) fi' (idle h) s Hfi').
  exists t'.
  destruct (processed (toISOString h) (site_of j) t' (of_json body)) as [e|p].
  - destruct Hout as [Hr [Hc _]]. injection Hr as ->. split; [reflexivity|].
    rewrite Hc. destruct j; reflexivity.
  - destruct Hout as (res & Hr & Hf & [Hoff (fi0 & ts & Hlk)] & [Hc _]).
    injection Hr as ->. exists res, fi0, ts.
    split; [reflexivity|]. split; [exact Hf|]. split.
    + destruct (wait_off h (job_id j) fi' (idle h) s Hoff) as [Hs _].
      unfold getFileStatus. now rewrite Hs, Hlk.
    + rewrite Hc. destruct j; reflexivity.
Qed.

Lemma first_answer_decides_witness :
  exists res,
    fst (run (answering_host sample_invoice 2) sample_config (BufferJob "job-1")
           sample_store 1740557731000)
    = Resolved res /\
    calls
      (snd (run (answering_host sample_invoice 2) sample_config
              (BufferJob "job-1") sample_store 1740557731000))
    = [WriteFile "/app/uploads/temp/faktur.pdf";
       CreateReadStream "/app/uploads/temp/faktur.pdf";
       Post (OCR_API_ENDPOINT sample_config);
       Unlink "/app/uploads/temp/faktur.pdf"].
Proof.
  destruct (first_answer_decides (answering_host sample_invoice 2) sample_config
              (BufferJob "job-1") sample_store 1740557731000
              "/app/uploads/temp/faktur.pdf" sample_invoice)
    as [t' H].
  - reflexivity.
  - reflexivity.
  - destruct (processed (toISOString (answering_host sample_invoice 2))
                (site_of (BufferJob "job-1")) t' (of_json sample_invoice))
      as [e|p] eqn:E.
    + vm_compute in E. discriminate E.
    + destruct H as (res & _ & _ & Hr & _ & _ & Hc). exists res.
      split; [exact Hr|exact Hc].
Defined.

(** An answer whose [output] is a string gets through the worker's
    normalizer and fails in the debug log after it, reading [length] of
    the missing [items]: the worker rejects, where [processQueuedFile],
    which has no such log, completes. *)
Lemma primitive_output_rejected_by_log :
  fst (run (answering_host (JObj [("output", JStr "abc")]) 0) sample_config
         (FileJob "job-2" "uploads/faktur.pdf" "faktur.pdf") ∅ 1740557731000)
  = Rejected (TypeError "Cannot read properties of undefined (reading 'length')") /\
  reply_status
    (getFileStatus
       (processingStatus
          (snd (run (answering_host (JObj [("output", JStr "abc")]) 0)
                  sample_config
                  (FileJob "job-2" "uploads/faktur.pdf" "faktur.pdf") ∅
                  1740557731000)))
       "job-2")
  = "error" /\
  reply_status
    (getFileStatus
       (processingStatus
          (snd (run (answering_host (JObj [("output", JStr "abc")]) 0)
                  sample_config (BufferJob "job-1") sample_store 1740557731000)))
       "job-1")
  = "completed".
Proof. repeat split; vm_compute; reflexivity. Qed.

(** X14. With the form-data package as it is, a failure of the first
    request is final. The retries and the fallback each end at
    [formData.delete] before their request, so the run makes one read and
    one post, notifies the TypeError of the missing method with count
    [MAX_RETRIES + 1] and, if the fallback is another endpoint, again with
    count [MAX_RETRIES + 2], and then removes a buffered job's temporary
    file. Outside development mode the run rejects with that TypeError,
    not with the endpoint's error, and the record stays [error] with its
    message; in development mode it resolves with the mock result. *)
Theorem first_failure_is_final h c j store t path msg m :
  source_path h c j store = Some path -> reset_fault h = Some msg ->
  settled (http h (OCR_API_ENDPOINT c) 0) = inl m ->
  let fileId := job_id j in
  let filename := job_filename j store in
  let same := String.eqb (OCR_API_ENDPOINT c) (FALLBACK_OCR_API_ENDPOINT c) in
  let e := TypeError msg in
  calls (snd (run h c j store t))
  = (staged j path ++
     [CreateReadStream path; Post (OCR_API_ENDPOINT c);
      Notify fileId filename (Some e) (MAX_RETRIES + 1)] ++
     (if same then []
      else [Notify fileId filename (Some e) (MAX_RETRIES + 2)]) ++
     cleared j path)%list /\
  if IS_DEV_MODE c
  then exists ts,
         fst (run h c j store t) = Resolved (createMockResult ts fileId filename)
  else fst (run h c j store t) = Rejected e /\
       exists updatedAt,
         getFileStatus (processingStatus (snd (run h c j store t))) fileId
         = Stored (failure_record fileId msg updatedAt).
Proof.
  intros Hsrc Hr Hm fileId filename same e.
  destruct (run_blocked h c j store t path msg m Hsrc Hr Hm) as [Hc Hout].
  fold fileId filename same e in Hc, Hout. split.
  - unfold calls. rewrite Hc. destruct same; destruct j; reflexivity.
  - destruct (IS_DEV_MODE c); [exact Hout|].
    destruct Hout as [Ho [ts Hlk]]. split; [exact Ho|]. exists ts.
    unfold getFileStatus. now rewrite Hlk.
Qed.

Lemma first_failure_is_final_witness :
  fst (run sample_host_without_delete sample_config
         (FileJob "job-2" "uploads/faktur.pdf" "faktur.pdf") ∅ 1740557731000)
  = Rejected (TypeError "formData.delete is not a function") /\
  calls
    (snd (run sample_host_without_delete sample_config
            (FileJob "job-2" "uploads/faktur.pdf" "faktur.pdf") ∅ 1740557731000))
  = [CreateReadStream "uploads/faktur.pdf"; Post (OCR_API_ENDPOINT sample_config);
     Notify "job-2" "faktur.pdf"
       (Some (TypeError "formData.delete is not a function")) 3;
     Notify "job-2" "faktur.pdf"
       (Some (TypeError "formData.delete is not a function")) 4].
Proof.
  destruct (first_failure_is_final sample_host_without_delete sample_config
              (FileJob "job-2" "uploads/faktur.pdf" "faktur.pdf") ∅
              1740557731000 "uploads/faktur.pdf"
              "formData.delete is not a function" "timeout of 600000ms exceeded")
    as (Hc & Hout & _).
  - reflexivity.
  - reflexivity.
  - reflexivity.
  - split; [exact Hout|exact Hc].
Defined.

(** ** Listing against looking up *)

Lemma entry_ok_id id e : entry_ok id e -> entry_id e = id.
Proof. destruct e; simpl; tauto. Qed.

Lemma listed_ids store :
  store_ok store ->
  entry_id <$> getAllStatuses store = fst <$> map_to_list store.
Proof.
  intros Hok. unfold getAllStatuses. rewrite <- list_fmap_compose.
  apply Forall_fmap_ext_1. apply Forall_forall. intros [id e] Hin.
  apply elem_of_map_to_list in Hin. simpl. now apply entry_ok_id, Hok.
Qed.

(** X15. In every store the service can reach, [getAllStatuses] and
    [getFileStatus] agree: the listing holds exactly the objects that
    [getFileStatus] hands out under their own [id], one object per id. *)
Theorem listing_agrees store :
  reachable store ->
  (forall e, In e (getAllStatuses store) <->
             getFileStatus store (entry_id e) = Stored e) /\
  NoDup (entry_id <$> getAllStatuses store).
Proof.
  intros Hreach. pose proof (reachable_ok store Hreach) as Hok. split.
  - intros e. rewrite <- list_elem_of_In. unfold getAllStatuses, getFileStatus.
    rewrite list_elem_of_fmap. split.
    + intros ([id e'] & -> & Hin). apply elem_of_map_to_list in Hin. simpl.
      rewrite (entry_ok_id id e' (Hok id e' Hin)). now rewrite Hin.
    + intros H. destruct (store !! entry_id e) as [e'|] eqn:E; [|discriminate].
      injection H as ->. exists (entry_id e, e). split; [reflexivity|].
      now apply elem_of_map_to_list.
  - rewrite (listed_ids store Hok). apply NoDup_fst_map_to_list.
Qed.

Lemma listing_agrees_witness :
  reachable sample_store /\
  NoDup (entry_id <$> getAllStatuses sample_store).
Proof.
  assert (Hr : reachable sample_store) by (apply reach_queueBuffer, reach_start).
  split; [exact Hr|]. apply (listing_agrees sample_store Hr).
Defined.

(** ** The mock result against the normalizer *)

(** X16. The mock result is not in the normalizer's normal form. Its
    invoice fields sit beside [output], not inside it, so its [output]
    lacks the essentials that every normalized result has; either copy of
    the normalizer would keep the fields where they are and put
    placeholders for them under [output]. *)
Theorem mock_result_not_normalized processedAt fileId filename iso s t :
  let ocrData := field (createMockResult processedAt fileId filename) "ocrData" in
  essentials (field ocrData "output") = false /\
  exists r,
    normalize iso s t ocrData = inr r /\
    essentials (field r "output") = true /\
    field r "nomor_referensi" = field ocrData "nomor_referensi" /\
    field (field r "output") "nomor_referensi" = confident (inv_now t) true /\
    field (field r "output") "items" = field (field ocrData "output") "items".
Proof.
  intros ocrData. split; [reflexivity|].
  destruct s; eexists; (split; [vm_compute; reflexivity|]);
    repeat split; reflexivity.
Qed.
